(** * diarization-bot: transcript post-processing and speaker enrollment

    A shallow embedding of [app/postprocess.py], [app/speaker_enrollment.py]
    and the tail of [app/pipeline.py], with the properties the specification
    states about them; then of the command lines of
    [app/whisperx_runner.py] and [_cut_wav] and of [with_overrides] in
    [app/config.py], with further properties read off the code.

    Conventions of the embedding.
    - A Python [float] is an IEEE-754 binary64 value ([spec_float] at
      precision 53, [emax] 1024); arithmetic and comparisons are those of
      the Standard Library's [SpecFloat], so NaN and the infinities behave
      as they do in the interpreter.
    - A Python [str] is the list of its Unicode code points.
    - A raised exception is the [Raise] outcome of the [result] type; a
      [for] loop that appends to a list is a recursion with an accumulator.
    - What the program cannot see into (the JSON parser, [ffmpeg], the
      embedding network, the temporary directory's name) is part of the
      [World] a run is given.
    - What the code calls in the interpreter and its libraries ([float],
      [int], [str.strip], the formats [02d] and [.3f], [shlex.quote],
      [shlex.split], [np.mean]) is written out as it computes. *)

From Stdlib Require Import ZArith NArith QArith Qabs Lia Ascii String Sorted.
From Stdlib Require Import Floats.SpecFloat.
From stdpp Require Import base option list gmap.

Local Open Scope Z_scope.

(* ===================================================================== *)
(** * Exceptions and results *)
(* ===================================================================== *)

(** The exception classes the modelled code can raise. [EnrollmentError]
    carries which of its [raise] statements produced it. *)
Inductive enrollment_failure :=
  | MissingDependency          (* "pyannote.audio and its dependencies must be installed" *)
  | NonPositiveDuration        (* "Segment duration must be positive" *)
  | FfmpegFailed (code : Z).   (* "ffmpeg failed with code ..." *)

Inductive exn :=
  | JSONDecodeError
  | TypeError
  | ValueError
  | AttributeError
  | OverflowError
  | RuntimeError
  | EnrollmentError (why : enrollment_failure).

Inductive result (A : Type) :=
  | Ok (a : A)
  | Raise (e : exn).
Arguments Ok {A} a.
Arguments Raise {A} e.

#[global] Instance result_ret : MRet result := fun A a => Ok a.
#[global] Instance result_bind : MBind result := fun A B f r =>
  match r with
  | Ok a => f a
  | Raise e => Raise e
  end.

Definition is_ok {A} (r : result A) : bool :=
  match r with Ok _ => true | Raise _ => false end.

(* ===================================================================== *)
(** * Python floats *)
(* ===================================================================== *)

Module PyFloat.

Definition float := spec_float.

Definition prec : Z := 53.
Definition emax : Z := 1024.

Definition zero : float := S754_zero false.
Definition one : float := S754_finite false 4503599627370496 (-52).
Definition two : float := S754_finite false 4503599627370496 (-51).
Definition inf : float := S754_infinity false.
Definition nan : float := S754_nan.

Definition sub (a b : float) : float := SFsub prec emax a b.
Definition ltb (a b : float) : bool := SFltb a b.
Definition leb (a b : float) : bool := SFleb a b.

Definition is_nan (a : float) : bool :=
  match a with S754_nan => true | _ => false end.

(** The sign bit is clear and the value is a number: [0 <= a < inf]. *)
Definition is_nonneg_finite (a : float) : bool :=
  match a with
  | S754_zero _ => true
  | S754_finite s _ _ => negb s
  | S754_infinity _ | S754_nan => false
  end.

(** [float(n)] for an [int]: round to nearest, ties to even;
    [OverflowError] when the rounded value is out of range. *)
Definition of_int (n : Z) : result float :=
  match binary_normalize prec emax n 0 false with
  | S754_infinity _ => Raise OverflowError
  | f => Ok f
  end.

(** The binary64 nearest to the rational [num / den] (ties to even),
    negated when [neg]: how a decimal literal is read. *)
Definition of_ratio (neg : bool) (num den : positive) : float :=
  let '(q, e, l) := SFdiv_core_binary prec emax (Zpos num) 0 (Zpos den) 0 in
  binary_round_aux prec emax neg q e l.

(** [int(x)]: truncation toward zero; [ValueError] on NaN and
    [OverflowError] on an infinity. *)
Definition to_int (x : float) : result Z :=
  match x with
  | S754_nan => Raise ValueError
  | S754_infinity _ => Raise OverflowError
  | S754_zero _ => Ok 0
  | S754_finite s m e => Ok (cond_Zopp s (Z.shiftl (Zpos m) e))
  end.

(** The exact value of a finite float, as a rational. *)
Definition to_Q (x : float) : Q :=
  match x with
  | S754_finite s m e =>
      let v := if 0 <=? e then inject_Z (Zpos m * 2 ^ e)
               else Qmake (Zpos m) (Z.to_pos (2 ^ (- e))) in
      if s then Qopp v else v
  | _ => 0%Q
  end.

(** The builtin [max(a, b)] on floats: the first argument is kept unless
    the second compares greater. *)
Definition max (a b : float) : float := if ltb a b then b else a.

End PyFloat.

Abbreviation float := PyFloat.float.

(* ===================================================================== *)
(** * Python strings *)
(* ===================================================================== *)

Module PyStr.

(** A [str] is the list of its code points. *)
Definition str := list N.

(** An ASCII literal as a [str]. *)
Definition lit (s : string) : str :=
  map N_of_ascii (list_ascii_of_string s).

Definition LF : N := 10.
Definition EN_DASH : N := 8211.        (* U+2013, the dash of [pretty_time] *)

(** [c.isspace()]: the interpreter's table of whitespace code points. *)
Definition isspace (c : N) : bool :=
  ((9 <=? c) && (c <=? 13) || (28 <=? c) && (c <=? 32)
   || (c =? 133) || (c =? 160) || (c =? 5760)
   || (8192 <=? c) && (c <=? 8202)
   || (c =? 8232) || (c =? 8233) || (c =? 8239) || (c =? 8287)
   || (c =? 12288))%N.

Fixpoint lstrip (s : str) : str :=
  match s with
  | c :: s' => if isspace c then lstrip s' else s
  | [] => []
  end.

Definition rstrip (s : str) : str := rev (lstrip (rev s)).

(** [s.strip()] *)
Definition strip (s : str) : str := rstrip (lstrip s).

Definition digit (d : Z) : N := (48 + Z.to_N d)%N.

(** The decimal digits of [n >= 0], most significant first. *)
Fixpoint digits_fuel (fuel : nat) (n : Z) (acc : str) : str :=
  match fuel with
  | O => acc
  | S fuel' =>
      let acc' := digit (n mod 10) :: acc in
      if n <? 10 then acc' else digits_fuel fuel' (n / 10) acc'
  end.

Definition digits (n : Z) : str :=
  digits_fuel (S (Z.to_nat (Z.log2 n))) n [].

(** [str(n)] for an [int]. *)
Definition of_int (n : Z) : str :=
  if n <? 0 then lit "-" ++ digits (- n) else digits n.

(** [f"{n:02d}"]: zero-padded to a width of two, the sign counted in
    the width. *)
Definition format_02d (n : Z) : str :=
  if (0 <=? n) && (n <? 10) then lit "0" ++ digits n else of_int n.

(** [sep.join(parts)] *)
Fixpoint join (sep : str) (parts : list str) : str :=
  match parts with
  | [] => []
  | [p] => p
  | p :: rest => p ++ sep ++ join sep rest
  end.

Definition eqb (a b : str) : bool := bool_decide (a = b).

End PyStr.

Abbreviation str := PyStr.str.

Arguments PyStr.lit : simpl never.

(* ===================================================================== *)
(** * Python values read from JSON, and the builtin [float()] *)
(* ===================================================================== *)

Module PyVal.

(** What [json.loads] can put under a key. *)
#[warnings="-register-all"]
Inductive pyval :=
  | PNone
  | PBool (b : bool)
  | PInt (n : Z)
  | PFloat (x : float)
  | PStr (s : str)
  | PList (items : list pyval)
  | PDict (items : list (str * pyval)).

(** Truth value, as [not v] and [v or w] test it. *)
Definition truthy (v : pyval) : bool :=
  match v with
  | PNone => false
  | PBool b => b
  | PInt n => negb (n =? 0)
  | PFloat x => match x with S754_zero _ => false | _ => true end
  | PStr s => match s with [] => false | _ => true end
  | PList l => match l with [] => false | _ => true end
  | PDict d => match d with [] => false | _ => true end
  end.

(** ** [float(s)] for a [str]

    Underscores between digits are dropped, surrounding whitespace is
    skipped, and what remains is an optional sign followed by a decimal
    literal, [inf], [infinity] or [nan]. The interpreter also reads the
    decimal digits of other scripts (Arabic-Indic and so on) as ASCII
    digits; here such a string is not a number. *)

Definition is_digit (c : N) : bool := ((48 <=? c) && (c <=? 57))%N.

Definition UNDERSCORE : N := 95.

Fixpoint drop_underscores (prev : N) (s : str) : option str :=
  match s with
  | [] => if (prev =? UNDERSCORE)%N then None else Some []
  | c :: s' =>
      if (c =? UNDERSCORE)%N then
        if is_digit prev then drop_underscores c s' else None
      else if (prev =? UNDERSCORE)%N && negb (is_digit c) then None
      else cons c <$> drop_underscores c s'
  end.

(** Whitespace as [float()] skips it: the C locale's below 127, the
    Unicode table above. *)
Definition float_space (c : N) : bool :=
  ((9 <=? c) && (c <=? 13) || (c =? 32)
   || (127 <=? c) && PyStr.isspace c)%N.

Fixpoint skip_space (s : str) : str :=
  match s with
  | c :: s' => if float_space c then skip_space s' else s
  | [] => []
  end.

Fixpoint span_digits (s : str) : str * str :=
  match s with
  | c :: s' =>
      if is_digit c then let '(ds, r) := span_digits s' in (c :: ds, r)
      else ([], s)
  | [] => ([], [])
  end.

Definition digits_value (ds : str) : Z :=
  fold_left (fun acc c => 10 * acc + (Z.of_N c - 48)) ds 0.

Definition split_sign (s : str) : bool * str :=
  match s with
  | 43%N :: r => (false, r)
  | 45%N :: r => (true, r)
  | _ => (false, s)
  end.

(** The exponent part, which must reach the end of the string. *)
Definition parse_exponent (s : str) : option Z :=
  match s with
  | [] => Some 0
  | c :: r =>
      if ((c =? 101) || (c =? 69))%N then
        let '(neg, r') := split_sign r in
        match span_digits r' with
        | ([], _) => None
        | (ds, []) => Some (cond_Zopp neg (digits_value ds))
        | (_, _ :: _) => None
        end
      else None
  end.

(** [digits [. digits] [e [sign] digits]] as mantissa and power of ten. *)
Definition parse_decimal (s : str) : option (Z * Z) :=
  let '(d1, r1) := span_digits s in
  let '(d2, r2) := match r1 with
                   | 46%N :: r => span_digits r
                   | _ => ([], r1)
                   end in
  match d1 ++ d2 with
  | [] => None
  | ds => e ← parse_exponent r2;
          Some (digits_value ds, e - Z.of_nat (length d2))
  end.

Definition decimal_to_float (neg : bool) (m e : Z) : float :=
  match m with
  | Zpos p =>
      if 0 <=? e then PyFloat.of_ratio neg (p * Z.to_pos (10 ^ e)) 1
      else PyFloat.of_ratio neg p (Z.to_pos (10 ^ (- e)))
  | _ => S754_zero neg
  end.

Definition lower (c : N) : N :=
  if ((65 <=? c) && (c <=? 90))%N then (c + 32)%N else c.

Definition float_of_str (s : str) : option float :=
  t ← drop_underscores 0%N s;
  let t := rev (skip_space (rev (skip_space t))) in
  let '(neg, body) := split_sign t in
  match parse_decimal body with
  | Some (m, e) => Some (decimal_to_float neg m e)
  | None =>
      let w := map lower body in
      if PyStr.eqb w (PyStr.lit "inf") || PyStr.eqb w (PyStr.lit "infinity")
      then Some (S754_infinity neg)
      else if PyStr.eqb w (PyStr.lit "nan") then Some S754_nan
      else None
  end.

(** ** The builtin [float(v)] *)
Definition py_float (v : pyval) : result float :=
  match v with
  | PFloat x => Ok x
  | PInt n => PyFloat.of_int n
  | PBool b => Ok (if b then PyFloat.one else PyFloat.zero)
  | PStr s =>
      match float_of_str s with
      | Some x => Ok x
      | None => Raise ValueError
      end
  | PNone | PList _ | PDict _ => Raise TypeError
  end.

End PyVal.

Export PyVal.

(* ===================================================================== *)
(** * Effects: the trace a run leaves behind *)
(* ===================================================================== *)

(** A [pathlib.Path], by its parts; [p / name] appends one. *)
Definition path := list str.
Definition path_join (p : path) (name : str) : path := p ++ [name].
Infix "//" := path_join (at level 40, left associativity).

(** A numpy array of one dimension: its element type and its elements. *)
Inductive dtype := Float32 | Float64.
Record ndarray := mkArray { arr_dtype : dtype; arr_data : list float }.

Inductive event :=
  | Mkdir (p : path)
  | WriteText (p : path) (content : str)
  | CallCutWav (audio : path) (start end_ : float) (destination : path)
  | RunFfmpeg (audio : path) (start duration : float) (destination : path)
  | Embed (wav : path)
  | NpSave (p : path) (a : ndarray)
  | RemoveTree (p : path)
  | LogWarning (e : exn).

(** A computation that leaves a trace and returns or raises. *)
Definition io (A : Type) : Type := list event * result A.

#[global] Instance io_ret : MRet io := fun A a => ([], Ok a).
#[global] Instance io_bind : MBind io := fun A B f m =>
  match m with
  | (t, Ok a) => let '(t', r) := f a in (t ++ t', r)
  | (t, Raise e) => (t, Raise e)
  end.

Definition emit (e : event) : io unit := ([e], Ok tt).
Definition raise {A} (e : exn) : io A := ([], Raise e).
Definition lift {A} (r : result A) : io A := ([], r).
Definition trace {A} (m : io A) : list event := fst m.
Definition outcome {A} (m : io A) : result A := snd m.

(* ===================================================================== *)
(** * app/postprocess.py *)
(* ===================================================================== *)

Module Postprocess.

(** [class Segment]: a diarized speech segment. *)
Record Segment := mkSegment {
  speaker : str;
  text : str;
  start : float;
  end_ : float
}.

(** A segment record as a [dict]: each key is absent ([None]) or holds
    a value. Under [speaker] the value is a string; under the other keys
    it is whatever the JSON document had there. *)
Record SegmentDict := mkDict {
  d_speaker : option str;
  d_text : option pyval;
  d_start : option pyval;
  d_end : option pyval
}.

(** What [json.loads(json_path.read_text())] gives: an exception, or an
    object whose [segments] entry, when there is one, lists records. *)
Inductive json_document :=
  | Unparseable
  | Document (segments : option (list SegmentDict)).

Definition PLACEHOLDER : str := PyStr.lit "SPEAKER".

(** [divmod(a, b)] for [b > 0]. *)
Definition divmod (a b : Z) : Z * Z := (a / b, a mod b).

Definition _format_time (timestamp : float) : result str :=
  seconds ← PyFloat.to_int timestamp;
  let '(minutes, seconds) := divmod seconds 60 in
  let '(hours, minutes) := divmod minutes 60 in
  Ok (PyStr.format_02d hours ++ PyStr.lit ":" ++ PyStr.format_02d minutes
        ++ PyStr.lit ":" ++ PyStr.format_02d seconds).

Definition pretty_time (self : Segment) : result str :=
  a ← _format_time (start self);
  b ← _format_time (end_ self);
  Ok (PyStr.lit "[" ++ a ++ [PyStr.EN_DASH] ++ b ++ PyStr.lit "]").

(** [(raw.get("text") or "").strip()] *)
Definition stripped_text (raw : SegmentDict) : result str :=
  match d_text raw with
  | Some v =>
      if truthy v then
        match v with
        | PStr s => Ok (PyStr.strip s)
        | _ => Raise AttributeError
        end
      else Ok (PyStr.strip [])
  | None => Ok (PyStr.strip [])
  end.

Definition nonempty (s : str) : bool :=
  match s with [] => false | _ => true end.

(** The loop of [load_segments], [segments] being the list built so far. *)
Fixpoint load_loop (raws : list SegmentDict) (segments : list Segment)
  : result (list Segment) :=
  match raws with
  | [] => Ok segments
  | raw :: rest =>
      let speaker := default PLACEHOLDER (d_speaker raw) in
      text ← stripped_text raw;
      if negb (nonempty text) then load_loop rest segments
      else
        start ← py_float (default (PFloat PyFloat.zero) (d_start raw));
        end_ ← py_float (default (PFloat PyFloat.zero) (d_end raw));
        load_loop rest (segments ++ [mkSegment speaker text start end_])
  end.

Definition load_segments (data : json_document) : result (list Segment) :=
  match data with
  | Unparseable => Raise JSONDecodeError
  | Document segments => load_loop (default [] segments) []
  end.

(** The [Segment] that [apply_speaker_map] builds from one. *)
Definition remap (mapping : gmap str str) (segment : Segment) : Segment :=
  let speaker := default (speaker segment) (mapping !! speaker segment) in
  mkSegment speaker (text segment) (start segment) (end_ segment).

Fixpoint apply_loop (segments : list Segment) (mapping : gmap str str)
    (mapped : list Segment) : list Segment :=
  match segments with
  | [] => mapped
  | segment :: rest => apply_loop rest mapping (mapped ++ [remap mapping segment])
  end.

Definition apply_speaker_map (segments : list Segment) (mapping : gmap str str)
  : list Segment :=
  apply_loop segments mapping [].

Definition render_line (segment : Segment) : result str :=
  t ← pretty_time segment;
  Ok (t ++ PyStr.lit " " ++ speaker segment ++ PyStr.lit ": " ++ text segment).

(** The list comprehension of [segments_to_text]: the first line that
    raises ends it. *)
Fixpoint render_lines (segments : list Segment) : result (list str) :=
  match segments with
  | [] => Ok []
  | segment :: rest =>
      line ← render_line segment;
      lines ← render_lines rest;
      Ok (line :: lines)
  end.

Definition segments_to_text (segments : list Segment) : result str :=
  lines ← render_lines segments;
  Ok (PyStr.join [PyStr.LF] lines).

Definition write_segments (segments : list Segment) (destination : path)
  : io path :=
  _ ← emit (Mkdir (removelast destination));
  content ← lift (segments_to_text segments);
  _ ← emit (WriteText destination content);
  mret destination.

(** ** Segments as objects

    The same function over a store of [Segment] objects, to tell a new
    object from a changed one: an address is an index into the store,
    and constructing a [Segment] appends to it. *)
Abbreviation addr := nat.
Abbreviation store := (list Segment).

Definition alloc (h : store) (s : Segment) : store * addr :=
  (h ++ [s], length h).

Fixpoint apply_loop_store (h : store) (segments : list addr)
    (mapping : gmap str str) (mapped : list addr) : option (store * list addr) :=
  match segments with
  | [] => Some (h, mapped)
  | a :: rest =>
      segment ← h !! a;
      let '(h', a') := alloc h (remap mapping segment) in
      apply_loop_store h' rest mapping (mapped ++ [a'])
  end.

Definition apply_speaker_map_store (h : store) (segments : list addr)
    (mapping : gmap str str) : option (store * list addr) :=
  apply_loop_store h segments mapping [].

End Postprocess.

(* ===================================================================== *)
(** * numpy: the mean of stacked vectors *)
(* ===================================================================== *)

Module Numpy.

Definition prec_of (dt : dtype) : Z :=
  match dt with Float32 => 24 | Float64 => 53 end.
Definition emax_of (dt : dtype) : Z :=
  match dt with Float32 => 128 | Float64 => 1024 end.

Definition add (dt : dtype) (a b : float) : float :=
  SFadd (prec_of dt) (emax_of dt) a b.
Definition div (dt : dtype) (a b : float) : float :=
  SFdiv (prec_of dt) (emax_of dt) a b.

(** A count as an element of type [dt]. *)
Definition of_count (dt : dtype) (n : nat) : float :=
  binary_normalize (prec_of dt) (emax_of dt) (Z.of_nat n) 0 false.

(** Rounding an element to [dt]: what [astype] does to each. *)
Definition round_to (dt : dtype) (x : float) : float :=
  match x with
  | S754_finite s m e => binary_round (prec_of dt) (emax_of dt) s m e
  | _ => x
  end.

(** [np.mean(np.stack(rows, axis=0), axis=0)] for vectors of element type
    [dt]: [np.stack] wants at least one row and equal lengths; the rows
    are added up in order and the sum is divided by their number, all in
    the arithmetic of [dt]. *)
Definition mean_axis0 (dt : dtype) (rows : list (list float))
  : result (list float) :=
  match rows with
  | [] => Raise ValueError
  | r :: rs =>
      if forallb (fun r' => Nat.eqb (length r') (length r)) rs then
        let total := fold_left (zip_with (add dt)) rs r in
        Ok (map (fun x => div dt x (of_count dt (length rows))) total)
      else Raise ValueError
  end.

(** [a.astype("float32")] *)
Definition astype_float32 (a : ndarray) : ndarray :=
  match arr_dtype a with
  | Float32 => a
  | Float64 => mkArray Float32 (map (round_to Float32) (arr_data a))
  end.

End Numpy.

(* ===================================================================== *)
(** * app/speaker_enrollment.py *)
(* ===================================================================== *)

Module Enrollment.
Import Postprocess.

(** What a call of [enroll_speakers] finds outside the program. *)
Record World := mkWorld {
  model_available : bool;          (* the imports of [_load_embedding_model] succeed *)
  ffmpeg : path -> float -> float -> path -> Z;
                                   (* exit status, by audio, start, duration, destination *)
  embedder : path -> result (list float);
                                   (* the vector for a clip, squeezed *)
  embedding_dtype : dtype;         (* element type of the embedder's vectors *)
  temp_dir : path                  (* the directory [tempfile] makes *)
}.

Definition window := (float * float)%type.

(** [item[1] - item[0]], the sort key. *)
Definition duration (item : window) : float := PyFloat.sub (snd item) (fst item).

Definition _load_embedding_model (w : World) : io unit :=
  if model_available w then mret tt
  else raise (EnrollmentError MissingDependency).

Definition _cut_wav (w : World) (audio : path) (start end_ : float)
    (destination : path) : io unit :=
  _ ← emit (CallCutWav audio start end_ destination);
  let duration := PyFloat.max PyFloat.zero (PyFloat.sub end_ start) in
  if PyFloat.leb duration PyFloat.zero then
    raise (EnrollmentError NonPositiveDuration)
  else
    _ ← emit (RunFfmpeg audio start duration destination);
    let returncode := ffmpeg w audio start duration destination in
    if negb (returncode =? 0) then raise (EnrollmentError (FfmpegFailed returncode))
    else mret tt.

(** [grouped.setdefault(speaker, []).append(item)] on a dict that keeps
    its keys in the order of their first insertion. *)
Fixpoint setdefault_append (grouped : list (str * list window))
    (speaker : str) (item : window) : list (str * list window) :=
  match grouped with
  | [] => [(speaker, [item])]
  | (k, windows) :: rest =>
      if PyStr.eqb k speaker then (k, windows ++ [item]) :: rest
      else (k, windows) :: setdefault_append rest speaker item
  end.

(** The grouping loop. *)
Fixpoint group_loop (segments : list SegmentDict)
    (grouped : list (str * list window)) : result (list (str * list window)) :=
  match segments with
  | [] => Ok grouped
  | segment :: rest =>
      match d_speaker segment with
      | None | Some [] => group_loop rest grouped
      | Some speaker =>
          start ← py_float (default (PFloat PyFloat.zero) (d_start segment));
          end_ ← py_float (default (PFloat PyFloat.zero) (d_end segment));
          if PyFloat.ltb (PyFloat.sub end_ start) PyFloat.two then
            group_loop rest grouped
          else group_loop rest (setdefault_append grouped speaker (start, end_))
      end
  end.

(** [windows.sort(key=..., reverse=True)]: the sort is stable and
    compares keys with [<] only. It is written here as an insertion
    from the right, which is what every stable sort computes when [<]
    orders the keys ([sort_desc_perm], [sort_desc_descending] and
    [sort_desc_stable] below); with NaN among the keys the interpreter's
    merge sort need not agree with it on lists of more than two windows,
    and nothing below relies on that case beyond the examples spelled
    out. *)
Fixpoint insert_desc (x : window) (l : list window) : list window :=
  match l with
  | [] => [x]
  | y :: l' =>
      if PyFloat.ltb (duration x) (duration y) then y :: insert_desc x l'
      else x :: l
  end.

Definition sort_desc (windows : list window) : list window :=
  foldr insert_desc [] windows.

(** [l[:k]] *)
Definition slice_to {A} (l : list A) (k : Z) : list A :=
  if 0 <=? k then take (Z.to_nat k) l
  else take (length l - Z.to_nat (- k)) l.

Definition wav_name (speaker_code : str) (idx : nat) : str :=
  speaker_code ++ PyStr.lit "_" ++ PyStr.of_int (Z.of_nat idx) ++ PyStr.lit ".wav".

(** The inner loop: cut and embed each selected window, [idx] counting
    from where [enumerate] is. *)
Fixpoint embed_loop (w : World) (audio_path : path) (speaker_code : str)
    (idx : nat) (selected : list window) (embeddings : list (list float))
  : io (list (list float)) :=
  match selected with
  | [] => mret embeddings
  | (start, end_) :: rest =>
      let wav_path := temp_dir w // wav_name speaker_code idx in
      _ ← _cut_wav w audio_path start end_ wav_path;
      _ ← emit (Embed wav_path);
      vector ← lift (embedder w wav_path);
      embed_loop w audio_path speaker_code (S idx) rest (embeddings ++ [vector])
  end.

(** The windows handed to the inner loop for one speaker. *)
Definition select (windows : list window) (max_segments_per_speaker : Z)
  : list window :=
  slice_to (sort_desc windows) max_segments_per_speaker.

Definition npy_name (speaker_name : str) : str := speaker_name ++ PyStr.lit ".npy".

(** The body of the outer loop, for one entry of [grouped]. *)
Definition enroll_one (w : World) (audio_path : path)
    (speaker_map : gmap str str) (output_dir : path)
    (max_segments_per_speaker : Z) (speaker_code : str)
    (windows : list window) (created : list path) : io (list path) :=
  let speaker_name := default speaker_code (speaker_map !! speaker_code) in
  embeddings ← embed_loop w audio_path speaker_code 0
                 (select windows max_segments_per_speaker) [];
  match embeddings with
  | [] => mret created
  | _ =>
      mean ← lift (Numpy.mean_axis0 (embedding_dtype w) embeddings);
      let mean_embedding :=
        Numpy.astype_float32 (mkArray (embedding_dtype w) mean) in
      let output_path := output_dir // npy_name speaker_name in
      _ ← emit (NpSave output_path mean_embedding);
      mret (created ++ [output_path])
  end.

Fixpoint enroll_loop (w : World) (audio_path : path)
    (speaker_map : gmap str str) (output_dir : path)
    (max_segments_per_speaker : Z) (grouped : list (str * list window))
    (created : list path) : io (list path) :=
  match grouped with
  | [] => mret created
  | (speaker_code, windows) :: rest =>
      created' ← enroll_one w audio_path speaker_map output_dir
                   max_segments_per_speaker speaker_code windows created;
      enroll_loop w audio_path speaker_map output_dir
        max_segments_per_speaker rest created'
  end.

(** [with tempfile.TemporaryDirectory(...)]: the directory is made, and
    removed however the body ends. *)
Definition with_temporary_directory {A} (w : World) (body : io A) : io A :=
  (Mkdir (temp_dir w) :: trace body ++ [RemoveTree (temp_dir w)], outcome body).

Definition DEFAULT_MAX_SEGMENTS : Z := 5.

Definition enroll_speakers (w : World) (audio_path : path)
    (segments : list SegmentDict) (speaker_map : gmap str str)
    (output_dir : path) (max_segments_per_speaker : Z) : io (list path) :=
  _ ← _load_embedding_model w;
  _ ← emit (Mkdir output_dir);
  grouped ← lift (group_loop segments []);
  with_temporary_directory w
    (enroll_loop w audio_path speaker_map output_dir
       max_segments_per_speaker grouped []).

End Enrollment.

(* ===================================================================== *)
(** * app/pipeline.py *)
(* ===================================================================== *)

Module Pipeline.
Import Postprocess Enrollment.

Record PipelineConfig := mkConfig {
  output_root : path;
  speaker_map : gmap str str;
  speaker_db : path
}.

Record PipelineResult := mkResult {
  audio_path : path;
  output_dir : path;
  diarized_text : path;
  raw_segments_path : path
}.

(** What one call of [process] finds outside the program: the steps
    before the transcript is read, by how they end, and the world of the
    enrollment. *)
Record Run := mkRun {
  run_timestamp : str;
  audio_name : str;                (* the file name the audio gets in [run_dir] *)
  audio_stem : str;                (* that name without its suffix *)
  acquired : bool;                 (* the copy or download ends well *)
  recognised : bool;               (* [run_whisperx] ends well *)
  json_exists : bool;
  json_data : json_document;
  world : World
}.

(** The dicts handed to [enroll_speakers], one per loaded segment. *)
Definition as_dict (segment : Segment) : SegmentDict :=
  mkDict (Some (speaker segment)) None
    (Some (PFloat (start segment))) (Some (PFloat (end_ segment))).

(** [if self.config.speaker_map:] *)
Definition map_nonempty (m : gmap str str) : bool := negb (bool_decide (m = ∅)).

(** [try: ... except EnrollmentError as exc: LOGGER.warning(...)] *)
Definition except_enrollment_error {A} (body : io A) : io unit :=
  match body with
  | (t, Ok _) => (t, Ok tt)
  | (t, Raise (EnrollmentError why)) =>
      (t ++ [LogWarning (EnrollmentError why)], Ok tt)
  | (t, Raise e) => (t, Raise e)
  end.

Definition process (config : PipelineConfig) (r : Run) : io PipelineResult :=
  let run_dir := output_root config // run_timestamp r in
  _ ← emit (Mkdir run_dir);
  let audio_path := run_dir // audio_name r in
  _ ← (if acquired r then mret tt else raise RuntimeError);
  let whisperx_output := run_dir // PyStr.lit "whisperx" in
  _ ← (if recognised r then mret tt else raise RuntimeError);
  let json_path := whisperx_output // (audio_stem r ++ PyStr.lit ".json") in
  _ ← (if json_exists r then mret tt else raise RuntimeError);
  segments ← lift (load_segments (json_data r));
  let mapped_segments := apply_speaker_map segments (speaker_map config) in
  let diarized_text_path := run_dir // PyStr.lit "meeting_diarized.txt" in
  _ ← write_segments mapped_segments diarized_text_path;
  _ ← (if map_nonempty (speaker_map config) then
         except_enrollment_error
           (enroll_speakers (world r) audio_path (map as_dict segments)
              (speaker_map config) (speaker_db config) DEFAULT_MAX_SEGMENTS)
       else mret tt);
  mret (mkResult audio_path run_dir diarized_text_path json_path).

End Pipeline.

(* ===================================================================== *)
(** * Vocabulary of the statements *)
(* ===================================================================== *)

Module Spec.
Import Postprocess Enrollment.

(** The records of a parsed document; none when it has no [segments]. *)
Definition records (data : json_document) : list SegmentDict :=
  match data with
  | Document (Some raws) => raws
  | _ => []
  end.

(** The record's text, after trimming, is empty. *)
Definition blank (raw : SegmentDict) : bool :=
  match stripped_text raw with
  | Ok [] => true
  | _ => false
  end.

Definition kept (raws : list SegmentDict) : list SegmentDict :=
  List.filter (fun raw => negb (blank raw)) raws.

(** [x] is what the loader makes of a [start] or [end] entry: 0.0 for
    an absent key, [float(v)] for a value [v]. *)
Definition coerced (field : option pyval) (x : float) : Prop :=
  match field with
  | None => x = PyFloat.zero
  | Some v => py_float v = Ok x
  end.

(** Handling [raw] raises [e]: in trimming its text, or, for a record
    that is not skipped, in coercing [start] and then [end]. *)
Definition record_raises (raw : SegmentDict) (e : exn) : Prop :=
  stripped_text raw = Raise e
  \/ (blank raw = false
      /\ (py_float (default (PFloat PyFloat.zero) (d_start raw)) = Raise e
          \/ (is_ok (py_float (default (PFloat PyFloat.zero) (d_start raw))) = true
              /\ py_float (default (PFloat PyFloat.zero) (d_end raw)) = Raise e))).

(** [seg] is the [Segment] built from [raw]. *)
Definition loaded_from (raw : SegmentDict) (seg : Segment) : Prop :=
  stripped_text raw = Ok (text seg)
  /\ speaker seg = default PLACEHOLDER (d_speaker raw)
  /\ coerced (d_start raw) (start seg)
  /\ coerced (d_end raw) (end_ seg).



(** The speaker and window the grouping loop takes from a segment: none
    when the speaker is missing or empty, when a bound is not a number,
    or when [end - start < 2.0]. *)
Definition eligible (segment : SegmentDict) : option (str * window) :=
  match d_speaker segment with
  | None | Some [] => None
  | Some speaker =>
      match py_float (default (PFloat PyFloat.zero) (d_start segment)),
            py_float (default (PFloat PyFloat.zero) (d_end segment)) with
      | Ok start, Ok end_ =>
          if PyFloat.ltb (PyFloat.sub end_ start) PyFloat.two then None
          else Some (speaker, (start, end_))
      | _, _ => None
      end
  end.

(** The eligible windows of one speaker, in input order. *)
Definition windows_for (speaker : str) (segments : list SegmentDict) : list window :=
  map snd (List.filter (fun kw => PyStr.eqb (fst kw) speaker)
             (omap eligible segments)).

(** The windows filed under a key of [grouped]. *)
Fixpoint windows_of (speaker : str) (grouped : list (str * list window))
  : list window :=
  match grouped with
  | [] => []
  | (k, windows) :: rest =>
      if PyStr.eqb k speaker then windows else windows_of speaker rest
  end.

(** ** The rendered line *)

(** [k] as two decimal digits. *)
Definition two_digits (k : Z) : str :=
  [PyStr.digit (k / 10); PyStr.digit (k mod 10)].

(** The hours: two digits below a hundred hours, as many as it takes
    from there on. *)
Definition hours_field (h : Z) : str :=
  if h <? 100 then two_digits h else PyStr.of_int h.

(** [HH:MM:SS] for [n] whole seconds. *)
Definition clock (n : Z) : str :=
  hours_field (n / 3600) ++ PyStr.lit ":" ++ two_digits (n / 60 mod 60)
    ++ PyStr.lit ":" ++ two_digits (n mod 60).

(** [n] is the non-negative time [x] truncated to whole seconds:
    [n <= x < n + 1]. *)
Definition whole_seconds (x : float) (n : Z) : Prop :=
  0 <= n /\ (inject_Z n <= PyFloat.to_Q x)%Q /\ (PyFloat.to_Q x < inject_Z (n + 1))%Q.

(** [line] is [[HH:MM:SS–HH:MM:SS] <speaker>: <text>] for [segment]. *)
Definition rendered (segment : Segment) (line : str) : Prop :=
  exists a b,
    whole_seconds (start segment) a /\ whole_seconds (end_ segment) b
    /\ line = PyStr.lit "[" ++ clock a ++ [PyStr.EN_DASH] ++ clock b ++ PyStr.lit "] "
                ++ speaker segment ++ PyStr.lit ": " ++ text segment.


(** Start and end are non-negative times, as the data model has them. *)
Definition timed (segment : Segment) : Prop :=
  PyFloat.is_nonneg_finite (start segment) = true
  /\ PyFloat.is_nonneg_finite (end_ segment) = true.


(** ** The mean embedding *)

(** The [j]-th components of the vectors, in order. *)
Definition column (j : nat) (rows : list (list float)) : list float :=
  map (fun row => nth j row PyFloat.zero) rows.

(** The arithmetic mean of a non-empty list in the arithmetic of [dt]:
    the first element plus the others in order, over their number. *)
Definition mean_of (dt : dtype) (xs : list float) : float :=
  Numpy.div dt (fold_left (Numpy.add dt) (tail xs) (hd PyFloat.zero xs))
    (Numpy.of_count dt (length xs)).

(** An element of type [dt] as a float32. *)
Definition cast32 (dt : dtype) (x : float) : float :=
  match dt with
  | Float32 => x
  | Float64 => Numpy.round_to Float32 x
  end.

(** ** Failing cuts *)

(** The cut of this window fails: its duration is not positive, or
    [ffmpeg] exits with a status other than zero. *)
Definition cut_fails (w : World) (audio : path) (start end_ : float)
    (dest : path) : Prop :=
  let d := PyFloat.max PyFloat.zero (PyFloat.sub end_ start) in
  PyFloat.leb d PyFloat.zero = true \/ ffmpeg w audio start d dest <> 0.

(** The error of a failing cut. *)
Definition cut_error (w : World) (audio : path) (start end_ : float)
    (dest : path) : enrollment_failure :=
  let d := PyFloat.max PyFloat.zero (PyFloat.sub end_ start) in
  if PyFloat.leb d PyFloat.zero then NonPositiveDuration
  else FfmpegFailed (ffmpeg w audio start d dest).

(** An event that is no cut, no embedding and no saved file. *)
Definition idle (ev : event) : Prop :=
  match ev with
  | CallCutWav _ _ _ _ | Embed _ | NpSave _ _ => False
  | _ => True
  end.

(** The duration of a window is a number, not NaN. *)
Definition numeric (w : window) : Prop := PyFloat.is_nan (duration w) = false.

Definition cut_call (ev : event) : option window :=
  match ev with
  | CallCutWav _ start end_ _ => Some (start, end_)
  | _ => None
  end.

(** The windows of the calls of [_cut_wav] in a trace, in order. *)
Definition cut_calls (t : list event) : list window := omap cut_call t.

End Spec.

(* ===================================================================== *)
(** * Sample inputs *)
(* ===================================================================== *)

Module Sample.
Import Postprocess Enrollment.

(** A transcript of three records: one as the tool writes it, one whose
    text is blank, one with only a text. *)
Definition three_records : json_document :=
  Document (Some
    [ mkDict (Some (PyStr.lit "SPEAKER_00")) (Some (PStr (PyStr.lit " hello ")))
        (Some (PFloat (PyFloat.of_ratio false 652 10))) (Some (PInt 70));
      mkDict (Some (PyStr.lit "SPEAKER_01")) (Some (PStr (PyStr.lit "   ")))
        (Some (PInt 70)) (Some (PInt 71));
      mkDict None (Some (PStr (PyStr.lit "bye"))) None None ]).

Definition three_loaded : list Segment :=
  [ mkSegment (PyStr.lit "SPEAKER_00") (PyStr.lit "hello")
      (PyFloat.of_ratio false 652 10) (PyFloat.of_ratio false 70 1);
    mkSegment (PyStr.lit "SPEAKER") (PyStr.lit "bye") PyFloat.zero PyFloat.zero ].

(** A record with an empty [speaker] string and a text: the label stays
    empty. *)
Definition empty_speaker_record : SegmentDict :=
  mkDict (Some []) (Some (PStr (PyStr.lit "hi"))) (Some (PInt 1)) (Some (PInt 2)).

(** The speaker map [{"SPEAKER_00": "Alice"}]. *)
Definition alice_map : gmap str str :=
  {[ PyStr.lit "SPEAKER_00" := PyStr.lit "Alice" ]}.

(** A world in which every cut and every embedding succeeds. *)
Definition quiet_world : World :=
  mkWorld true (fun _ _ _ _ => 0) (fun _ => Ok [PyFloat.one; PyFloat.two])
    Float32 [PyStr.lit "tmp"].

Definition seg (speaker : string) (start end_ : Z) : SegmentDict :=
  mkDict (Some (PyStr.lit speaker)) None (Some (PInt start)) (Some (PInt end_)).

Definition win (start end_ : Z) : window :=
  (binary_normalize 53 1024 start 0 false, binary_normalize 53 1024 end_ 0 false).

(** Nine segments: seven of speaker A that last 3, 5, 2, 9, 4, 7 and 6
    seconds, one of A and one of B that last a second. *)
Definition nine_segments : list SegmentDict :=
  [ seg "A" 0 3; seg "A" 10 15; seg "B" 16 17; seg "A" 20 22; seg "A" 30 39;
    seg "A" 40 44; seg "A" 45 46; seg "A" 50 57; seg "A" 60 66 ].

Definition seven_windows : list window :=
  [ win 0 3; win 10 15; win 20 22; win 30 39; win 40 44; win 50 57; win 60 66 ].

Definition five_longest : list window :=
  [ win 30 39; win 50 57; win 60 66; win 10 15; win 40 44 ].

(** A segment that starts and ends at infinity, as a transcript with the
    numbers [1e999] gives it. *)
Definition endless_segment : SegmentDict :=
  mkDict (Some (PyStr.lit "S")) None
    (Some (PFloat PyFloat.inf)) (Some (PFloat PyFloat.inf)).

Definition audio_file : path := [PyStr.lit "a.mp3"].
Definition db_dir : path := [PyStr.lit "db"].

(** The segment of the specification's example, 65.2 s to 70.0 s, and one
    that ends at 69.9 s. *)
Definition hello_segment : Segment :=
  mkSegment (PyStr.lit "SPEAKER_00") (PyStr.lit "hello")
    (PyFloat.of_ratio false 652 10) (PyFloat.of_ratio false 70 1).

Definition bye_segment : Segment :=
  mkSegment (PyStr.lit "SPEAKER_01") (PyStr.lit "bye")
    (PyFloat.of_ratio false 70 1) (PyFloat.of_ratio false 699 10).

(** Small integers as float32 values. *)
Definition f32 (n : Z) : float := binary_normalize 24 128 n 0 false.

(** A world whose embedder gives [[1.0, 3.0]] for the first clip of
    SPEAKER_00 and [[3.0, 5.0]] for any other. *)
Definition averaging_world : World :=
  mkWorld true (fun _ _ _ _ => 0)
    (fun wav => if bool_decide (wav = [PyStr.lit "tmp"; PyStr.lit "SPEAKER_00_0.wav"])
                then Ok [f32 1; f32 3] else Ok [f32 3; f32 5])
    Float32 [PyStr.lit "tmp"].

Definition two_windows : list window := [ win 0 3; win 10 15 ].

Definition two_segments : list SegmentDict :=
  [ seg "SPEAKER_00" 0 3; seg "SPEAKER_00" 10 15 ].

(** A world in which [ffmpeg] exits with status 1. *)
Definition failing_world : World :=
  mkWorld true (fun _ _ _ _ => 1) (fun _ => Ok [PyFloat.one; PyFloat.two])
    Float32 [PyStr.lit "tmp"].

Definition sample_config : Pipeline.PipelineConfig :=
  Pipeline.mkConfig [PyStr.lit "out"] alice_map db_dir.

Definition failing_run : Pipeline.Run :=
  Pipeline.mkRun (PyStr.lit "20250101_000000") (PyStr.lit "a.mp3") (PyStr.lit "a")
    true true true three_records failing_world.

End Sample.

(* ===================================================================== *)
(** * shlex: quoting and splitting a command line *)
(* ===================================================================== *)

Module Shlex.

Definition SQ : N := 39.               (* the single quote *)
Definition DQ : N := 34.               (* the double quote *)
Definition BACKSLASH : N := 92.

(** A character outside [[^\w@%+=:,./-]] (with [re.ASCII]): a letter, a
    digit, or one of [_@%+=:,./-]. *)
Definition is_safe (c : N) : bool :=
  ((48 <=? c) && (c <=? 57) || (65 <=? c) && (c <=? 90) || (97 <=? c) && (c <=? 122)
   || (c =? 95) || (c =? 64) || (c =? 37) || (c =? 43) || (c =? 61) || (c =? 58)
   || (c =? 44) || (c =? 46) || (c =? 47) || (c =? 45))%N.

(** [s.replace], of every single quote by a single quote, a double
    quote, a single quote, a double quote and a single quote. *)
Fixpoint escape_quotes (s : str) : str :=
  match s with
  | [] => []
  | c :: s' =>
      (if (c =? SQ)%N then [SQ; DQ; SQ; DQ; SQ] else [c]) ++ escape_quotes s'
  end.

(** [shlex.quote(s)] *)
Definition quote (s : str) : str :=
  match s with
  | [] => [SQ; SQ]
  | _ => if forallb is_safe s then s else [SQ] ++ escape_quotes s ++ [SQ]
  end.

(** The lexer of [shlex.split]: POSIX mode, [whitespace_split] set, no
    comment characters, no punctuation characters. *)
Definition is_whitespace (c : N) : bool :=
  ((c =? 32) || (c =? 9) || (c =? 13) || (c =? 10))%N.
Definition is_quote (c : N) : bool := ((c =? SQ) || (c =? DQ))%N.
Definition is_escape (c : N) : bool := (c =? BACKSLASH)%N.

(** [self.token or (self.posix and quoted)] *)
Definition pending (token : str) (quoted : bool) : bool :=
  match token with
  | [] => quoted
  | _ => true
  end.

(** [self.state]: [' '], ['a'], a quote character, or the escape
    character. *)
Inductive state :=
  | Space
  | Word
  | Quote (q : N)
  | Escape.

Definition in_quotes (st : state) : bool :=
  match st with Quote _ => true | _ => false end.

(** [nextchar != escapedstate], for a state that is a quote character. *)
Definition differs (c : N) (st : state) : bool :=
  match st with Quote q => negb (c =? q)%N | _ => true end.

(** [list(lex)]: [read_token] is called until it returns [None]. The
    calls are written as one pass over the characters; where
    [read_token] leaves its loop with a token, the token is put in front
    of what the following calls give, and those start with an empty
    token, [quoted] false and [escapedstate] [' ']. At the end of the
    input a token that is empty and was never quoted counts as [None]. *)
Fixpoint lex (s : str) (st escapedstate : state) (token : str) (quoted : bool)
  : result (list str) :=
  match s with
  | [] =>
      match st with
      | Space | Word =>
          if pending token quoted then Ok [token] else Ok []
      | Quote _ => Raise ValueError            (* "No closing quotation" *)
      | Escape => Raise ValueError             (* "No escaped character" *)
      end
  | nextchar :: s' =>
      match st with
      | Space =>
          if is_whitespace nextchar then
            if pending token quoted
            then rest ← lex s' Space Space [] false; Ok (token :: rest)
            else lex s' Space escapedstate token quoted
          else if is_escape nextchar then lex s' Escape Word token quoted
          else if is_quote nextchar then lex s' (Quote nextchar) escapedstate token quoted
          else lex s' Word escapedstate [nextchar] quoted
      | Quote q =>
          if (nextchar =? q)%N then lex s' Word escapedstate token true
          else if is_escape nextchar && (q =? DQ)%N
          then lex s' Escape (Quote q) token true
          else lex s' (Quote q) escapedstate (token ++ [nextchar]) true
      | Escape =>
          let token :=
            if in_quotes escapedstate && negb (nextchar =? BACKSLASH)%N
               && differs nextchar escapedstate
            then token ++ [BACKSLASH] else token in
          lex s' escapedstate escapedstate (token ++ [nextchar]) quoted
      | Word =>
          if is_whitespace nextchar then
            if pending token quoted
            then rest ← lex s' Space Space [] false; Ok (token :: rest)
            else lex s' Space escapedstate token quoted
          else if is_quote nextchar then lex s' (Quote nextchar) escapedstate token quoted
          else if is_escape nextchar then lex s' Escape Word token quoted
          else lex s' Word escapedstate (token ++ [nextchar]) quoted
      end
  end.

(** [shlex.split(s)] *)
Definition split (s : str) : result (list str) := lex s Space Space [] false.

End Shlex.

(* ===================================================================== *)
(** * Formatting a float with [.3f] *)
(* ===================================================================== *)

Module PyFormat.

(** [num / den] rounded to the nearest integer, ties to even, for
    [den > 0]. *)
Definition round_half_even (num den : Z) : Z :=
  let q := num / den in
  match 2 * (num mod den) ?= den with
  | Lt => q
  | Gt => q + 1
  | Eq => if Z.even q then q else q + 1
  end.

Definition sign (s : bool) : str := if s then PyStr.lit "-" else [].

(** The three decimals. *)
Definition pad3 (n : Z) : str :=
  [PyStr.digit (n / 100); PyStr.digit (n / 10 mod 10); PyStr.digit (n mod 10)].

(** [f"{x:.3f}"]: the exact value, correctly rounded to three decimals;
    the sign bit shows also when the digits are all zero. *)
Definition format_3f (x : float) : str :=
  match x with
  | S754_nan => PyStr.lit "nan"
  | S754_infinity s => sign s ++ PyStr.lit "inf"
  | S754_zero s => sign s ++ PyStr.lit "0.000"
  | S754_finite s m e =>
      let thousandths :=
        if 0 <=? e then Zpos m * 2 ^ e * 1000
        else round_half_even (Zpos m * 1000) (2 ^ (- e)) in
      sign s ++ PyStr.digits (thousandths / 1000) ++ PyStr.lit "."
        ++ pad3 (thousandths mod 1000)
  end.

End PyFormat.

(* ===================================================================== *)
(** * The command line of [_cut_wav] *)
(* ===================================================================== *)

Module CutCommand.

(** The [command] of [_cut_wav], [audio] and [destination] being
    [str(audio)] and [str(destination)]. *)
Definition command (audio : str) (start duration : float) (destination : str) : str :=
  PyStr.lit "ffmpeg -y -nostdin -loglevel error -ss " ++ PyFormat.format_3f start
    ++ PyStr.lit " -t " ++ PyFormat.format_3f duration ++ PyStr.lit " "
    ++ PyStr.lit "-i " ++ Shlex.quote audio ++ PyStr.lit " -ar 16000 -ac 1 -f wav "
    ++ Shlex.quote destination.

(** [shlex.split(command)], what [subprocess.run] is given. *)
Definition argv (audio : str) (start duration : float) (destination : str)
  : result (list str) :=
  Shlex.split (command audio start duration destination).

End CutCommand.

(* ===================================================================== *)
(** * app/config.py *)
(* ===================================================================== *)

Module Config.

(** [class WhisperXConfig] *)
Record WhisperXConfig := mkWhisperX {
  model : str;
  language : str;
  batch_size : Z;
  compute_type : option str;
  diarize : bool;
  align_model : str;
  enable_alignment : bool;
  hf_token : option str
}.

(** [class PipelineConfig], all four fields. *)
Record PipelineConfig := mkPipelineConfig {
  whisperx : WhisperXConfig;
  output_root : path;
  speaker_map : gmap str str;
  speaker_db : path
}.

(** [a or b] for an optional path: a [Path] is always true. *)
Definition path_or (a : option path) (b : path) : path := default b a.

(** [a or b] for an optional dict: an empty dict is false. *)
Definition dict_or (a : option (gmap str str)) (b : gmap str str) : gmap str str :=
  match a with
  | Some m => if bool_decide (m = ∅) then b else m
  | None => b
  end.

Definition with_overrides (self : PipelineConfig) (output_root' : option path)
    (speaker_map' : option (gmap str str)) (speaker_db' : option path)
  : PipelineConfig :=
  mkPipelineConfig (whisperx self)
    (path_or output_root' (output_root self))
    (dict_or speaker_map' (speaker_map self))
    (path_or speaker_db' (speaker_db self)).

End Config.

(* ===================================================================== *)
(** * app/whisperx_runner.py *)
(* ===================================================================== *)

Module WhisperxRunner.
Import Config.

(** What the runner finds on the machine. *)
Record CompletedProcess := mkCompleted {
  returncode : Z;
  stdout : str;
  stderr : str
}.

Record Host := mkHost {
  torch : option bool;             (* [import torch] works; then [cuda.is_available()] *)
  environ : gmap str str;          (* [os.environ] *)
  program : list str -> CompletedProcess
                                   (* what running an argument vector ends in *)
}.

(** [v or w] for an optional string: [None] and [""] are false. *)
Definition str_true (v : option str) : bool :=
  match v with Some (_ :: _) => true | _ => false end.

Definition str_or (v : option str) (w : str) : str :=
  match v with Some (c :: s) => c :: s | _ => w end.

(** The dict of [_detect_device_and_precision], as [(device, compute_type)]. *)
Definition _detect_device_and_precision (h : Host) : str * str :=
  match torch h with
  | None => (PyStr.lit "cpu", PyStr.lit "int8")
  | Some cuda =>
      let device := if cuda then PyStr.lit "cuda" else PyStr.lit "cpu" in
      let compute_type :=
        if PyStr.eqb device (PyStr.lit "cuda") then PyStr.lit "float16"
        else PyStr.lit "int8" in
      (device, compute_type)
  end.

Definition HF_TOKEN : str := PyStr.lit "HF_TOKEN".

(** [base_args] at the end of [build_command]. *)
Definition base_args (h : Host) (config : WhisperXConfig)
    (audio_path output_dir : str) (additional_args : option (list str))
  : list str :=
  let detected := _detect_device_and_precision h in
  let device := fst detected in
  let compute_type := str_or (compute_type config) (snd detected) in
  let base_args :=
    [ PyStr.lit "whisperx"; audio_path;
      PyStr.lit "--device"; device;
      PyStr.lit "--model"; model config;
      PyStr.lit "--language"; language config;
      PyStr.lit "--batch_size"; PyStr.of_int (batch_size config);
      PyStr.lit "--compute_type"; compute_type;
      PyStr.lit "--output_dir"; output_dir;
      PyStr.lit "--output_format"; PyStr.lit "all" ] in
  let base_args :=
    if str_true (hf_token config) || str_true (environ h !! HF_TOKEN)
    then base_args ++ [ PyStr.lit "--hf_token";
                        str_or (hf_token config) (default [] (environ h !! HF_TOKEN)) ]
    else base_args in
  let base_args :=
    if diarize config then base_args ++ [PyStr.lit "--diarize"] else base_args in
  let base_args :=
    if enable_alignment config
    then base_args ++ [PyStr.lit "--align_model"; align_model config]
    else base_args in
  match additional_args with
  | Some (a :: more) => base_args ++ a :: more
  | _ => base_args
  end.

(** [audio_path] and [output_dir] are [str(audio_path)] and
    [str(output_dir)]. *)
Definition build_command (h : Host) (config : WhisperXConfig)
    (audio_path output_dir : str) (additional_args : option (list str)) : str :=
  PyStr.join (PyStr.lit " ")
    (map Shlex.quote (base_args h config audio_path output_dir additional_args)).

(** What [run_whisperx] does that can be seen from outside. A child
    process is given its arguments and, when [subprocess.run] is passed
    one, an environment; a call of the logger is recorded with its level
    and its message, the arguments put in. *)
Inductive level := DEBUG | INFO | ERROR.

Inductive action :=
  | MakeDirs (p : str)
  | Log (at_level : level) (message : str)
  | Run (args : list str) (env : option (gmap str str)).

Inductive run_error :=
  | Uncaught (e : exn)
  | WhisperXRuntimeError (code : Z).

Definition run_whisperx (h : Host) (config : WhisperXConfig)
    (audio_path output_dir : str) (env : option (gmap str str))
    (additional_args : option (list str))
  : list action * (run_error + CompletedProcess) :=
  let command := build_command h config audio_path output_dir additional_args in
  let started := [MakeDirs output_dir; Log INFO (PyStr.lit "Running WhisperX: " ++ command)] in
  let process_env := environ h in
  let process_env :=
    match hf_token config with
    | Some (c :: s) => <[HF_TOKEN := c :: s]> process_env
    | _ => process_env
    end in
  let process_env :=
    match env with
    | Some e => if bool_decide (e = ∅) then process_env else e ∪ process_env
    | None => process_env
    end in
  match Shlex.split command with
  | Raise e => (started, inl (Uncaught e))
  | Ok args =>
      let completed := program h args in
      if negb (returncode completed =? 0) then
        ( started
            ++ [ Run args None;
                 Log ERROR (PyStr.lit "WhisperX failed with code "
                              ++ PyStr.of_int (returncode completed));
                 Log DEBUG (PyStr.lit "STDOUT:" ++ [PyStr.LF] ++ stdout completed);
                 Log DEBUG (PyStr.lit "STDERR:" ++ [PyStr.LF] ++ stderr completed) ],
          inl (WhisperXRuntimeError (returncode completed)) )
      else
        ( started
            ++ [ Run args None;
                 Log DEBUG (PyStr.lit "WhisperX stdout:" ++ [PyStr.LF] ++ stdout completed);
                 Log DEBUG (PyStr.lit "WhisperX stderr:" ++ [PyStr.LF] ++ stderr completed) ],
          inr completed )
  end.

End WhisperxRunner.

(* ===================================================================== *)
(** * Further vocabulary *)
(* ===================================================================== *)

Module Behaviour.
Import Postprocess Enrollment.

(** A number: neither NaN nor an infinity. *)
Definition finite (x : float) : bool :=
  match x with
  | S754_zero _ | S754_finite _ _ _ => true
  | S754_infinity _ | S754_nan => false
  end.

(** The times of the segments, in the order rendering formats them. *)
Definition times (segments : list Segment) : list float :=
  flat_map (fun segment => [start segment; end_ segment]) segments.

(** What [int(x)] raises for an [x] that is no number. *)
Definition time_error (x : float) : exn :=
  if PyFloat.is_nan x then ValueError else OverflowError.

(** The files saved in a trace, in order. *)
Definition saved (ev : event) : option path :=
  match ev with
  | NpSave p _ => Some p
  | _ => None
  end.

Definition saves (t : list event) : list path := omap saved t.


(** [ev] belongs to a cut that the trace [t] has: it is the call itself,
    or the run of [ffmpeg] that follows when the duration is positive. *)
Definition from_cut (audio : path) (t : list event) (ev : event) : Prop :=
  exists start end_ dest,
    In (CallCutWav audio start end_ dest) t
    /\ (ev = CallCutWav audio start end_ dest
        \/ (ev = RunFfmpeg audio start
                   (PyFloat.max PyFloat.zero (PyFloat.sub end_ start)) dest
            /\ PyFloat.leb (PyFloat.max PyFloat.zero (PyFloat.sub end_ start))
                 PyFloat.zero = false)).



(** [a or b] for the optional arguments of [with_overrides], as an
    optional value again. *)
Definition either_path (a b : option path) : option path :=
  match a with
  | Some _ => a
  | None => b
  end.

Definition either_dict (a b : option (gmap str str)) : option (gmap str str) :=
  match a with
  | Some m => if bool_decide (m = ∅) then b else a
  | None => b
  end.

(** The speaker codes with a segment that grouping takes, each once, in
    the order in which they first have one. *)
Definition add_new (codes : list str) (code : str) : list str :=
  if bool_decide (code ∈ codes) then codes else codes ++ [code].

Definition speakers (segments : list SegmentDict) : list str :=
  fold_left add_new (map fst (omap Spec.eligible segments)) [].

(** The file of a speaker code. *)
Definition speaker_file (speaker_map : gmap str str) (output_dir : path)
    (code : str) : path :=
  output_dir // npy_name (default code (speaker_map !! code)).

(** The number that a string in the [.3f] format shows, in thousandths:
    an optional minus sign, digits, a point and three digits. *)
Definition thousandths_shown (s : str) : option Z :=
  let neg := match s with
             | c :: _ => (c =? 45)%N
             | [] => false
             end in
  let body := if neg then tail s else s in
  match span_digits body with
  | (c :: whole, [46%N; d1; d2; d3]) =>
      if is_digit d1 && is_digit d2 && is_digit d3
      then Some (cond_Zopp neg (digits_value (c :: whole) * 1000
                                + digits_value [d1; d2; d3]))
      else None
  | _ => None
  end.

(** The embedder raises none of the module's own errors. *)
Definition foreign_errors (w : World) : Prop :=
  forall wav why, embedder w wav <> Raise (EnrollmentError why).

(** No display name of the map is a key that the map sends elsewhere. *)
Definition settled (mapping : gmap str str) : Prop :=
  forall k v, mapping !! k = Some v -> default v (mapping !! v) = v.

End Behaviour.

(* ===================================================================== *)
(** * Further sample inputs *)
(* ===================================================================== *)

Module Cases.
Import Postprocess Enrollment Sample.

(** A world whose embedding network fails on every clip. *)
Definition deaf_world : World :=
  mkWorld true (fun _ _ _ _ => 0) (fun _ => Raise RuntimeError)
    Float32 [PyStr.lit "tmp"].

Definition deaf_run : Pipeline.Run :=
  Pipeline.mkRun (PyStr.lit "20250101_000000") (PyStr.lit "a.mp3") (PyStr.lit "a")
    true true true three_records deaf_world.

(** A run with no speaker map configured. *)
Definition plain_config : Pipeline.PipelineConfig :=
  Pipeline.mkConfig [PyStr.lit "out"] ∅ db_dir.

(** A transcript whose one record starts at infinity. *)
Definition endless_record : json_document :=
  Document (Some
    [ mkDict (Some (PyStr.lit "S")) (Some (PStr (PyStr.lit "hi")))
        (Some (PFloat PyFloat.inf)) (Some (PInt 1)) ]).

Definition endless_run : Pipeline.Run :=
  Pipeline.mkRun (PyStr.lit "20250101_000000") (PyStr.lit "a.mp3") (PyStr.lit "a")
    true true true endless_record quiet_world.

(** Four windows, three of which last three seconds. *)
Definition tied_windows : list window :=
  [ win 0 3; win 10 13; win 30 39; win 20 23 ].

(** Two speakers, and a world in which [ffmpeg] fails on the clip of
    the second. *)
Definition two_speakers : list SegmentDict := [ seg "A" 0 3; seg "B" 10 13 ].

Definition half_world : World :=
  mkWorld true
    (fun _ _ _ destination =>
       if bool_decide (destination = [PyStr.lit "tmp"; PyStr.lit "B_0.wav"]) then 1 else 0)
    (fun _ => Ok [f32 1; f32 3]) Float32 [PyStr.lit "tmp"].

End Cases.

(* ===================================================================== *)
(** * The loader *)
(* ===================================================================== *)

Section ListFacts.
Context {A B : Type}.

(** What holds of the left elements passes to the right ones along a
    pointwise relation. *)
Lemma Forall2_transfer (R : A -> B -> Prop) (P : A -> Prop) (Q : B -> Prop)
    (l : list A) (k : list B) :
  Forall2 R l k -> Forall P l -> (forall a b, P a -> R a b -> Q b) -> Forall Q k.
Proof.
  intros HF. induction HF as [|a b l k Hab HF IH]; intros HP Himp.
  - constructor.
  - inversion HP; subst. constructor; [eapply Himp; eauto | apply IH; auto].
Qed.

Lemma Forall2_weaken (R R' : A -> B -> Prop) (l : list A) (k : list B) :
  Forall2 R l k -> (forall a b, R a b -> R' a b) -> Forall2 R' l k.
Proof.
  intros HF Himp. induction HF; constructor; auto.
Qed.

Lemma Forall2_transfer_l (R R' : A -> B -> Prop) (P : A -> Prop)
    (l : list A) (k : list B) :
  Forall2 R l k -> Forall P l -> (forall a b, P a -> R a b -> R' a b) ->
  Forall2 R' l k.
Proof.
  intros HF. induction HF as [|a b l k Hab HF IH]; intros HP Himp.
  - constructor.
  - inversion HP; subst. constructor; [eapply Himp; eauto | apply IH; auto].
Qed.

End ListFacts.

Section Loader.
Import Postprocess Spec Sample.

Lemma coerced_default (field : option pyval) (x : float) :
  py_float (default (PFloat PyFloat.zero) field) = Ok x -> coerced field x.
Proof.
  destruct field as [v|]; cbn; [tauto | congruence].
Qed.

Lemma blank_false_nonempty (raw : SegmentDict) (t : str) :
  stripped_text raw = Ok t -> blank raw = negb (nonempty t).
Proof.
  unfold blank. intros ->. now destruct t.
Qed.

(** A run of the loop that returns has appended, in order, one segment
    for each record that is not blank. *)
Lemma load_loop_ok (raws : list SegmentDict) :
  forall acc segs,
    load_loop raws acc = Ok segs ->
    exists news, segs = acc ++ news /\ Forall2 loaded_from (kept raws) news.
Proof.
  induction raws as [|raw rest IH]; intros acc segs H; cbn in H.
  - exists []. inversion H; subst. rewrite app_nil_r. split; [reflexivity | constructor].
  - destruct (stripped_text raw) as [t|e] eqn:Et; cbn in H; [|discriminate].
    unfold kept; cbn [List.filter]. rewrite (blank_false_nonempty _ _ Et).
    destruct (nonempty t) eqn:Ene; cbn in H |- *.
    + destruct (py_float (default (PFloat PyFloat.zero) (d_start raw))) as [s|] eqn:Es;
        cbn in H; [|discriminate].
      destruct (py_float (default (PFloat PyFloat.zero) (d_end raw))) as [e|] eqn:Ee;
        cbn in H; [|discriminate].
      destruct (IH _ _ H) as (news & -> & HF).
      exists (mkSegment (default PLACEHOLDER (d_speaker raw)) t s e :: news).
      split; [now rewrite <- app_assoc |].
      constructor; [|exact HF].
      repeat split; cbn; auto using coerced_default.
    + exact (IH _ _ H).
Qed.

(** A run of the loop that returns has handled every record without
    an exception. *)
Lemma load_loop_all_ok (raws : list SegmentDict) :
  forall acc segs,
    load_loop raws acc = Ok segs ->
    Forall (fun raw =>
              exists t, stripped_text raw = Ok t
                /\ (nonempty t = true ->
                    exists x y,
                      py_float (default (PFloat PyFloat.zero) (d_start raw)) = Ok x
                      /\ py_float (default (PFloat PyFloat.zero) (d_end raw)) = Ok y))
           raws.
Proof.
  induction raws as [|raw rest IH]; intros acc segs H; cbn in H; [constructor|].
  destruct (stripped_text raw) as [t|e] eqn:Et; cbn in H; [|discriminate].
  destruct (nonempty t) eqn:Ene; cbn in H.
  - destruct (py_float (default (PFloat PyFloat.zero) (d_start raw))) as [s|] eqn:Es;
      cbn in H; [|discriminate].
    destruct (py_float (default (PFloat PyFloat.zero) (d_end raw))) as [e|] eqn:Ee;
      cbn in H; [|discriminate].
    constructor; [|exact (IH _ _ H)].
    exists t. split; [exact Et|]. intros _. now exists s, e.
  - constructor; [|exact (IH _ _ H)].
    exists t. split; [exact Et|]. intros Hc. congruence.
Qed.

(** A run of the loop that raises does so on one of the records. *)
Lemma load_loop_raise (raws : list SegmentDict) :
  forall acc e,
    load_loop raws acc = Raise e -> Exists (fun raw => record_raises raw e) raws.
Proof.
  induction raws as [|raw rest IH]; intros acc e H; cbn in H; [discriminate|].
  destruct (stripped_text raw) as [t|e'] eqn:Et; cbn in H.
  - pose proof (blank_false_nonempty _ _ Et) as Hb.
    destruct (nonempty t) eqn:Ene; cbn in H, Hb.
    + destruct (py_float (default (PFloat PyFloat.zero) (d_start raw))) as [s|es] eqn:Es;
        cbn in H.
      * destruct (py_float (default (PFloat PyFloat.zero) (d_end raw))) as [x|ee] eqn:Ee;
          cbn in H.
        -- right. exact (IH _ _ H).
        -- left. inversion H; subst. right. split; [exact Hb|]. right.
           rewrite Es. now split.
      * left. inversion H; subst. right. split; [exact Hb|]. now left.
    + right. exact (IH _ _ H).
  - left. left. congruence.
Qed.

Lemma load_segments_ok (data : json_document) (segs : list Segment) :
  load_segments data = Ok segs -> Forall2 loaded_from (kept (records data)) segs.
Proof.
  destruct data as [|[raws|]]; cbn; intros H; [discriminate | |].
  - destruct (load_loop_ok _ _ _ H) as (news & -> & HF). exact HF.
  - inversion H. constructor.
Qed.

Lemma loaded_text_nonempty (raw : SegmentDict) (seg : Segment) :
  blank raw = false -> loaded_from raw seg -> text seg <> [].
Proof.
  unfold blank. intros Hb (Ht & _). rewrite Ht in Hb.
  destruct (text seg); [discriminate | congruence].
Qed.

Lemma kept_blank_false (raws : list SegmentDict) :
  Forall (fun raw => blank raw = false) (kept raws).
Proof.
  apply List.Forall_forall. intros raw Hin.
  apply List.filter_In in Hin. destruct Hin as [_ Hb].
  now apply negb_true_iff in Hb.
Qed.

Lemma kept_length (raws : list SegmentDict) :
  (length (kept raws) + length (List.filter blank raws) = length raws)%nat.
Proof.
  unfold kept. induction raws as [|raw rest IH]; cbn; [reflexivity|].
  destruct (blank raw); cbn; lia.
Qed.

(** C8. Loading skips exactly the records whose trimmed text is empty:
    the result is shorter than the record list by the number of such
    records, its segments are built, in input order, from the other
    records, and none of them has an empty text. *)
Theorem load_segments_skips_blank (data : json_document) (segs : list Segment) :
  load_segments data = Ok segs ->
  (length segs + length (List.filter blank (records data)) = length (records data))%nat
  /\ Forall2 loaded_from (kept (records data)) segs
  /\ Forall (fun seg => text seg <> []) segs.
Proof.
  intros H. pose proof (load_segments_ok _ _ H) as HF.
  split; [|split; [exact HF|]].
  - rewrite <- (Forall2_length _ _ _ HF). apply kept_length.
  - apply (Forall2_transfer loaded_from (fun raw => blank raw = false) _ _ _ HF).
    + apply kept_blank_false.
    + intros raw seg Hb Hl. eapply loaded_text_nonempty; eauto.
Qed.

Lemma three_records_load : load_segments three_records = Ok three_loaded.
Proof. vm_compute. reflexivity. Qed.

Lemma load_segments_skips_blank_witness :
  load_segments three_records = Ok three_loaded
  /\ (length three_loaded + length (List.filter blank (records three_records))
      = length (records three_records))%nat
  /\ Forall2 loaded_from (kept (records three_records)) three_loaded
  /\ Forall (fun seg => text seg <> []) three_loaded.
Proof.
  split; [exact three_records_load |].
  exact (load_segments_skips_blank three_records three_loaded three_records_load).
Defined.

(** ** The speaker label *)

Lemma load_segments_keeps_empty_speaker :
  load_segments (Document (Some [empty_speaker_record]))
  = Ok [mkSegment [] (PyStr.lit "hi") PyFloat.one PyFloat.two].
Proof. vm_compute. reflexivity. Qed.

Lemma placeholder_nonempty : PLACEHOLDER <> [].
Proof. discriminate. Qed.

(** C2, as the code has it. The label of a loaded segment is the
    record's [speaker] value when the key is there, the empty string
    included, and the placeholder ["SPEAKER"] when the key is missing;
    so no loaded label is empty when no record carries an empty one. *)
Theorem load_segments_speaker (data : json_document) (segs : list Segment) :
  load_segments data = Ok segs ->
  Forall2 (fun raw seg =>
             speaker seg = match d_speaker raw with
                           | Some s => s
                           | None => PyStr.lit "SPEAKER"
                           end)
          (kept (records data)) segs
  /\ (Forall (fun raw => d_speaker raw <> Some []) (records data) ->
      Forall (fun seg => speaker seg <> []) segs).
Proof.
  intros H. pose proof (load_segments_ok _ _ H) as HF. split.
  - eapply Forall2_weaken; [exact HF |].
    intros raw seg (_ & Hs & _). rewrite Hs. now destruct (d_speaker raw).
  - intros Hne.
    apply (Forall2_transfer loaded_from (fun raw => d_speaker raw <> Some []) _ _ _ HF).
    + apply List.Forall_forall. intros raw Hin.
      apply List.filter_In in Hin. destruct Hin as [Hin _].
      revert raw Hin. now apply List.Forall_forall.
    + intros raw seg Hraw (_ & Hs & _). rewrite Hs.
      destruct (d_speaker raw) as [s|]; cbn.
      * intros ->. now apply Hraw.
      * apply placeholder_nonempty.
Qed.

Lemma load_segments_speaker_witness :
  load_segments three_records = Ok three_loaded
  /\ Forall2 (fun raw seg =>
                speaker seg = match d_speaker raw with
                              | Some s => s
                              | None => PyStr.lit "SPEAKER"
                              end)
             (kept (records three_records)) three_loaded
  /\ (Forall (fun raw => d_speaker raw <> Some []) (records three_records) ->
      Forall (fun seg => speaker seg <> []) three_loaded).
Proof.
  split; [exact three_records_load |].
  exact (load_segments_speaker three_records three_loaded three_records_load).
Defined.

(** ** [start] and [end] *)

(** A record whose [start] is [null], and one whose [start] is a string
    that is no number: [float()] raises, and so does the loader. *)
Lemma load_segments_raises_on_bad_start :
  load_segments (Document (Some
    [mkDict (Some (PyStr.lit "A")) (Some (PStr (PyStr.lit "hi"))) (Some PNone) None]))
  = Raise TypeError
  /\ load_segments (Document (Some
    [mkDict (Some (PyStr.lit "A")) (Some (PStr (PyStr.lit "hi")))
       (Some (PStr (PyStr.lit "abc"))) None]))
  = Raise ValueError.
Proof. split; vm_compute; reflexivity. Qed.

(** C3, as the code has it. [start] and [end] are 0.0 when the key is
    absent and [float(v)] when it holds [v]. The loader raises when the
    document does not parse, and otherwise exactly on a record it cannot
    handle: one whose text is a non-string that is true, or one with a
    text whose [start] or [end] value [float()] rejects. Such a record
    is not defaulted and not skipped. *)
Theorem load_segments_outcome (data : json_document) :
  load_segments Unparseable = Raise JSONDecodeError
  /\ (forall segs, load_segments data = Ok segs ->
        Forall2 (fun raw seg => coerced (d_start raw) (start seg)
                                /\ coerced (d_end raw) (end_ seg))
                (kept (records data)) segs)
  /\ (forall e, load_segments data = Raise e ->
        (data = Unparseable /\ e = JSONDecodeError)
        \/ Exists (fun raw => record_raises raw e) (records data))
  /\ (forall raw e, In raw (records data) -> record_raises raw e ->
        is_ok (load_segments data) = false).
Proof.
  split; [reflexivity |]. split; [|split].
  - intros segs H. eapply Forall2_weaken; [exact (load_segments_ok _ _ H) |].
    intros raw seg (_ & _ & Hs & He). now split.
  - intros e H. destruct data as [|[raws|]]; cbn in H |- *.
    + left. split; congruence.
    + right. exact (load_loop_raise _ _ _ H).
    + discriminate.
  - intros raw e Hin Hr.
    destruct (load_segments data) as [segs|e'] eqn:H; [exfalso | reflexivity].
    destruct data as [|[raws|]]; cbn in Hin, H; try contradiction.
    pose proof (load_loop_all_ok _ _ _ H) as Hall.
    rewrite List.Forall_forall in Hall. specialize (Hall raw Hin).
    destruct Hall as (t & Ht & Hrest).
    destruct Hr as [Hr | (Hb & Hr)]; [congruence |].
    rewrite (blank_false_nonempty _ _ Ht) in Hb. apply negb_false_iff in Hb.
    destruct (Hrest Hb) as (x & y & Hx & Hy).
    destruct Hr as [Hr | (_ & Hr)]; congruence.
Qed.

End Loader.

(* ===================================================================== *)
(** * The remapper *)
(* ===================================================================== *)

Section Remapper.
Import Postprocess Sample.

Lemma apply_loop_map (segments : list Segment) (mapping : gmap str str) :
  forall mapped,
    apply_loop segments mapping mapped = mapped ++ map (remap mapping) segments.
Proof.
  induction segments as [|segment rest IH]; intros mapped; cbn.
  - now rewrite app_nil_r.
  - rewrite IH, <- app_assoc. reflexivity.
Qed.

Lemma apply_speaker_map_map (segments : list Segment) (mapping : gmap str str) :
  apply_speaker_map segments mapping = map (remap mapping) segments.
Proof. apply apply_loop_map. Qed.

(** The loop over a store: it only appends, one new object per input,
    at the addresses that follow the old ones. *)
Lemma apply_loop_store_spec (mapping : gmap str str) (segments : list addr) :
  forall (h : store) (mapped : list addr),
    Forall (fun a => (a < length h)%nat) segments ->
    exists news,
      apply_loop_store h segments mapping mapped
      = Some (h ++ news, mapped ++ seq (length h) (length segments))
      /\ Forall2 (fun a s' => exists s, h !! a = Some s /\ s' = remap mapping s)
                 segments news.
Proof.
  induction segments as [|a rest IH]; intros h mapped Hvalid;
    cbn [apply_loop_store].
  - exists []. cbn. rewrite !app_nil_r. split; [reflexivity | constructor].
  - inversion Hvalid as [|? ? Ha Hrest]; subst.
    destruct (lookup_lt_is_Some_2 h a Ha) as [s Hs]. rewrite Hs.
    cbn [mbind option_bind alloc].
    destruct (IH (h ++ [remap mapping s]) (mapped ++ [length h])) as (news & Heq & HF).
    { eapply Forall_impl; [exact Hrest |]. cbn. intros b Hb.
      rewrite length_app. cbn. lia. }
    exists (remap mapping s :: news). split.
    + rewrite Heq. rewrite length_app. cbn.
      rewrite <- !app_assoc. cbn. rewrite Nat.add_1_r. reflexivity.
    + constructor; [now exists s |].
      eapply Forall2_transfer_l; [exact HF | exact Hrest |].
      cbn. intros b s' Hb (s0 & Hs0 & ->). exists s0. split; [|reflexivity].
      now rewrite lookup_app_l in Hs0.
Qed.

Lemma Forall2_new_objects {A} (R : A -> Segment -> Prop) (news : list Segment) :
  forall (base : store) (l : list A),
    Forall2 R l news ->
    Forall2 (fun a a' => exists s', (base ++ news) !! a' = Some s' /\ R a s')
            l (seq (length base) (length l)).
Proof.
  induction news as [|s' news IH]; intros base l HF; inversion HF; subst; cbn.
  - constructor.
  - constructor.
    + exists s'. split; [apply list_lookup_middle; reflexivity | assumption].
    + specialize (IH (base ++ [s']) _ H3).
      rewrite length_app in IH. cbn in IH. rewrite Nat.add_1_r in IH.
      now rewrite <- app_assoc in IH.
Qed.

Lemma remapped_values (mapping : gmap str str) (l : list Segment) :
  forall (pre : store) (news : list Segment),
    Forall2 (fun a s' => exists s, (pre ++ l) !! a = Some s /\ s' = remap mapping s)
            (seq (length pre) (length l)) news ->
    news = map (remap mapping) l.
Proof.
  induction l as [|s l IH]; intros pre news HF; cbn in HF; inversion HF; subst.
  - reflexivity.
  - destruct H1 as (s0 & Hs0 & ->).
    rewrite list_lookup_middle in Hs0 by reflexivity. inversion Hs0; subst.
    cbn. f_equal. apply (IH (pre ++ [s0])).
    rewrite length_app. cbn. rewrite Nat.add_1_r.
    now rewrite <- app_assoc.
Qed.

(** C5. The remapper is a pure substitution. Over a store of [Segment]
    objects it returns as many addresses as it was given, in the same
    order; every object that existed before is unchanged; the addresses
    returned are those of new objects; and each new object has the text,
    start and end of the one it was made from and the speaker
    [mapping.get(speaker, speaker)]. *)
Theorem apply_speaker_map_substitution (h : store) (segments : list addr)
    (mapping : gmap str str) :
  Forall (fun a => (a < length h)%nat) segments ->
  exists h' mapped,
    apply_speaker_map_store h segments mapping = Some (h', mapped)
    /\ length mapped = length segments
    /\ (forall a, (a < length h)%nat -> h' !! a = h !! a)
    /\ Forall (fun a' => (length h <= a')%nat) mapped
    /\ Forall2 (fun a a' =>
                  exists s s', h !! a = Some s /\ h' !! a' = Some s'
                    /\ text s' = text s /\ start s' = start s /\ end_ s' = end_ s
                    /\ speaker s' = default (speaker s) (mapping !! speaker s))
               segments mapped.
Proof.
  intros Hvalid.
  destruct (apply_loop_store_spec mapping segments h [] Hvalid) as (news & Heq & HF).
  exists (h ++ news), (seq (length h) (length segments)).
  split; [exact Heq |]. split; [apply length_seq |]. split; [|split].
  - intros a Ha. now apply lookup_app_l.
  - apply List.Forall_forall. intros a' Hin. apply List.in_seq in Hin. lia.
  - eapply Forall2_weaken; [exact (Forall2_new_objects _ news h segments HF) |].
    cbn. intros a a' (s' & Hs' & s & Hs & ->).
    exists s, (remap mapping s). repeat split; assumption.
Qed.

(** Run over all the objects of a store, the loop allocates exactly the
    values that [apply_speaker_map] computes. *)
Lemma apply_speaker_map_store_values (h : store) (mapping : gmap str str) :
  apply_speaker_map_store h (seq 0 (length h)) mapping
  = Some (h ++ apply_speaker_map h mapping, seq (length h) (length h)).
Proof.
  destruct (apply_loop_store_spec mapping (seq 0 (length h)) h []) as (news & Heq & HF).
  { apply List.Forall_forall. intros a Hin. apply List.in_seq in Hin. lia. }
  unfold apply_speaker_map_store. rewrite Heq, length_seq.
  rewrite (remapped_values mapping h [] news HF), apply_speaker_map_map.
  reflexivity.
Qed.

Lemma apply_speaker_map_substitution_witness :
  Forall (fun a => (a < length three_loaded)%nat) [1%nat; 0%nat]
  /\ exists h' mapped,
    apply_speaker_map_store three_loaded [1%nat; 0%nat] alice_map = Some (h', mapped)
    /\ length mapped = 2%nat
    /\ (forall a, (a < length three_loaded)%nat -> h' !! a = three_loaded !! a)
    /\ Forall (fun a' => (length three_loaded <= a')%nat) mapped
    /\ Forall2 (fun a a' =>
                  exists s s', three_loaded !! a = Some s /\ h' !! a' = Some s'
                    /\ text s' = text s /\ start s' = start s /\ end_ s' = end_ s
                    /\ speaker s' = default (speaker s) (alice_map !! speaker s))
               [1%nat; 0%nat] mapped.
Proof.
  assert (Hvalid : Forall (fun a => (a < length three_loaded)%nat) [1%nat; 0%nat]).
  { repeat constructor. }
  split; [exact Hvalid |].
  exact (apply_speaker_map_substitution three_loaded [1%nat; 0%nat] alice_map Hvalid).
Defined.

End Remapper.

(* ===================================================================== *)
(** * The order of floats *)
(* ===================================================================== *)

Section FloatOrder.
Import PyFloat.

Lemma SFcompare_swap (a b : float) :
  SFcompare b a = option_map CompOpp (SFcompare a b).
Proof.
  destruct a as [sa|sa| |sa ma ea], b as [sb|sb| |sb mb eb]; cbn;
    try reflexivity;
    repeat match goal with s : bool |- _ => destruct s end; cbn; try reflexivity.
  all: change (Pos.compare_cont Eq) with Pos.compare.
  all: rewrite (Z.compare_antisym ea eb), (Pos.compare_antisym ma mb).
  all: destruct (ea ?= eb)%Z; cbn; try reflexivity.
  all: now rewrite CompOpp_involutive.
Qed.

Lemma SFcompare_not_nan (a b : float) :
  is_nan a = false -> is_nan b = false -> exists c, SFcompare a b = Some c.
Proof.
  destruct a, b; cbn; intros; try discriminate; eauto.
Qed.

(** Numbers are totally ordered: what is not less is at least as large. *)
Lemma ltb_false_leb (a b : float) :
  is_nan a = false -> is_nan b = false -> ltb a b = false -> leb b a = true.
Proof.
  intros Ha Hb. unfold ltb, leb, SFltb, SFleb. rewrite (SFcompare_swap a b).
  destruct (SFcompare_not_nan a b Ha Hb) as [c ->]. now destruct c.
Qed.



(** A number below another is not equal to what the other equals. *)
Lemma ltb_eqb_apart (a b k : float) :
  ltb a b = true -> SFeqb a k = true -> SFeqb b k = false.
Proof.
  unfold ltb, SFltb, SFeqb.
  destruct a as [sa|sa| |sa ma ea], b as [sb|sb| |sb mb eb], k as [sk|sk| |sk mk ek]; cbn;
    try discriminate; try reflexivity;
    repeat match goal with s : bool |- _ => destruct s end; cbn;
    try discriminate; try reflexivity.
  all: change (Pos.compare_cont Eq) with Pos.compare.
  all: destruct (Z.compare_spec ea eb), (Z.compare_spec ea ek), (Z.compare_spec eb ek);
       subst; cbn; try discriminate; try reflexivity; try lia.
  all: destruct (Pos.compare_spec ma mb), (Pos.compare_spec ma mk), (Pos.compare_spec mb mk);
       subst; cbn; try discriminate; try reflexivity; try lia.
Qed.

Lemma leb_not_nan (a b : float) : leb a b = true -> is_nan a = false /\ is_nan b = false.
Proof.
  destruct a, b; cbn; intros; try discriminate; split; reflexivity.
Qed.

(** From two seconds up, a duration is positive: [max(0.0, d)] is [d]
    and [d <= 0] is false. *)
Lemma leb_two_positive (d : float) :
  leb two d = true -> max zero d = d /\ leb (max zero d) zero = false.
Proof.
  destruct d as [s|s| |s m e]; cbn; try discriminate;
    destruct s; cbn; intros H; try discriminate; split; reflexivity.
Qed.

(** A NaN duration: [max(0.0, d)] is 0.0, and [d <= 0] holds of it. *)
Lemma nan_duration_rejected (d : float) :
  is_nan d = true -> ltb d two = false /\ leb (max zero d) zero = true.
Proof.
  destruct d; intros H; cbn in H; try discriminate H. split; reflexivity.
Qed.

End FloatOrder.
(* ===================================================================== *)
(** * The aggregator: grouping, ordering, selection *)
(* ===================================================================== *)

Section Aggregator.
Import Postprocess Enrollment Spec Sample.

Lemma insert_desc_perm (x : window) (l : list window) :
  insert_desc x l ≡ₚ x :: l.
Proof.
  induction l as [|y l IH]; cbn; [reflexivity|].
  destruct (PyFloat.ltb (duration x) (duration y)); [|reflexivity].
  rewrite IH. apply Permutation_swap.
Qed.

Lemma sort_desc_perm (windows : list window) : sort_desc windows ≡ₚ windows.
Proof.
  induction windows as [|x l IH]; cbn; [reflexivity|].
  rewrite insert_desc_perm. now rewrite IH.
Qed.



(** The sort is stable: windows of equal duration keep their order. *)
Lemma insert_desc_stable (k : float) (x : window) (l : list window) :
  List.filter (fun w => SFeqb (duration w) k) (insert_desc x l)
  = List.filter (fun w => SFeqb (duration w) k) (x :: l).
Proof.
  induction l as [|y l IH]; cbn [insert_desc]; [reflexivity|].
  destruct (PyFloat.ltb (duration x) (duration y)) eqn:Hlt; [|reflexivity].
  cbn [List.filter] in *. rewrite IH.
  destruct (SFeqb (duration x) k) eqn:Hx; [|reflexivity].
  now rewrite (ltb_eqb_apart _ _ _ Hlt Hx).
Qed.

Lemma sort_desc_stable (k : float) (windows : list window) :
  List.filter (fun w => SFeqb (duration w) k) (sort_desc windows)
  = List.filter (fun w => SFeqb (duration w) k) windows.
Proof.
  induction windows as [|x l IH]; cbn [sort_desc foldr]; [reflexivity|].
  fold (sort_desc l). rewrite insert_desc_stable. cbn [List.filter]. now rewrite IH.
Qed.


Lemma select_take (windows : list window) (cap : Z) :
  0 <= cap -> select windows cap = take (Z.to_nat cap) (sort_desc windows).
Proof.
  intros Hcap. unfold select, slice_to.
  now destruct (Z.leb_spec 0 cap); [|lia].
Qed.

(** ** Grouping *)

Lemma windows_of_setdefault_append (grouped : list (str * list window))
    (speaker q : str) (item : window) :
  windows_of q (setdefault_append grouped speaker item)
  = windows_of q grouped ++ (if PyStr.eqb speaker q then [item] else []).
Proof.
  unfold PyStr.eqb.
  induction grouped as [|[k ws] rest IH]; cbn; unfold PyStr.eqb.
  - now destruct (bool_decide (speaker = q)).
  - destruct (bool_decide_reflect (k = speaker)) as [-> | Hne]; cbn; unfold PyStr.eqb.
    + destruct (bool_decide (speaker = q)); [reflexivity | now rewrite app_nil_r].
    + destruct (bool_decide_reflect (k = q)) as [-> | Hkq]; [|exact IH].
      destruct (bool_decide_reflect (speaker = q)) as [-> | _];
        [contradiction | now rewrite app_nil_r].
Qed.

Lemma in_keys_setdefault_append (grouped : list (str * list window))
    (speaker q : str) (item : window) :
  In q (map fst (setdefault_append grouped speaker item))
  <-> In q (map fst grouped) \/ q = speaker.
Proof.
  induction grouped as [|[k ws] rest IH]; cbn; unfold PyStr.eqb.
  - intuition congruence.
  - destruct (bool_decide_reflect (k = speaker)) as [-> | Hne]; cbn.
    + intuition congruence.
    + rewrite IH. tauto.
Qed.

Lemma nodup_keys_setdefault_append (grouped : list (str * list window))
    (speaker : str) (item : window) :
  List.NoDup (map fst grouped) ->
  List.NoDup (map fst (setdefault_append grouped speaker item)).
Proof.
  induction grouped as [|[k ws] rest IH]; cbn; unfold PyStr.eqb; intros Hnd.
  - repeat constructor. intros [].
  - inversion Hnd as [|? ? Hnin Hnd']; subst.
    destruct (bool_decide_reflect (k = speaker)) as [-> | Hne]; cbn.
    + now constructor.
    + constructor; [|now apply IH].
      rewrite in_keys_setdefault_append. tauto.
Qed.

(** What the loop files under each key, and that it files each key once. *)
Lemma group_loop_spec (segments : list SegmentDict) :
  forall grouped0 grouped,
    group_loop segments grouped0 = Ok grouped ->
    (forall q, windows_of q grouped = windows_of q grouped0 ++ windows_for q segments)
    /\ (List.NoDup (map fst grouped0) -> List.NoDup (map fst grouped)).
Proof.
  unfold windows_for.
  induction segments as [|segment rest IH]; intros g0 g H; cbn in H.
  - inversion H; subst. split; [|tauto]. intros q. cbn. now rewrite app_nil_r.
  - cbn [omap list_omap]. unfold eligible at 1.
    destruct (d_speaker segment) as [[|c sp]|] eqn:Hsp; cbn; try exact (IH _ _ H).
    destruct (py_float (default (PFloat PyFloat.zero) (d_start segment))) as [a|] eqn:Ha;
      cbn in H |- *; [|discriminate].
    destruct (py_float (default (PFloat PyFloat.zero) (d_end segment))) as [b|] eqn:Hb;
      cbn in H |- *; [|discriminate].
    destruct (PyFloat.ltb (PyFloat.sub b a) PyFloat.two) eqn:Hlt; cbn;
      [exact (IH _ _ H) |].
    destruct (IH _ _ H) as [Hw Hnd]. split.
    + intros q. rewrite Hw, windows_of_setdefault_append, <- app_assoc.
      f_equal. now destruct (PyStr.eqb (c :: sp) q).
    + intros Hnd0. apply Hnd. now apply nodup_keys_setdefault_append.
Qed.

Lemma windows_of_unique (grouped : list (str * list window)) (k : str)
    (windows : list window) :
  List.NoDup (map fst grouped) -> In (k, windows) grouped ->
  windows_of k grouped = windows.
Proof.
  induction grouped as [|[k' ws] rest IH]; cbn; intros Hnd Hin; [contradiction|].
  inversion Hnd as [|? ? Hnin Hnd']; subst. unfold PyStr.eqb.
  destruct Hin as [Heq | Hin].
  - inversion Heq; subst. now rewrite bool_decide_eq_true_2.
  - rewrite bool_decide_eq_false_2; [now apply IH |].
    intros ->. apply Hnin. apply List.in_map_iff. now exists (k, windows).
Qed.

Lemma eligible_long_enough (segment : SegmentDict) (k : str) (w : window) :
  eligible segment = Some (k, w) -> PyFloat.ltb (duration w) PyFloat.two = false.
Proof.
  unfold eligible, duration.
  destruct (d_speaker segment) as [[|c sp]|]; try discriminate.
  destruct (py_float _) as [a|]; [|discriminate].
  destruct (py_float _) as [b|]; [|discriminate].
  destruct (PyFloat.ltb (PyFloat.sub b a) PyFloat.two) eqn:Hlt; [discriminate|].
  intros H. inversion H; subst. exact Hlt.
Qed.

Lemma windows_for_long_enough (k : str) (segments : list SegmentDict) :
  Forall (fun w => PyFloat.ltb (duration w) PyFloat.two = false)
         (windows_for k segments).
Proof.
  unfold windows_for. apply List.Forall_forall. intros w Hin.
  apply List.in_map_iff in Hin. destruct Hin as ([k' w'] & <- & Hin).
  apply List.filter_In in Hin. destruct Hin as [Hin _].
  apply list_elem_of_In in Hin. apply list_elem_of_omap in Hin.
  destruct Hin as (segment & _ & He). cbn. eapply eligible_long_enough; eauto.
Qed.

Lemma group_loop_windows (segments : list SegmentDict)
    (grouped : list (str * list window)) (k : str) (windows : list window) :
  group_loop segments [] = Ok grouped -> In (k, windows) grouped ->
  windows = windows_for k segments.
Proof.
  intros H Hin. destruct (group_loop_spec _ _ _ H) as [Hw Hnd].
  rewrite <- (windows_of_unique grouped k windows); [| apply Hnd; constructor | exact Hin].
  now rewrite Hw.
Qed.

(** ** What reaches the cut step *)

Lemma cut_calls_app (t1 t2 : list event) :
  cut_calls (t1 ++ t2) = cut_calls t1 ++ cut_calls t2.
Proof. apply omap_app. Qed.

Lemma io_bind_trace {A B} (m : io A) (f : A -> io B) :
  trace (m ≫= f)
  = trace m ++ match outcome m with Ok a => trace (f a) | Raise _ => [] end.
Proof.
  destruct m as [t [a|e]]; cbn; [|now rewrite app_nil_r].
  now destruct (f a).
Qed.

Lemma io_bind_outcome {A B} (m : io A) (f : A -> io B) :
  outcome (m ≫= f)
  = match outcome m with Ok a => outcome (f a) | Raise e => Raise e end.
Proof.
  destruct m as [t [a|e]]; cbn; [|reflexivity].
  now destruct (f a).
Qed.

(** The three ways a cut ends. *)
Lemma cut_wav_cases (w : World) (audio : path) (start end_ : float) (dest : path) :
  let d := PyFloat.max PyFloat.zero (PyFloat.sub end_ start) in
  _cut_wav w audio start end_ dest
  = if PyFloat.leb d PyFloat.zero then
      ([CallCutWav audio start end_ dest], Raise (EnrollmentError NonPositiveDuration))
    else if ffmpeg w audio start d dest =? 0 then
      ([CallCutWav audio start end_ dest; RunFfmpeg audio start d dest], Ok tt)
    else
      ([CallCutWav audio start end_ dest; RunFfmpeg audio start d dest],
       Raise (EnrollmentError (FfmpegFailed (ffmpeg w audio start d dest)))).
Proof.
  cbv zeta. unfold _cut_wav.
  cbn [mbind io_bind emit].
  destruct (PyFloat.leb _ PyFloat.zero); cbn; [reflexivity|].
  destruct (ffmpeg w audio start _ dest =? 0); reflexivity.
Qed.

Lemma cut_wav_calls (w : World) (audio : path) (start end_ : float) (dest : path) :
  cut_calls (trace (_cut_wav w audio start end_ dest)) = [(start, end_)].
Proof.
  rewrite cut_wav_cases. cbv zeta.
  destruct (PyFloat.leb _ PyFloat.zero); [reflexivity|].
  destruct (_ =? 0); reflexivity.
Qed.

(** One turn of the inner loop. *)
Lemma embed_loop_step (w : World) (audio : path) (code : str) (idx : nat)
    (start end_ : float) (rest : list window) (acc : list (list float)) :
  let wav := temp_dir w // wav_name code idx in
  embed_loop w audio code idx ((start, end_) :: rest) acc
  = match outcome (_cut_wav w audio start end_ wav), embedder w wav with
    | Raise e, _ => (trace (_cut_wav w audio start end_ wav), Raise e)
    | Ok _, Raise e => (trace (_cut_wav w audio start end_ wav) ++ [Embed wav], Raise e)
    | Ok _, Ok v =>
        (trace (_cut_wav w audio start end_ wav) ++ Embed wav
           :: trace (embed_loop w audio code (S idx) rest (acc ++ [v])),
         outcome (embed_loop w audio code (S idx) rest (acc ++ [v])))
    end.
Proof.
  cbv zeta. cbn [embed_loop].
  destruct (_cut_wav w audio start end_ _) as [t [[]|e]]; cbn; [|reflexivity].
  destruct (embedder w _) as [v|e]; cbn; [|reflexivity].
  destruct (embed_loop w audio code (S idx) rest (acc ++ [v])) as [t' r].
  reflexivity.
Qed.

(** The inner loop cuts the selected windows in order, and stops at the
    first window whose cut or embedding raises. *)
Lemma embed_loop_calls (w : World) (audio : path) (code : str)
    (selected : list window) :
  forall idx acc,
    cut_calls (trace (embed_loop w audio code idx selected acc)) `prefix_of` selected
    /\ (is_ok (outcome (embed_loop w audio code idx selected acc)) = true ->
        cut_calls (trace (embed_loop w audio code idx selected acc)) = selected).
Proof.
  induction selected as [|[start end_] rest IH]; intros idx acc.
  - cbn. split; [apply prefix_nil | reflexivity].
  - rewrite embed_loop_step. cbv zeta.
    pose proof (cut_wav_calls w audio start end_ (temp_dir w // wav_name code idx)) as Hc.
    destruct (outcome (_cut_wav w audio start end_ _)) as [[]|e].
    2: { cbn [trace outcome fst snd is_ok]. rewrite Hc.
         split; [|discriminate]. apply prefix_cons, prefix_nil. }
    destruct (embedder w _) as [v|e]; cbn [trace outcome fst snd is_ok].
    2: { rewrite cut_calls_app, Hc. cbn.
         split; [|discriminate]. apply prefix_cons, prefix_nil. }
    rewrite cut_calls_app, Hc.
    change (cut_calls (Embed ?p :: ?t)) with (cut_calls t). cbn [app].
    destruct (IH (S idx) (acc ++ [v])) as [Hp Heq].
    split; [now apply prefix_cons |].
    intros Hok. now rewrite (Heq Hok).
Qed.


Lemma slice_to_In {A} (l : list A) (k : Z) (x : A) :
  In x (slice_to l k) -> In x l.
Proof.
  unfold slice_to. intros Hin.
  destruct (0 <=? k);
    match type of Hin with In _ (take ?n _) =>
      rewrite <- (take_drop n l); apply List.in_or_app; now left
    end.
Qed.

Lemma select_In (windows : list window) (cap : Z) (x : window) :
  In x (select windows cap) -> In x windows.
Proof.
  intros Hin. apply slice_to_In in Hin.
  apply list_elem_of_In. rewrite <- (sort_desc_perm windows).
  now apply list_elem_of_In.
Qed.

(** ** Every call of the cut step, and where it comes from *)

Lemma cut_calls_In (t : list event) (a : path) (start end_ : float) (dest : path) :
  In (CallCutWav a start end_ dest) t -> In (start, end_) (cut_calls t).
Proof.
  intros Hin. apply list_elem_of_In. apply list_elem_of_omap.
  exists (CallCutWav a start end_ dest). split; [now apply list_elem_of_In | reflexivity].
Qed.

Lemma prefix_In {A} (l1 l2 : list A) (x : A) :
  l1 `prefix_of` l2 -> In x l1 -> In x l2.
Proof.
  intros [k ->] Hin. apply List.in_or_app. now left.
Qed.

(** The body of the outer loop, by how the inner loop ends. *)
Lemma enroll_one_step (w : World) (audio : path) (speaker_map : gmap str str)
    (output_dir : path) (cap : Z) (code : str) (windows : list window)
    (created : list path) :
  let inner := embed_loop w audio code 0 (select windows cap) [] in
  let output_path := output_dir // npy_name (default code (speaker_map !! code)) in
  enroll_one w audio speaker_map output_dir cap code windows created
  = match outcome inner with
    | Raise e => (trace inner, Raise e)
    | Ok [] => (trace inner, Ok created)
    | Ok embeddings =>
        match Numpy.mean_axis0 (embedding_dtype w) embeddings with
        | Raise e => (trace inner, Raise e)
        | Ok mean =>
            (trace inner
               ++ [NpSave output_path
                     (Numpy.astype_float32 (mkArray (embedding_dtype w) mean))],
             Ok (created ++ [output_path]))
        end
    end.
Proof.
  cbv zeta. unfold enroll_one.
  destruct (embed_loop w audio code 0 (select windows cap) []) as [t [[|v vs]|e]];
    cbn [mbind io_bind trace outcome fst snd mret io_ret];
    [now rewrite app_nil_r | | reflexivity].
  destruct (Numpy.mean_axis0 (embedding_dtype w) (v :: vs)) as [mean|e];
    cbn; [reflexivity | now rewrite app_nil_r].
Qed.

Lemma enroll_one_calls (w : World) (audio : path) (speaker_map : gmap str str)
    (output_dir : path) (cap : Z) (code : str) (windows : list window)
    (created : list path) :
  cut_calls (trace (enroll_one w audio speaker_map output_dir cap code windows created))
  = cut_calls (trace (embed_loop w audio code 0 (select windows cap) [])).
Proof.
  rewrite enroll_one_step. cbv zeta.
  destruct (outcome (embed_loop w audio code 0 (select windows cap) []))
    as [[|v vs]|e]; try reflexivity.
  destruct (Numpy.mean_axis0 _ _); [|reflexivity].
  cbn [trace fst]. rewrite cut_calls_app. cbn. now rewrite app_nil_r.
Qed.

Lemma enroll_loop_calls (w : World) (audio : path) (speaker_map : gmap str str)
    (output_dir : path) (cap : Z) (grouped : list (str * list window)) :
  forall created x,
    In x (cut_calls (trace (enroll_loop w audio speaker_map output_dir cap grouped created))) ->
    exists code windows, In (code, windows) grouped /\ In x (select windows cap).
Proof.
  induction grouped as [|[code windows] rest IH]; intros created x; cbn [enroll_loop].
  - cbn. contradiction.
  - rewrite io_bind_trace, cut_calls_app, enroll_one_calls. intros Hin.
    apply List.in_app_or in Hin. destruct Hin as [Hin | Hin].
    + exists code, windows. split; [now left |].
      eapply prefix_In; [|exact Hin]. apply embed_loop_calls.
    + destruct (outcome (enroll_one _ _ _ _ _ _ _ _)) as [created'|e];
        [|contradiction].
      destruct (IH _ _ Hin) as (c & ws & Hg & Hs). exists c, ws. split; [now right | exact Hs].
Qed.

Lemma enroll_speakers_calls (w : World) (audio : path) (segments : list SegmentDict)
    (speaker_map : gmap str str) (output_dir : path) (cap : Z) (x : window) :
  In x (cut_calls (trace (enroll_speakers w audio segments speaker_map output_dir cap))) ->
  exists grouped code windows,
    group_loop segments [] = Ok grouped
    /\ In (code, windows) grouped /\ In x (select windows cap).
Proof.
  unfold enroll_speakers, _load_embedding_model.
  destruct (model_available w); cbn [mbind io_bind mret io_ret raise emit lift];
    [|cbn; contradiction].
  destruct (group_loop segments []) as [grouped|e]; cbn; [|contradiction].
  destruct (enroll_loop w audio speaker_map output_dir cap grouped []) as [t r] eqn:He.
  cbn. rewrite cut_calls_app. cbn. rewrite app_nil_r. intros Hin.
  exists grouped. pose proof (enroll_loop_calls w audio speaker_map output_dir cap grouped [] x) as H.
  rewrite He in H. destruct (H Hin) as (c & ws & ? & ?). now exists c, ws.
Qed.




Lemma nine_segments_grouped :
  group_loop nine_segments [] = Ok [(PyStr.lit "A", seven_windows)].
Proof. vm_compute. reflexivity. Qed.


(** Seven eligible windows and a cap of five: the five longest, longest
    first. *)
Lemma select_five_of_seven : select seven_windows 5 = five_longest.
Proof. vm_compute. reflexivity. Qed.


(** C10, as the code has it. Every window that [enroll_speakers] hands to
    [_cut_wav] passed the filter: [end - start < 2.0] is false of it.
    When [end - start] is a number that means [end - start >= 2.0], and
    the non-positive-duration branch is not taken. When it is NaN the
    branch is taken: within [enroll_speakers] it fires for exactly the
    windows whose duration is NaN. *)
Theorem cut_windows_pass_filter (w : World) (audio : path)
    (segments : list SegmentDict) (speaker_map : gmap str str)
    (output_dir : path) (cap : Z)
    (a : path) (start end_ : float) (dest : path) :
  In (CallCutWav a start end_ dest)
     (trace (enroll_speakers w audio segments speaker_map output_dir cap)) ->
  let d := PyFloat.sub end_ start in
  PyFloat.ltb d PyFloat.two = false
  /\ (PyFloat.is_nan d = false -> PyFloat.leb PyFloat.two d = true)
  /\ PyFloat.leb (PyFloat.max PyFloat.zero d) PyFloat.zero = PyFloat.is_nan d.
Proof.
  intros Hin d. apply cut_calls_In in Hin.
  destruct (enroll_speakers_calls _ _ _ _ _ _ _ Hin) as (grouped & code & ws & Hg & Hgin & Hsel).
  apply select_In in Hsel.
  pose proof (windows_for_long_enough code segments) as Hlong.
  rewrite <- (group_loop_windows _ _ _ _ Hg Hgin) in Hlong.
  rewrite List.Forall_forall in Hlong. specialize (Hlong _ Hsel).
  change (PyFloat.ltb d PyFloat.two = false) in Hlong.
  split; [exact Hlong |].
  assert (Hnum : PyFloat.is_nan d = false -> PyFloat.leb PyFloat.two d = true).
  { intros Hn. now apply ltb_false_leb. }
  split; [exact Hnum |].
  destruct (PyFloat.is_nan d) eqn:Hn.
  - now apply nan_duration_rejected.
  - now apply leb_two_positive, Hnum.
Qed.

(** The window of a segment that starts and ends at infinity has a NaN
    duration; it passes the filter, reaches [_cut_wav], and the branch
    for a non-positive duration raises. *)
Lemma endless_segment_reaches_cut :
  trace (enroll_speakers quiet_world audio_file [endless_segment] alice_map db_dir 5)
  = [ Mkdir db_dir;
      Mkdir (temp_dir quiet_world);
      CallCutWav audio_file PyFloat.inf PyFloat.inf
        (temp_dir quiet_world // PyStr.lit "S_0.wav");
      RemoveTree (temp_dir quiet_world) ]
  /\ outcome (enroll_speakers quiet_world audio_file [endless_segment] alice_map db_dir 5)
     = Raise (EnrollmentError NonPositiveDuration)
  /\ PyFloat.leb PyFloat.two (PyFloat.sub PyFloat.inf PyFloat.inf) = false.
Proof. vm_compute. repeat split. Qed.

Lemma cut_windows_pass_filter_witness :
  let d := PyFloat.sub (snd (win 30 39)) (fst (win 30 39)) in
  PyFloat.ltb d PyFloat.two = false
  /\ (PyFloat.is_nan d = false -> PyFloat.leb PyFloat.two d = true)
  /\ PyFloat.leb (PyFloat.max PyFloat.zero d) PyFloat.zero = PyFloat.is_nan d.
Proof.
  refine (cut_windows_pass_filter quiet_world audio_file nine_segments alice_map
            db_dir 5 audio_file (fst (win 30 39)) (snd (win 30 39))
            (temp_dir quiet_world // PyStr.lit "A_0.wav") _).
  vm_compute. right. right. left. reflexivity.
Defined.

End Aggregator.

(* ===================================================================== *)
(** * The renderer *)
(* ===================================================================== *)

Section Renderer.
Import Postprocess Spec Sample.

(** The digits written for [n] read back as [n]: the fuel of
    [PyStr.digits] is enough for every digit. *)
Lemma digits_fuel_value (fuel : nat) :
  forall n acc, 0 <= n < 2 ^ Z.of_nat fuel ->
    digits_value (PyStr.digits_fuel fuel n acc)
    = fold_left (fun a c => 10 * a + (Z.of_N c - 48)) acc n.
Proof.
  unfold digits_value.
  induction fuel as [|fuel IH]; intros n acc Hn.
  - cbn in Hn. now replace n with 0 by lia.
  - cbn [PyStr.digits_fuel].
    assert (Hd : Z.of_N (PyStr.digit (n mod 10)) - 48 = n mod 10).
    { unfold PyStr.digit. pose proof (Z.mod_pos_bound n 10). lia. }
    destruct (Z.ltb_spec n 10) as [Hlt|Hge].
    + cbn [fold_left]. rewrite Hd, Z.mod_small by lia. f_equal.
    + rewrite IH.
      * cbn [fold_left]. rewrite Hd. f_equal.
        pose proof (Z.div_mod n 10). lia.
      * rewrite Nat2Z.inj_succ, Z.pow_succ_r in Hn by lia.
        split; [apply Z.div_pos; lia|].
        apply Z.div_lt_upper_bound; lia.
Qed.

Lemma digits_value_digits (n : Z) : 0 <= n -> digits_value (PyStr.digits n) = n.
Proof.
  intros Hn. unfold PyStr.digits. rewrite digits_fuel_value; [reflexivity|].
  split; [exact Hn|].
  rewrite Nat2Z.inj_succ, Z2Nat.id by apply Z.log2_nonneg.
  destruct (Z.eq_dec n 0) as [->|Hz]; [reflexivity|].
  apply Z.log2_spec. lia.
Qed.

Lemma format_02d_below_100 (k : Z) :
  0 <= k < 100 -> PyStr.format_02d k = two_digits k.
Proof.
  intros Hk.
  assert (Hall : forallb (fun i => PyStr.eqb (PyStr.format_02d (Z.of_nat i))
                                               (two_digits (Z.of_nat i)))
                         (seq 0 100) = true) by (vm_compute; reflexivity).
  rewrite List.forallb_forall in Hall.
  specialize (Hall (Z.to_nat k)). rewrite Z2Nat.id in Hall by lia.
  unfold PyStr.eqb in Hall. rewrite bool_decide_eq_true in Hall.
  apply Hall, List.in_seq. lia.
Qed.

Lemma format_02d_hours (h : Z) : 0 <= h -> PyStr.format_02d h = hours_field h.
Proof.
  intros Hh. unfold hours_field. destruct (Z.ltb_spec h 100).
  - apply format_02d_below_100. lia.
  - unfold PyStr.format_02d.
    destruct (Z.leb_spec 0 h), (Z.ltb_spec h 10); cbn; try reflexivity; lia.
Qed.

(** [int(x)] of a non-negative time is its floor. *)
Lemma to_int_whole_seconds (x : float) :
  PyFloat.is_nonneg_finite x = true ->
  exists n, PyFloat.to_int x = Ok n /\ whole_seconds x n.
Proof.
  destruct x as [s|s| |s m e]; cbn; try discriminate; intros Hs.
  - exists 0. split; [reflexivity|]. unfold whole_seconds. cbn.
    split; [lia|]. split; [apply Qle_refl | reflexivity].
  - apply negb_true_iff in Hs. subst s. cbn [cond_Zopp].
    exists (Z.shiftl (Z.pos m) e). split; [reflexivity|].
    unfold whole_seconds, PyFloat.to_Q.
    destruct (Z.leb_spec 0 e) as [He|He].
    + rewrite Z.shiftl_mul_pow2 by lia.
      assert (0 < 2 ^ e) by (apply Z.pow_pos_nonneg; lia).
      split; [nia|]. split; [apply Qle_refl|].
      rewrite <- Zlt_Qlt. lia.
    + rewrite Z.shiftl_div_pow2 by lia.
      assert (Hp : 0 < 2 ^ (- e)) by (apply Z.pow_pos_nonneg; lia).
      split; [apply Z.div_pos; lia|].
      unfold Qle, Qlt. cbn [Qnum Qden inject_Z].
      rewrite Z2Pos.id by exact Hp. rewrite !Z.mul_1_r.
      pose proof (Z.mul_div_le (Z.pos m) (2 ^ (- e)) Hp).
      pose proof (Z.mul_succ_div_gt (Z.pos m) (2 ^ (- e)) Hp).
      split; nia.
Qed.

Lemma format_time_clock (x : float) :
  PyFloat.is_nonneg_finite x = true ->
  exists n, whole_seconds x n /\ _format_time x = Ok (clock n).
Proof.
  intros Hx. destruct (to_int_whole_seconds x Hx) as (n & Hn & Hw).
  exists n. split; [exact Hw|]. destruct Hw as (Hn0 & _).
  unfold _format_time. rewrite Hn. cbn [mbind result_bind divmod].
  unfold clock. f_equal.
  rewrite (format_02d_hours (n / 60 / 60)) by (apply Z.div_pos; [apply Z.div_pos|]; lia).
  rewrite (Z.div_div n 60 60) by lia. change (60 * 60) with 3600.
  rewrite (format_02d_below_100 (n / 60 mod 60))
    by (pose proof (Z.mod_pos_bound (n / 60) 60); lia).
  rewrite (format_02d_below_100 (n mod 60))
    by (pose proof (Z.mod_pos_bound n 60); lia).
  reflexivity.
Qed.

Lemma render_line_rendered (segment : Segment) :
  timed segment -> exists line, render_line segment = Ok line /\ rendered segment line.
Proof.
  intros [Hs He].
  destruct (format_time_clock _ Hs) as (a & Ha & Hfa).
  destruct (format_time_clock _ He) as (b & Hb & Hfb).
  unfold render_line, pretty_time. rewrite Hfa, Hfb. cbn [mbind result_bind].
  eexists. split; [reflexivity|]. exists a, b. split; [exact Ha|]. split; [exact Hb|].
  now rewrite <- !app_assoc.
Qed.

Lemma render_lines_rendered (segments : list Segment) :
  Forall timed segments ->
  exists lines, render_lines segments = Ok lines /\ Forall2 rendered segments lines.
Proof.
  induction segments as [|segment rest IH]; intros Ht; cbn.
  - exists []. split; [reflexivity | constructor].
  - inversion Ht as [|? ? H1 H2]; subst.
    destruct (render_line_rendered segment H1) as (line & Hl & Hr).
    destruct (IH H2) as (lines & Hls & Hrs).
    rewrite Hl, Hls. cbn. exists (line :: lines). split; [reflexivity | now constructor].
Qed.

(** ** Line feeds *)









(** The example of the specification: 65.2 s to 70.0 s. *)
Lemma hello_segment_text :
  segments_to_text [hello_segment]
  = Ok (PyStr.lit "[00:01:05" ++ [PyStr.EN_DASH] ++ PyStr.lit "00:01:10] SPEAKER_00: hello").
Proof. vm_compute. reflexivity. Qed.

(** Truncated, not rounded: 69.9 s shows as 00:01:09. *)
Lemma bye_segment_text :
  segments_to_text [hello_segment; bye_segment]
  = Ok (PyStr.lit "[00:01:05" ++ [PyStr.EN_DASH] ++ PyStr.lit "00:01:10] SPEAKER_00: hello"
          ++ [PyStr.LF]
          ++ PyStr.lit "[00:01:10" ++ [PyStr.EN_DASH] ++ PyStr.lit "00:01:09] SPEAKER_01: bye").
Proof. vm_compute. reflexivity. Qed.



End Renderer.

(* ===================================================================== *)
(** * The mean embedding *)
(* ===================================================================== *)

Section MeanEmbedding.
Import Postprocess Enrollment Spec Sample.

Lemma nth_zip_with {A} (f : A -> A -> A) (d0 : A) (a b : list A) :
  forall j, (j < length a)%nat -> (j < length b)%nat ->
    nth j (zip_with f a b) d0 = f (nth j a d0) (nth j b d0).
Proof.
  revert b. induction a as [|x a IH]; intros [|y b] j Ha Hb; cbn in *; try lia.
  destruct j as [|j]; [reflexivity|]. apply IH; lia.
Qed.

(** Adding the rows up one after the other adds each column up in the
    same order. *)
Lemma fold_zip_columns (f : float -> float -> float) (d : nat) (rs : list (list float)) :
  forall r,
    length r = d -> Forall (fun v => length v = d) rs ->
    length (fold_left (zip_with f) rs r) = d
    /\ forall j, (j < d)%nat ->
         nth j (fold_left (zip_with f) rs r) PyFloat.zero
         = fold_left f (column j rs) (nth j r PyFloat.zero).
Proof.
  induction rs as [|x rs IH]; intros r Hr Hrs; cbn.
  - split; [exact Hr | reflexivity].
  - inversion Hrs as [|? ? Hx Hrs']; subst.
    assert (Hlen : length (zip_with f r x) = length r).
    { rewrite length_zip_with. lia. }
    destruct (IH (zip_with f r x) Hlen Hrs') as [Hl Hn].
    split; [exact Hl|]. intros j Hj. rewrite (Hn j Hj).
    now rewrite nth_zip_with by lia.
Qed.

Lemma mean_axis0_columns (dt : dtype) (d : nat) (rows : list (list float)) :
  rows <> [] -> Forall (fun v => length v = d) rows ->
  exists mean,
    Numpy.mean_axis0 dt rows = Ok mean
    /\ length mean = d
    /\ forall j, (j < d)%nat -> nth j mean PyFloat.zero = mean_of dt (column j rows).
Proof.
  destruct rows as [|r rs]; [congruence|]. intros _ Hall.
  inversion Hall as [|? ? Hr Hrs]; subst.
  unfold Numpy.mean_axis0.
  assert (Hcheck : forallb (fun r' => Nat.eqb (length r') (length r)) rs = true).
  { apply List.forallb_forall. intros v Hv. rewrite List.Forall_forall in Hrs.
    apply Nat.eqb_eq. now apply Hrs. }
  rewrite Hcheck.
  destruct (fold_zip_columns (Numpy.add dt) (length r) rs r eq_refl Hrs) as [Hl Hn].
  eexists. split; [reflexivity|]. split; [rewrite length_map; exact Hl|].
  intros j Hj.
  set (g := fun x => Numpy.div dt x (Numpy.of_count dt (length (r :: rs)))).
  change PyFloat.zero with (S754_zero false) at 1.
  rewrite (List.nth_indep _ (S754_zero false) (g PyFloat.zero))
    by (rewrite length_map; lia).
  change (map g ?l) with (List.map g l). rewrite List.map_nth.
  unfold g, mean_of. cbn [column map hd tail length].
  rewrite (Hn j Hj), length_map. reflexivity.
Qed.

Lemma astype_float32_cast (dt : dtype) (mean : list float) :
  Numpy.astype_float32 (mkArray dt mean) = mkArray Float32 (map (cast32 dt) mean).
Proof.
  destruct dt; unfold Numpy.astype_float32; cbn; [|reflexivity].
  now rewrite list_fmap_id.
Qed.

(** The body for one speaker, when the inner loop hands back at least
    one vector, all of one length. *)
Lemma enroll_one_mean (w : World) (audio : path)
    (speaker_map : gmap str str) (output_dir : path) (cap : Z) (code : str)
    (windows : list window) (created : list path)
    (embeddings : list (list float)) (d : nat) :
  let inner := embed_loop w audio code 0 (select windows cap) [] in
  let output_path := output_dir // npy_name (default code (speaker_map !! code)) in
  outcome inner = Ok embeddings ->
  embeddings <> [] ->
  Forall (fun v => length v = d) embeddings ->
  exists mean,
    enroll_one w audio speaker_map output_dir cap code windows created
    = (trace inner ++ [NpSave output_path (mkArray Float32 mean)],
       Ok (created ++ [output_path]))
    /\ length mean = d
    /\ forall j, (j < d)%nat ->
         nth j mean PyFloat.zero
         = cast32 (embedding_dtype w) (mean_of (embedding_dtype w) (column j embeddings)).
Proof.
  intros inner output_path Hinner Hne Hall.
  destruct (mean_axis0_columns (embedding_dtype w) d embeddings Hne Hall)
    as (mean & Hmean & Hlen & Hcol).
  exists (map (cast32 (embedding_dtype w)) mean).
  split; [|split].
  - rewrite enroll_one_step. cbv zeta. fold inner. rewrite Hinner.
    destruct embeddings as [|v vs]; [congruence|].
    rewrite Hmean, astype_float32_cast. reflexivity.
  - now rewrite length_map.
  - intros j Hj.
    change PyFloat.zero with (S754_zero false) at 1.
    rewrite (List.nth_indep _ (S754_zero false) (cast32 (embedding_dtype w) PyFloat.zero))
      by (rewrite length_map; lia).
    change (map ?g ?l) with (List.map g l). rewrite List.map_nth.
    now rewrite (Hcol j Hj).
Qed.

(** ** The outer loop, group by group *)

Lemma io_bind_assoc {A B C} (m : io A) (f : A -> io B) (g : B -> io C) :
  (m ≫= f) ≫= g = m ≫= (fun x => f x ≫= g).
Proof.
  destruct m as [t [a|e]]; cbn; [|reflexivity].
  destruct (f a) as [t' [b|e]]; cbn; [|reflexivity].
  destruct (g b) as [t'' r]. now rewrite app_assoc.
Qed.

Lemma io_bind_ext {A B} (m : io A) (f g : A -> io B) :
  (forall x, f x = g x) -> m ≫= f = m ≫= g.
Proof.
  intros Hfg. destruct m as [t [a|e]]; cbn; [|reflexivity]. now rewrite Hfg.
Qed.

Lemma enroll_loop_app (w : World) (audio : path) (speaker_map : gmap str str)
    (output_dir : path) (cap : Z) (g1 g2 : list (str * list window)) :
  forall created,
    enroll_loop w audio speaker_map output_dir cap (g1 ++ g2) created
    = enroll_loop w audio speaker_map output_dir cap g1 created
      ≫= enroll_loop w audio speaker_map output_dir cap g2.
Proof.
  induction g1 as [|[code windows] g1 IH]; intros created; cbn [app enroll_loop].
  - cbn. now destruct (enroll_loop w audio speaker_map output_dir cap g2 created).
  - rewrite io_bind_assoc. apply io_bind_ext. intros c. apply IH.
Qed.

Lemma enroll_one_created (w : World) (audio : path) (speaker_map : gmap str str)
    (output_dir : path) (cap : Z) (code : str) (windows : list window)
    (created result : list path) :
  outcome (enroll_one w audio speaker_map output_dir cap code windows created)
  = Ok result ->
  exists more, result = created ++ more.
Proof.
  rewrite enroll_one_step. cbv zeta.
  destruct (outcome (embed_loop w audio code 0 (select windows cap) []))
    as [[|v vs]|e]; cbn [outcome snd]; try discriminate.
  - intros H. inversion H. exists []. now rewrite app_nil_r.
  - destruct (Numpy.mean_axis0 _ _); cbn [outcome snd]; [|discriminate].
    intros H. inversion H. now eexists.
Qed.

(** The list of created files only grows. *)
Lemma enroll_loop_created (w : World) (audio : path) (speaker_map : gmap str str)
    (output_dir : path) (cap : Z) (grouped : list (str * list window)) :
  forall created result,
    outcome (enroll_loop w audio speaker_map output_dir cap grouped created) = Ok result ->
    exists more, result = created ++ more.
Proof.
  induction grouped as [|[code windows] rest IH]; intros created result;
    cbn [enroll_loop].
  - cbn. intros H. inversion H. exists []. now rewrite app_nil_r.
  - rewrite io_bind_outcome.
    destruct (outcome (enroll_one w audio speaker_map output_dir cap code windows created))
      as [created'|e] eqn:Hone; [|discriminate].
    intros H. destruct (IH _ _ H) as [more ->].
    destruct (enroll_one_created _ _ _ _ _ _ _ _ _ Hone) as [more' ->].
    exists (more' ++ more). now rewrite app_assoc.
Qed.

(** C6. In a call of [enroll_speakers] that reaches a speaker's group,
    the groups before it having been handled, and gets at least one
    vector for it (all of one length): the call saves to
    [output_dir / "<name>.npy"], [name] being the speaker's entry in the
    map or, without one, the speaker code itself, a float32 array whose
    [j]-th element is the mean of the vectors' [j]-th elements, cast to
    float32; and when the call returns, that path is among the files it
    reports. *)
Theorem enroll_speakers_saves_mean (w : World) (audio : path)
    (segments : list SegmentDict) (speaker_map : gmap str str)
    (output_dir : path) (cap : Z)
    (before after : list (str * list window)) (code : str)
    (windows : list window) (created : list path)
    (embeddings : list (list float)) (d : nat) :
  let call := enroll_speakers w audio segments speaker_map output_dir cap in
  let output_path := output_dir // npy_name (default code (speaker_map !! code)) in
  model_available w = true ->
  group_loop segments [] = Ok (before ++ (code, windows) :: after) ->
  outcome (enroll_loop w audio speaker_map output_dir cap before []) = Ok created ->
  outcome (embed_loop w audio code 0 (select windows cap) []) = Ok embeddings ->
  embeddings <> [] ->
  Forall (fun v => length v = d) embeddings ->
  exists mean,
    In (NpSave output_path (mkArray Float32 mean)) (trace call)
    /\ length mean = d
    /\ (forall j, (j < d)%nat ->
          nth j mean PyFloat.zero
          = cast32 (embedding_dtype w)
              (mean_of (embedding_dtype w) (column j embeddings)))
    /\ (forall result, outcome call = Ok result -> In output_path result).
Proof.
  intros call output_path Hmodel Hgroup Hbefore Hinner Hne Hall.
  destruct (enroll_one_mean w audio speaker_map output_dir cap code windows created
              embeddings d Hinner Hne Hall) as (mean & Hone & Hlen & Hcol).
  exists mean. subst output_path.
  set (output_path := output_dir // npy_name (default code (speaker_map !! code))) in *.
  assert (Hloop :
    enroll_loop w audio speaker_map output_dir cap (before ++ (code, windows) :: after) []
    = (trace (enroll_loop w audio speaker_map output_dir cap before [])
         ++ trace (enroll_one w audio speaker_map output_dir cap code windows created)
         ++ trace (enroll_loop w audio speaker_map output_dir cap after
                     (created ++ [output_path])),
       outcome (enroll_loop w audio speaker_map output_dir cap after
                  (created ++ [output_path])))).
  { rewrite enroll_loop_app.
    destruct (enroll_loop w audio speaker_map output_dir cap before []) as [tb rb].
    cbn [outcome snd] in Hbefore. subst rb. cbn [mbind io_bind enroll_loop trace fst].
    rewrite Hone. cbn [mbind io_bind trace fst].
    destruct (enroll_loop w audio speaker_map output_dir cap after
                (created ++ [output_path])) as [ta ra].
    cbn. now rewrite <- !app_assoc. }
  assert (Hcall : call
    = (Mkdir output_dir :: Mkdir (temp_dir w)
         :: fst (enroll_loop w audio speaker_map output_dir cap
                   (before ++ (code, windows) :: after) [])
         ++ [RemoveTree (temp_dir w)],
       snd (enroll_loop w audio speaker_map output_dir cap
              (before ++ (code, windows) :: after) []))).
  { unfold call, enroll_speakers, _load_embedding_model. rewrite Hmodel, Hgroup.
    reflexivity. }
  split; [|split; [exact Hlen | split; [exact Hcol|]]].
  - rewrite Hcall, Hloop, Hone. cbn [trace fst].
    right. right. apply List.in_or_app. left.
    apply List.in_or_app. right. apply List.in_or_app. left.
    apply List.in_or_app. right. now left.
  - intros result. rewrite Hcall, Hloop. cbn [outcome snd]. intros Hres.
    destruct (enroll_loop_created _ _ _ _ _ _ _ _ Hres) as [more ->].
    apply List.in_or_app. left. apply List.in_or_app. right. now left.
Qed.

(** The example of the specification: the mean of [[1.0, 3.0]] and
    [[3.0, 5.0]] is [[2.0, 4.0]], in float32 and in float64. *)
Lemma mean_of_two_vectors :
  Numpy.mean_axis0 Float32 [[f32 1; f32 3]; [f32 3; f32 5]] = Ok [f32 2; f32 4]
  /\ (mean ← Numpy.mean_axis0 Float64
               (map (map (Numpy.round_to Float64)) [[f32 1; f32 3]; [f32 3; f32 5]]);
      Ok (Numpy.astype_float32 (mkArray Float64 mean)))
     = Ok (mkArray Float32 [f32 2; f32 4]).
Proof. vm_compute. repeat split. Qed.

Lemma two_segments_grouped :
  group_loop two_segments [] = Ok ([] ++ (PyStr.lit "SPEAKER_00", two_windows) :: []).
Proof. vm_compute. reflexivity. Qed.

Lemma averaging_world_inner :
  outcome (embed_loop averaging_world audio_file (PyStr.lit "SPEAKER_00") 0
             (select two_windows 5) [])
  = Ok [[f32 1; f32 3]; [f32 3; f32 5]].
Proof. vm_compute. reflexivity. Qed.

Lemma enroll_speakers_saves_mean_witness :
  let call := enroll_speakers averaging_world audio_file two_segments alice_map db_dir 5 in
  let output_path := db_dir // npy_name (default (PyStr.lit "SPEAKER_00")
                                    (alice_map !! PyStr.lit "SPEAKER_00")) in
  exists mean,
    In (NpSave output_path (mkArray Float32 mean)) (trace call)
    /\ length mean = 2%nat
    /\ (forall j, (j < 2)%nat ->
          nth j mean PyFloat.zero
          = cast32 (embedding_dtype averaging_world)
              (mean_of (embedding_dtype averaging_world)
                 (column j [[f32 1; f32 3]; [f32 3; f32 5]])))
    /\ (forall result, outcome call = Ok result -> In output_path result).
Proof.
  refine (enroll_speakers_saves_mean averaging_world audio_file two_segments alice_map
            db_dir 5 [] [] (PyStr.lit "SPEAKER_00") two_windows []
            [[f32 1; f32 3]; [f32 3; f32 5]] 2%nat
            eq_refl two_segments_grouped eq_refl averaging_world_inner _ _).
  - discriminate.
  - repeat constructor.
Defined.

(** That call: [db/Alice.npy] holds [[2.0, 4.0]]. *)
Lemma averaging_world_saves :
  In (NpSave (db_dir // PyStr.lit "Alice.npy") (mkArray Float32 [f32 2; f32 4]))
     (trace (enroll_speakers averaging_world audio_file two_segments alice_map db_dir 5))
  /\ outcome (enroll_speakers averaging_world audio_file two_segments alice_map db_dir 5)
     = Ok [db_dir // PyStr.lit "Alice.npy"].
Proof.
  split; [|vm_compute; reflexivity].
  vm_compute. do 8 right. left. reflexivity.
Qed.

End MeanEmbedding.

(* ===================================================================== *)
(** * Failure of a cut, and the orchestrator *)
(* ===================================================================== *)

Section Failure.
Import Postprocess Enrollment Pipeline Spec Sample.

Lemma cut_fails_outcome (w : World) (audio : path) (start end_ : float) (dest : path) :
  cut_fails w audio start end_ dest ->
  outcome (_cut_wav w audio start end_ dest)
  = Raise (EnrollmentError (cut_error w audio start end_ dest)).
Proof.
  unfold cut_fails, cut_error. cbv zeta. rewrite cut_wav_cases. cbv zeta.
  destruct (PyFloat.leb _ PyFloat.zero); [reflexivity|].
  intros [H | H]; [discriminate|].
  destruct (Z.eqb_spec (ffmpeg w audio start
              (PyFloat.max PyFloat.zero (PyFloat.sub end_ start)) dest) 0);
    [contradiction | reflexivity].
Qed.

(** The trace of one cut: the call, and the run of [ffmpeg] unless the
    duration was refused. *)
Lemma cut_wav_trace (w : World) (audio : path) (start end_ : float) (dest : path) :
  exists t2, trace (_cut_wav w audio start end_ dest)
             = CallCutWav audio start end_ dest :: t2
             /\ Forall idle t2.
Proof.
  rewrite cut_wav_cases. cbv zeta.
  destruct (PyFloat.leb _ PyFloat.zero).
  - exists []. split; [reflexivity | constructor].
  - destruct (_ =? 0); eexists; (split; [reflexivity | repeat constructor]).
Qed.

Lemma embed_loop_abort (w : World) (audio : path) (code : str)
    (a : path) (start end_ : float) (dest : path) (selected : list window) :
  forall idx acc,
    In (CallCutWav a start end_ dest) (trace (embed_loop w audio code idx selected acc)) ->
    cut_fails w a start end_ dest ->
    outcome (embed_loop w audio code idx selected acc)
    = Raise (EnrollmentError (cut_error w a start end_ dest))
    /\ exists t1 t2,
         trace (embed_loop w audio code idx selected acc)
         = t1 ++ CallCutWav a start end_ dest :: t2
         /\ Forall idle t2.
Proof.
  induction selected as [|[s0 e0] rest IH]; intros idx acc Hin Hfail.
  - cbn in Hin. contradiction.
  - rewrite embed_loop_step in Hin |- *. cbv zeta in Hin |- *.
    set (wav := temp_dir w // wav_name code idx) in *.
    destruct (cut_wav_trace w audio s0 e0 wav) as (tc & Htc & Hidle).
    assert (Hfirst : In (CallCutWav a start end_ dest) (trace (_cut_wav w audio s0 e0 wav)) ->
                     a = audio /\ start = s0 /\ end_ = e0 /\ dest = wav).
    { rewrite Htc. intros [Heq | Hin']; [now inversion Heq |].
      rewrite List.Forall_forall in Hidle. destruct (Hidle _ Hin'). }
    destruct (outcome (_cut_wav w audio s0 e0 wav)) as [[]|ex] eqn:Hout.
    + assert (Hnot : ~ In (CallCutWav a start end_ dest) (trace (_cut_wav w audio s0 e0 wav))).
      { intros Hc. destruct (Hfirst Hc) as (-> & -> & -> & ->).
        rewrite (cut_fails_outcome _ _ _ _ _ Hfail) in Hout. discriminate. }
      destruct (embedder w wav) as [v|ex]; cbn [trace outcome fst snd] in Hin |- *.
      * apply List.in_app_or in Hin. destruct Hin as [Hc | [Hc | Hin]];
          [contradiction | discriminate |].
        destruct (IH _ _ Hin Hfail) as (Ho & t1 & t2 & Ht & Hi).
        split; [exact Ho|].
        exists (trace (_cut_wav w audio s0 e0 wav) ++ Embed wav :: t1), t2.
        split; [|exact Hi]. rewrite Ht, <- app_assoc. reflexivity.
      * apply List.in_app_or in Hin. destruct Hin as [Hc | [Hc | []]];
          [contradiction | discriminate].
    + cbn [trace outcome fst snd] in Hin |- *.
      destruct (Hfirst Hin) as (-> & -> & -> & ->).
      rewrite (cut_fails_outcome _ _ _ _ _ Hfail) in Hout. inversion Hout; subst.
      split; [reflexivity|]. exists [], tc. split; [exact Htc | exact Hidle].
Qed.

Lemma enroll_one_abort (w : World) (audio : path) (speaker_map : gmap str str)
    (output_dir : path) (cap : Z) (code : str) (windows : list window)
    (created : list path) (a : path) (start end_ : float) (dest : path) :
  In (CallCutWav a start end_ dest)
     (trace (enroll_one w audio speaker_map output_dir cap code windows created)) ->
  cut_fails w a start end_ dest ->
  outcome (enroll_one w audio speaker_map output_dir cap code windows created)
  = Raise (EnrollmentError (cut_error w a start end_ dest))
  /\ exists t1 t2,
       trace (enroll_one w audio speaker_map output_dir cap code windows created)
       = t1 ++ CallCutWav a start end_ dest :: t2
       /\ Forall idle t2.
Proof.
  rewrite enroll_one_step. cbv zeta. intros Hin Hfail.
  assert (Hinner : In (CallCutWav a start end_ dest)
                      (trace (embed_loop w audio code 0 (select windows cap) []))).
  { destruct (outcome (embed_loop w audio code 0 (select windows cap) []))
      as [[|v vs]|e]; try exact Hin.
    destruct (Numpy.mean_axis0 _ _); [|exact Hin].
    cbn [trace fst] in Hin. apply List.in_app_or in Hin.
    destruct Hin as [Hin | [Hc | []]]; [exact Hin | discriminate]. }
  destruct (embed_loop_abort _ _ _ _ _ _ _ _ _ _ Hinner Hfail) as (Ho & Hsplit).
  rewrite Ho. split; [reflexivity | exact Hsplit].
Qed.

Lemma enroll_loop_abort (w : World) (audio : path) (speaker_map : gmap str str)
    (output_dir : path) (cap : Z) (a : path) (start end_ : float) (dest : path)
    (grouped : list (str * list window)) :
  forall created,
    In (CallCutWav a start end_ dest)
       (trace (enroll_loop w audio speaker_map output_dir cap grouped created)) ->
    cut_fails w a start end_ dest ->
    outcome (enroll_loop w audio speaker_map output_dir cap grouped created)
    = Raise (EnrollmentError (cut_error w a start end_ dest))
    /\ exists t1 t2,
         trace (enroll_loop w audio speaker_map output_dir cap grouped created)
         = t1 ++ CallCutWav a start end_ dest :: t2
         /\ Forall idle t2.
Proof.
  induction grouped as [|[code windows] rest IH]; intros created Hin Hfail;
    cbn [enroll_loop] in *.
  - cbn in Hin. contradiction.
  - rewrite io_bind_trace in Hin. rewrite io_bind_trace, io_bind_outcome.
    apply List.in_app_or in Hin. destruct Hin as [Hin | Hin].
    + destruct (enroll_one_abort _ _ _ _ _ _ _ _ _ _ _ _ Hin Hfail) as (Ho & t1 & t2 & Ht & Hi).
      rewrite Ho. split; [reflexivity|]. exists t1, t2.
      split; [now rewrite app_nil_r | exact Hi].
    + destruct (outcome (enroll_one w audio speaker_map output_dir cap code windows created))
        as [created'|e]; [|contradiction].
      destruct (IH _ Hin Hfail) as (Ho & t1 & t2 & Ht & Hi).
      split; [exact Ho|]. eexists (_ ++ t1), t2.
      split; [|exact Hi]. rewrite Ht, <- app_assoc. reflexivity.
Qed.

(** A cut that fails ends the whole call: [enroll_speakers] raises the
    error of that cut, and after the call of that cut the trace has no
    further cut, embedding or saved file. *)
Lemma enroll_speakers_abort (w : World) (audio : path) (segments : list SegmentDict)
    (speaker_map : gmap str str) (output_dir : path) (cap : Z)
    (a : path) (start end_ : float) (dest : path) :
  In (CallCutWav a start end_ dest)
     (trace (enroll_speakers w audio segments speaker_map output_dir cap)) ->
  cut_fails w a start end_ dest ->
  outcome (enroll_speakers w audio segments speaker_map output_dir cap)
  = Raise (EnrollmentError (cut_error w a start end_ dest))
  /\ exists t1 t2,
       trace (enroll_speakers w audio segments speaker_map output_dir cap)
       = t1 ++ CallCutWav a start end_ dest :: t2
       /\ Forall idle t2.
Proof.
  unfold enroll_speakers, _load_embedding_model.
  destruct (model_available w); cbn [mbind io_bind mret io_ret raise emit lift];
    [|cbn; contradiction].
  destruct (group_loop segments []) as [grouped|e]; cbn [app];
    [|cbn; intros [H | []]; discriminate].
  unfold with_temporary_directory.
  destruct (enroll_loop w audio speaker_map output_dir cap grouped []) as [t r] eqn:He.
  cbn [trace outcome fst snd]. intros Hin Hfail.
  assert (Hloop : In (CallCutWav a start end_ dest) t).
  { destruct Hin as [Hc | [Hc | Hin]]; [discriminate | discriminate |].
    apply List.in_app_or in Hin. destruct Hin as [Hin | [Hc | []]];
      [exact Hin | discriminate]. }
  pose proof (enroll_loop_abort w audio speaker_map output_dir cap a start end_ dest
                grouped []) as H.
  rewrite He in H. cbn [trace outcome fst snd] in H.
  destruct (H Hloop Hfail) as (Ho & t1 & t2 & Ht & Hi).
  split; [exact Ho|].
  exists (Mkdir output_dir :: Mkdir (temp_dir w) :: t1), (t2 ++ [RemoveTree (temp_dir w)]).
  split.
  - rewrite Ht. cbn. rewrite <- app_assoc. reflexivity.
  - apply Forall_app. split; [exact Hi | repeat constructor].
Qed.

(** A run of [process] whose earlier steps end well and whose transcript
    loads and renders, in which enrollment raises an [EnrollmentError]:
    the transcript is written, then enrollment runs, then the error is
    logged, and the result is returned. *)
Lemma process_logs_enrollment_error (config : PipelineConfig) (r : Run)
    (segments : list Segment) (content : str) (why : enrollment_failure) :
  let run_dir := output_root config // run_timestamp r in
  let audio := run_dir // audio_name r in
  let text_path := run_dir // PyStr.lit "meeting_diarized.txt" in
  let enrollment :=
    enroll_speakers (world r) audio (map as_dict segments) (speaker_map config)
      (speaker_db config) DEFAULT_MAX_SEGMENTS in
  acquired r = true -> recognised r = true -> json_exists r = true ->
  load_segments (json_data r) = Ok segments ->
  segments_to_text (apply_speaker_map segments (speaker_map config)) = Ok content ->
  map_nonempty (speaker_map config) = true ->
  outcome enrollment = Raise (EnrollmentError why) ->
  process config r
  = ([Mkdir run_dir; Mkdir run_dir; WriteText text_path content]
       ++ trace enrollment ++ [LogWarning (EnrollmentError why)],
     Ok (mkResult audio run_dir text_path
           (run_dir // PyStr.lit "whisperx" // (audio_stem r ++ PyStr.lit ".json")))).
Proof.
  intros run_dir audio text_path enrollment Ha Hr Hj Hl Ht Hm He.
  unfold process, write_segments. rewrite Ha, Hr, Hj, Hl, Hm.
  cbn [mbind io_bind mret io_ret emit lift raise app].
  fold run_dir. fold text_path. rewrite Ht.
  cbn [mbind io_bind mret io_ret emit lift raise app].
  fold audio. fold enrollment.
  destruct enrollment as [t o]. cbn [outcome snd] in He. subst o.
  replace (removelast text_path) with run_dir
    by (unfold text_path, path_join; now rewrite List.removelast_last).
  cbn [except_enrollment_error trace fst app mbind io_bind mret io_ret].
  rewrite !app_nil_r. reflexivity.
Qed.

(** C7. A cut that fails, by a duration that is not positive or by an
    exit status of [ffmpeg] other than zero, raises an [EnrollmentError]
    out of [enroll_speakers]: the call ends there, with no later cut,
    embedding or saved file. In [process], an [EnrollmentError] out of
    enrollment is logged as a warning after the transcript has been
    written, and the result is returned all the same. *)
Theorem enrollment_failure_is_contained
    (w : World) (audio : path) (dicts : list SegmentDict)
    (mapping : gmap str str) (output : path) (cap : Z)
    (a : path) (start end_ : float) (dest : path)
    (config : PipelineConfig) (r : Run) (segments : list Segment)
    (content : str) (why : enrollment_failure) :
  (In (CallCutWav a start end_ dest)
      (trace (enroll_speakers w audio dicts mapping output cap)) ->
   cut_fails w a start end_ dest ->
   outcome (enroll_speakers w audio dicts mapping output cap)
   = Raise (EnrollmentError (cut_error w a start end_ dest))
   /\ exists t1 t2,
        trace (enroll_speakers w audio dicts mapping output cap)
        = t1 ++ CallCutWav a start end_ dest :: t2
        /\ Forall idle t2)
  /\ (let run_dir := output_root config // run_timestamp r in
      let enrollment :=
        enroll_speakers (world r) (run_dir // audio_name r) (map as_dict segments)
          (speaker_map config) (speaker_db config) DEFAULT_MAX_SEGMENTS in
      acquired r = true -> recognised r = true -> json_exists r = true ->
      load_segments (json_data r) = Ok segments ->
      segments_to_text (apply_speaker_map segments (speaker_map config)) = Ok content ->
      map_nonempty (speaker_map config) = true ->
      outcome enrollment = Raise (EnrollmentError why) ->
      process config r
      = ([Mkdir run_dir; Mkdir run_dir;
          WriteText (run_dir // PyStr.lit "meeting_diarized.txt") content]
           ++ trace enrollment ++ [LogWarning (EnrollmentError why)],
         Ok (mkResult (run_dir // audio_name r) run_dir
               (run_dir // PyStr.lit "meeting_diarized.txt")
               (run_dir // PyStr.lit "whisperx" // (audio_stem r ++ PyStr.lit ".json"))))).
Proof.
  split.
  - apply enroll_speakers_abort.
  - apply process_logs_enrollment_error.
Qed.

(** A run in which [ffmpeg] exits with status 1 on the one window. *)
Lemma failing_run_process :
  process sample_config failing_run
  = ([ Mkdir [PyStr.lit "out"; PyStr.lit "20250101_000000"];
       Mkdir [PyStr.lit "out"; PyStr.lit "20250101_000000"];
       WriteText [PyStr.lit "out"; PyStr.lit "20250101_000000";
                  PyStr.lit "meeting_diarized.txt"]
         (PyStr.lit "[00:01:05" ++ [PyStr.EN_DASH] ++ PyStr.lit "00:01:10] Alice: hello"
            ++ [PyStr.LF]
            ++ PyStr.lit "[00:00:00" ++ [PyStr.EN_DASH] ++ PyStr.lit "00:00:00] SPEAKER: bye");
       Mkdir db_dir;
       Mkdir [PyStr.lit "tmp"];
       CallCutWav [PyStr.lit "out"; PyStr.lit "20250101_000000"; PyStr.lit "a.mp3"]
         (PyFloat.of_ratio false 652 10) (PyFloat.of_ratio false 70 1)
         [PyStr.lit "tmp"; PyStr.lit "SPEAKER_00_0.wav"];
       RunFfmpeg [PyStr.lit "out"; PyStr.lit "20250101_000000"; PyStr.lit "a.mp3"]
         (PyFloat.of_ratio false 652 10)
         (PyFloat.sub (PyFloat.of_ratio false 70 1) (PyFloat.of_ratio false 652 10))
         [PyStr.lit "tmp"; PyStr.lit "SPEAKER_00_0.wav"];
       RemoveTree [PyStr.lit "tmp"];
       LogWarning (EnrollmentError (FfmpegFailed 1)) ],
     Ok (mkResult [PyStr.lit "out"; PyStr.lit "20250101_000000"; PyStr.lit "a.mp3"]
           [PyStr.lit "out"; PyStr.lit "20250101_000000"]
           [PyStr.lit "out"; PyStr.lit "20250101_000000"; PyStr.lit "meeting_diarized.txt"]
           [PyStr.lit "out"; PyStr.lit "20250101_000000"; PyStr.lit "whisperx";
            PyStr.lit "a.json"])).
Proof. vm_compute. reflexivity. Qed.

Lemma enrollment_failure_is_contained_witness :
  let audio := [PyStr.lit "out"; PyStr.lit "20250101_000000"; PyStr.lit "a.mp3"] in
  let wav := [PyStr.lit "tmp"; PyStr.lit "SPEAKER_00_0.wav"] in
  let enrollment :=
    enroll_speakers failing_world audio (map as_dict three_loaded) alice_map db_dir 5 in
  outcome enrollment
  = Raise (EnrollmentError
             (cut_error failing_world audio (PyFloat.of_ratio false 652 10)
                (PyFloat.of_ratio false 70 1) wav))
  /\ exists t1 t2,
       trace enrollment
       = t1 ++ CallCutWav audio (PyFloat.of_ratio false 652 10)
                 (PyFloat.of_ratio false 70 1) wav :: t2
       /\ Forall idle t2.
Proof.
  refine (proj1 (enrollment_failure_is_contained failing_world
            [PyStr.lit "out"; PyStr.lit "20250101_000000"; PyStr.lit "a.mp3"]
            (map as_dict three_loaded) alice_map db_dir 5
            [PyStr.lit "out"; PyStr.lit "20250101_000000"; PyStr.lit "a.mp3"]
            (PyFloat.of_ratio false 652 10) (PyFloat.of_ratio false 70 1)
            [PyStr.lit "tmp"; PyStr.lit "SPEAKER_00_0.wav"]
            sample_config failing_run three_loaded [] MissingDependency) _ _).
  - vm_compute. right. right. left. reflexivity.
  - right. vm_compute. discriminate.
Defined.

End Failure.

(* ===================================================================== *)
(** * Loading, then rendering *)
(* ===================================================================== *)

Section LoadRender.
Import Postprocess Spec Sample.




(** A document that loads into segments with non-negative times has a
    rendering. *)
Lemma load_render_total (data : json_document) (segments : list Segment) :
  load_segments data = Ok segments -> Forall timed segments ->
  exists out, load_segments data ≫= segments_to_text = Ok out.
Proof.
  intros Hl Ht. destruct (render_lines_rendered segments Ht) as (lines & Hs & _).
  rewrite Hl. cbn. unfold segments_to_text. rewrite Hs. now eexists.
Qed.

End LoadRender.

(* ===================================================================== *)
(** * Numbers among the floats *)
(* ===================================================================== *)

Section FiniteFloats.
Import PyFloat Behaviour.

Lemma shr_1_nonneg (mrs : shr_record) : 0 <= shr_m mrs -> 0 <= shr_m (shr_1 mrs).
Proof.
  destruct mrs as [m r s]. cbn [shr_m]. intros Hm.
  destruct m as [|p|p]; [cbn; lia | | lia].
  destruct p; cbn; lia.
Qed.

Lemma iter_shr_1_nonneg (p : positive) :
  forall mrs, 0 <= shr_m mrs -> 0 <= shr_m (SpecFloat.iter_pos shr_1 p mrs).
Proof.
  induction p as [p IH|p IH|]; intros mrs Hm; cbn [SpecFloat.iter_pos].
  - apply IH, IH. now apply shr_1_nonneg.
  - now apply IH, IH.
  - now apply shr_1_nonneg.
Qed.

Lemma shr_fexp_nonneg (p e : Z) (m : Z) (x : Z) (l : location) :
  0 <= m -> 0 <= shr_m (fst (shr_fexp p e m x l)).
Proof.
  intros Hm. unfold shr_fexp, shr.
  assert (H0 : 0 <= shr_m (shr_record_of_loc m l)) by (destruct l as [|[]]; exact Hm).
  destruct (fexp p e (Zdigits2 m + x) - x); cbn [fst]; try exact H0.
  now apply iter_shr_1_nonneg.
Qed.

Lemma round_nearest_even_nonneg (m : Z) (l : location) :
  0 <= m -> 0 <= round_nearest_even m l.
Proof.
  intros Hm. destruct l as [|[]]; cbn; try lia. destruct (Z.even m); lia.
Qed.

(** Rounding a mantissa that is not negative never gives NaN. *)
Lemma binary_round_aux_number (p e : Z) (sx : bool) (mx ex : Z) (lx : location) :
  0 <= mx -> is_nan (binary_round_aux p e sx mx ex lx) = false.
Proof.
  intros Hm. unfold binary_round_aux.
  pose proof (shr_fexp_nonneg p e mx ex lx Hm) as H1.
  destruct (shr_fexp p e mx ex lx) as [mrs' e']. cbn [fst] in H1.
  pose proof (shr_fexp_nonneg p e
                (round_nearest_even (shr_m mrs') (loc_of_shr_record mrs')) e' loc_Exact
                (round_nearest_even_nonneg _ _ H1)) as H2.
  destruct (shr_fexp p e (round_nearest_even _ _) e' loc_Exact) as [mrs'' e''].
  cbn [fst] in H2. destruct (shr_m mrs'') as [|q|q]; [reflexivity | | lia].
  now destruct (e'' <=? e - p).
Qed.

Lemma binary_normalize_number (p e : Z) (m x : Z) (sz : bool) :
  is_nan (binary_normalize p e m x sz) = false.
Proof.
  unfold binary_normalize, binary_round.
  destruct m as [|q|q]; [reflexivity | |];
    destruct (shl_align _ _ _) as [mz ez]; now apply binary_round_aux_number.
Qed.

(** The difference of two numbers is not NaN. *)
Lemma sub_finite_number (a b : float) :
  finite a = true -> finite b = true -> is_nan (sub a b) = false.
Proof.
  unfold sub, SFsub.
  destruct a as [sa|sa| |sa ma ea], b as [sb|sb| |sb mb eb]; cbn [finite];
    try discriminate; intros _ _; try reflexivity;
    try (now destruct sa, sb).
  apply binary_normalize_number.
Qed.

End FiniteFloats.

(* ===================================================================== *)
(** * More about the loader, the remapper and the renderer *)
(* ===================================================================== *)

Section Trimming.
Import Postprocess Spec Sample Behaviour.

Lemma lstrip_head (s : str) (c : N) :
  head (PyStr.lstrip s) = Some c -> PyStr.isspace c = false.
Proof.
  induction s as [|x s IH]; cbn; [discriminate|].
  destruct (PyStr.isspace x) eqn:Hx; [exact IH|].
  cbn. intros H. now inversion H; subst.
Qed.

(** Stripping on the left leaves the end of the string. *)
Lemma lstrip_suffix (s : str) : exists p, s = p ++ PyStr.lstrip s.
Proof.
  induction s as [|x s [p IH]]; cbn; [now exists []|].
  destruct (PyStr.isspace x).
  - exists (x :: p). cbn. now f_equal.
  - now exists [].
Qed.

Lemma last_rev_head (s : str) : last (rev s) = head s.
Proof.
  destruct s as [|x s]; [reflexivity|]. cbn [rev head]. apply last_snoc.
Qed.

Lemma rstrip_last (s : str) (c : N) :
  last (PyStr.rstrip s) = Some c -> PyStr.isspace c = false.
Proof.
  unfold PyStr.rstrip. rewrite last_rev_head. apply lstrip_head.
Qed.

(** Stripping on the right leaves the start of the string. *)
Lemma rstrip_prefix (s : str) : exists p, s = PyStr.rstrip s ++ p.
Proof.
  unfold PyStr.rstrip. destruct (lstrip_suffix (rev s)) as [p Hp].
  exists (rev p). rewrite <- List.rev_app_distr, <- Hp. now rewrite List.rev_involutive.
Qed.

Lemma strip_ends (s : str) (c : N) :
  head (PyStr.strip s) = Some c \/ last (PyStr.strip s) = Some c ->
  PyStr.isspace c = false.
Proof.
  unfold PyStr.strip. intros [Hh | Hl]; [|now apply rstrip_last in Hl].
  destruct (rstrip_prefix (PyStr.lstrip s)) as [p Hp].
  apply (lstrip_head s). rewrite Hp.
  destruct (PyStr.rstrip (PyStr.lstrip s)); [discriminate | exact Hh].
Qed.

Lemma stripped_text_strip (raw : SegmentDict) (t : str) :
  stripped_text raw = Ok t -> exists s, t = PyStr.strip s.
Proof.
  unfold stripped_text. destruct (d_text raw) as [v|].
  - destruct (truthy v).
    + destruct v; try discriminate. intros H. inversion H. now eexists.
    + intros H. inversion H. now eexists.
  - intros H. inversion H. now eexists.
Qed.

(** X1. No loaded text begins or ends with whitespace: the text of
    every segment that [load_segments] returns has a first and a last
    character, and neither is a whitespace character. *)
Theorem load_segments_text_trimmed (data : json_document) (segs : list Segment) :
  load_segments data = Ok segs ->
  Forall (fun seg =>
            (exists c, head (text seg) = Some c /\ PyStr.isspace c = false)
            /\ (exists c, last (text seg) = Some c /\ PyStr.isspace c = false))
         segs.
Proof.
  intros H. pose proof (load_segments_ok data segs H) as HF.
  apply (Forall2_transfer loaded_from (fun raw => blank raw = false) _ _ _ HF).
  - apply kept_blank_false.
  - intros raw seg Hb Hl. pose proof (loaded_text_nonempty raw seg Hb Hl) as Hne.
    destruct Hl as (Ht & _). destruct (stripped_text_strip _ _ Ht) as [s Hs].
    rewrite Hs in *. split.
    + destruct (PyStr.strip s) as [|c t] eqn:E; [congruence|].
      exists c. split; [reflexivity|]. apply (strip_ends s). left. now rewrite E.
    + destruct (last (PyStr.strip s)) as [c|] eqn:E.
      * exists c. split; [reflexivity|]. apply (strip_ends s). now right.
      * apply last_None in E. congruence.
Qed.

Lemma load_segments_text_trimmed_witness :
  Forall (fun seg =>
            (exists c, head (text seg) = Some c /\ PyStr.isspace c = false)
            /\ (exists c, last (text seg) = Some c /\ PyStr.isspace c = false))
         three_loaded.
Proof. exact (load_segments_text_trimmed three_records three_loaded three_records_load). Defined.

End Trimming.

Section Rendering.
Import Postprocess Spec Sample Behaviour.

Lemma format_time_finite (x : float) :
  if finite x then exists s, _format_time x = Ok s
  else _format_time x = Raise (time_error x).
Proof.
  destruct x as [s|s| |s m e]; cbn; try reflexivity; now eexists.
Qed.

Lemma render_line_finite (segment : Segment) :
  match List.find (fun x => negb (finite x)) [start segment; end_ segment] with
  | None => exists line, render_line segment = Ok line
  | Some x => render_line segment = Raise (time_error x)
  end.
Proof.
  unfold render_line, pretty_time. cbn [List.find].
  pose proof (format_time_finite (start segment)) as Hs.
  pose proof (format_time_finite (end_ segment)) as He.
  destruct (finite (start segment)); cbn [negb].
  - destruct Hs as [a ->]. cbn [mbind result_bind].
    destruct (finite (end_ segment)); cbn [negb].
    + destruct He as [b ->]. cbn. now eexists.
    + now rewrite He.
  - now rewrite Hs.
Qed.

Lemma render_lines_finite (segments : list Segment) :
  match List.find (fun x => negb (finite x)) (times segments) with
  | None => exists lines, render_lines segments = Ok lines
  | Some x => render_lines segments = Raise (time_error x)
  end.
Proof.
  induction segments as [|segment rest IH]; [now exists []|].
  change (times (segment :: rest))
    with ([start segment; end_ segment] ++ times rest).
  pose proof (render_line_finite segment) as Hl.
  cbn [render_lines].
  destruct (List.find _ [start segment; end_ segment]) as [x|] eqn:Ef.
  - rewrite Hl. cbn [mbind result_bind].
    assert (Hx : List.find (fun x => negb (finite x))
                   ([start segment; end_ segment] ++ times rest) = Some x).
    { cbn [List.find app] in *.
      destruct (negb (finite (start segment))); [exact Ef|].
      destruct (negb (finite (end_ segment))); [exact Ef | discriminate]. }
    now rewrite Hx.
  - destruct Hl as [line ->]. cbn [mbind result_bind].
    assert (Hx : List.find (fun x => negb (finite x))
                   ([start segment; end_ segment] ++ times rest)
                 = List.find (fun x => negb (finite x)) (times rest)).
    { cbn [List.find app] in *.
      destruct (negb (finite (start segment))); [discriminate|].
      destruct (negb (finite (end_ segment))); [discriminate | reflexivity]. }
    rewrite Hx. destruct (List.find _ (times rest)) as [x|].
    + now rewrite IH.
    + destruct IH as [lines ->]. cbn. now eexists.
Qed.

(** X2. Rendering returns a text exactly when every start and end is a
    number. Otherwise it raises what [int()] raises on the first time,
    in the order start, end, segment after segment, that is none:
    [ValueError] for NaN, [OverflowError] for an infinity. *)
Theorem segments_to_text_outcome (segments : list Segment) :
  match List.find (fun x => negb (finite x)) (times segments) with
  | None => exists out, segments_to_text segments = Ok out
  | Some x =>
      segments_to_text segments
      = Raise (if PyFloat.is_nan x then ValueError else OverflowError)
  end.
Proof.
  unfold segments_to_text. pose proof (render_lines_finite segments) as H.
  destruct (List.find _ (times segments)) as [x|].
  - now rewrite H.
  - destruct H as [lines ->]. cbn. now eexists.
Qed.

(** When rendering returns, every time is a number. *)
Lemma segments_to_text_finite (segments : list Segment) :
  is_ok (segments_to_text segments) = true ->
  Forall (fun segment => finite (start segment) = true /\ finite (end_ segment) = true)
         segments.
Proof.
  intros Hok. pose proof (render_lines_finite segments) as H.
  unfold segments_to_text in Hok.
  induction segments as [|segment rest IH]; [constructor|].
  change (times (segment :: rest))
    with ([start segment; end_ segment] ++ times rest) in H.
  cbn [List.find app] in H.
  destruct (finite (start segment)) eqn:Es; cbn [negb] in H.
  2: { rewrite H in Hok. discriminate. }
  destruct (finite (end_ segment)) eqn:Ee; cbn [negb] in H.
  2: { rewrite H in Hok. discriminate. }
  constructor; [now split|]. apply IH.
  - cbn [render_lines] in Hok.
    destruct (render_line segment); [|discriminate].
    cbn [mbind result_bind] in Hok.
    destruct (render_lines rest); [reflexivity | discriminate].
  - pose proof (render_lines_finite rest) as H'. exact H'.
Qed.

End Rendering.

Section Remapping.
Import Postprocess Spec Sample Behaviour.

Lemma remap_absent (mapping : gmap str str) (segment : Segment) :
  mapping !! speaker segment = None -> remap mapping segment = segment.
Proof. unfold remap. intros ->. now destruct segment. Qed.

Lemma remap_settled (mapping : gmap str str) (segment : Segment) :
  settled mapping -> remap mapping (remap mapping segment) = remap mapping segment.
Proof.
  intros Hs. unfold remap. cbn [speaker text start end_].
  destruct (mapping !! speaker segment) as [v|] eqn:E; cbn.
  - now rewrite (Hs _ _ E).
  - now rewrite E.
Qed.

Lemma apply_speaker_map_absent (segments : list Segment) (mapping : gmap str str) :
  Forall (fun segment => mapping !! speaker segment = None) segments ->
  apply_speaker_map segments mapping = segments.
Proof.
  intros H. rewrite apply_speaker_map_map.
  induction H as [|segment rest Hs _ IH]; [reflexivity|].
  cbn [map]. now rewrite (remap_absent _ _ Hs), IH.
Qed.

(** X3. Labels that are not keys of the map pass through the remapper
    unchanged, so an empty map changes nothing; and when no display name
    of the map is itself a key mapped to something else, remapping a
    second time changes nothing either. *)
Theorem apply_speaker_map_stable (segments : list Segment) (mapping : gmap str str) :
  (Forall (fun segment => mapping !! speaker segment = None) segments ->
   apply_speaker_map segments mapping = segments)
  /\ apply_speaker_map segments ∅ = segments
  /\ (settled mapping ->
      apply_speaker_map (apply_speaker_map segments mapping) mapping
      = apply_speaker_map segments mapping).
Proof.
  split; [apply apply_speaker_map_absent|]. split.
  - apply apply_speaker_map_absent. apply List.Forall_forall.
    intros segment _. apply lookup_empty.
  - intros Hs. rewrite !apply_speaker_map_map.
    induction segments as [|segment rest IH]; [reflexivity|].
    cbn [map]. now rewrite (remap_settled _ _ Hs), IH.
Qed.

(** With a map that sends A to B and B to C, a second pass moves A's
    segments on to C. *)
Lemma apply_speaker_map_chain :
  let chain : gmap str str :=
    {[ PyStr.lit "A" := PyStr.lit "B"; PyStr.lit "B" := PyStr.lit "C" ]} in
  let segment := mkSegment (PyStr.lit "A") (PyStr.lit "hi") PyFloat.zero PyFloat.one in
  apply_speaker_map [segment] chain
  = [mkSegment (PyStr.lit "B") (PyStr.lit "hi") PyFloat.zero PyFloat.one]
  /\ apply_speaker_map (apply_speaker_map [segment] chain) chain
     = [mkSegment (PyStr.lit "C") (PyStr.lit "hi") PyFloat.zero PyFloat.one].
Proof. vm_compute. split; reflexivity. Qed.

Lemma alice_map_settled : settled alice_map.
Proof.
  intros k v H. unfold alice_map in H.
  apply lookup_singleton_Some in H. destruct H as [_ Hv]. subst v.
  vm_compute. reflexivity.
Qed.

Lemma apply_speaker_map_stable_witness :
  apply_speaker_map [bye_segment] alice_map = [bye_segment]
  /\ apply_speaker_map [hello_segment; bye_segment] ∅ = [hello_segment; bye_segment]
  /\ apply_speaker_map (apply_speaker_map [hello_segment] alice_map) alice_map
     = apply_speaker_map [hello_segment] alice_map.
Proof.
  split; [|split].
  - destruct (apply_speaker_map_stable [bye_segment] alice_map) as (Habsent & _ & _).
    apply Habsent. constructor; [vm_compute; reflexivity | constructor].
  - destruct (apply_speaker_map_stable [hello_segment; bye_segment] alice_map)
      as (_ & Hempty & _).
    exact Hempty.
  - destruct (apply_speaker_map_stable [hello_segment] alice_map) as (_ & _ & Htwice).
    exact (Htwice alice_map_settled).
Defined.

End Remapping.

Section TimeStamps.
Import Postprocess Spec Sample Behaviour.

Lemma digit_value (d : Z) : 0 <= d -> Z.of_N (PyStr.digit d) - 48 = d.
Proof. intros Hd. unfold PyStr.digit. lia. Qed.

Lemma two_digits_value (k : Z) : 0 <= k -> digits_value (two_digits k) = k.
Proof.
  intros Hk. unfold digits_value, two_digits. cbn [fold_left].
  rewrite !digit_value.
  - pose proof (Z.div_mod k 10). lia.
  - pose proof (Z.mod_pos_bound k 10). lia.
  - apply Z.div_pos; lia.
Qed.

Lemma hours_field_value (h : Z) : 0 <= h -> digits_value (hours_field h) = h.
Proof.
  intros Hh. unfold hours_field. destruct (Z.ltb_spec h 100).
  - now apply two_digits_value.
  - unfold PyStr.of_int. destruct (Z.ltb_spec h 0); [lia|].
    now apply digits_value_digits.
Qed.

(** The whole second can be read back from the stamp. *)
Lemma clock_injective (a b : Z) : 0 <= a -> 0 <= b -> clock a = clock b -> a = b.
Proof.
  intros Ha Hb H. unfold clock in H.
  change (PyStr.lit ":") with [58%N] in H.
  apply app_inj_2 in H; [|reflexivity]. destruct H as [Hh Hr].
  apply (f_equal digits_value) in Hh.
  rewrite !hours_field_value in Hh by (apply Z.div_pos; lia).
  cbn [app] in Hr. injection Hr as Hm1 Hm2 Hs1 Hs2.
  assert (Hm : digits_value (two_digits (a / 60 mod 60))
               = digits_value (two_digits (b / 60 mod 60))).
  { unfold two_digits. now rewrite Hm1, Hm2. }
  assert (Hs : digits_value (two_digits (a mod 60))
               = digits_value (two_digits (b mod 60))).
  { unfold two_digits. now rewrite Hs1, Hs2. }
  pose proof (Z.mod_pos_bound (a / 60) 60). pose proof (Z.mod_pos_bound a 60).
  pose proof (Z.mod_pos_bound (b / 60) 60). pose proof (Z.mod_pos_bound b 60).
  rewrite !two_digits_value in Hm, Hs by lia.
  pose proof (Z.div_mod a 60). pose proof (Z.div_mod b 60).
  pose proof (Z.div_mod (a / 60) 60). pose proof (Z.div_mod (b / 60) 60).
  change 3600 with (60 * 60) in Hh. rewrite <- !Z.div_div in Hh by lia. lia.
Qed.

Lemma format_time_of_int (x : float) :
  PyFloat.is_nonneg_finite x = true ->
  exists n, PyFloat.to_int x = Ok n /\ 0 <= n /\ _format_time x = Ok (clock n).
Proof.
  intros Hx. destruct (to_int_whole_seconds x Hx) as (n & Hn & Hn0 & _).
  exists n. split; [exact Hn|]. split; [exact Hn0|].
  unfold _format_time. rewrite Hn. cbn [mbind result_bind divmod].
  unfold clock. f_equal.
  rewrite (format_02d_hours (n / 60 / 60)) by (apply Z.div_pos; [apply Z.div_pos|]; lia).
  rewrite (Z.div_div n 60 60) by lia. change (60 * 60) with 3600.
  rewrite (format_02d_below_100 (n / 60 mod 60))
    by (pose proof (Z.mod_pos_bound (n / 60) 60); lia).
  rewrite (format_02d_below_100 (n mod 60))
    by (pose proof (Z.mod_pos_bound n 60); lia).
  reflexivity.
Qed.

(** X4. Two non-negative times get the same stamp exactly when they
    have the same whole second: [_format_time] loses the fraction and
    nothing else. *)
Theorem format_time_injective (a b : float) :
  PyFloat.is_nonneg_finite a = true ->
  PyFloat.is_nonneg_finite b = true ->
  (_format_time a = _format_time b <-> PyFloat.to_int a = PyFloat.to_int b).
Proof.
  intros Ha Hb.
  destruct (format_time_of_int a Ha) as (n & Hn & Hn0 & Hfa).
  destruct (format_time_of_int b Hb) as (k & Hk & Hk0 & Hfb).
  rewrite Hfa, Hfb, Hn, Hk. split; intros H; inversion H as [H'].
  - f_equal. now apply clock_injective.
  - reflexivity.
Qed.

Lemma format_time_injective_witness :
  _format_time (PyFloat.of_ratio false 652 10) = _format_time (PyFloat.of_ratio false 659 10)
  <-> PyFloat.to_int (PyFloat.of_ratio false 652 10)
      = PyFloat.to_int (PyFloat.of_ratio false 659 10).
Proof.
  apply (format_time_injective (PyFloat.of_ratio false 652 10)
           (PyFloat.of_ratio false 659 10)); reflexivity.
Defined.

End TimeStamps.

Section NegativeTimes.
Import Postprocess Spec Sample Behaviour.

(** X5. A time of minus one second or less is not shown as a negated
    [HH:MM:SS]: the hours carry the sign and are rounded down, and the
    minutes and seconds count up from there, as [divmod] leaves them.
    Minus one second shows as [-1:59:59]. *)
Theorem format_time_negative (timestamp : float) (n : Z) :
  PyFloat.to_int timestamp = Ok n -> n < 0 ->
  _format_time timestamp
  = Ok (PyStr.lit "-" ++ PyStr.digits (- (n / 3600)) ++ PyStr.lit ":"
          ++ two_digits (n / 60 mod 60) ++ PyStr.lit ":" ++ two_digits (n mod 60)).
Proof.
  intros Hn Hneg. unfold _format_time. rewrite Hn. cbn [mbind result_bind divmod].
  f_equal.
  rewrite (Z.div_div n 60 60) by lia. change (60 * 60) with 3600.
  rewrite (format_02d_below_100 (n / 60 mod 60))
    by (pose proof (Z.mod_pos_bound (n / 60) 60); lia).
  rewrite (format_02d_below_100 (n mod 60))
    by (pose proof (Z.mod_pos_bound n 60); lia).
  assert (Hh : n / 3600 < 0) by (apply Z.div_lt_upper_bound; lia).
  unfold PyStr.format_02d, PyStr.of_int.
  destruct (Z.leb_spec 0 (n / 3600)); [lia|]. cbn [andb].
  destruct (Z.ltb_spec (n / 3600) 0); [|lia].
  now rewrite <- !app_assoc.
Qed.

Lemma format_time_negative_witness :
  _format_time (S754_finite true 4503599627370496 (-52))
  = Ok (PyStr.lit "-" ++ PyStr.digits (- (-1 / 3600)) ++ PyStr.lit ":"
          ++ two_digits (-1 / 60 mod 60) ++ PyStr.lit ":" ++ two_digits (-1 mod 60)).
Proof.
  apply (format_time_negative (S754_finite true 4503599627370496 (-52)) (-1));
    [reflexivity | lia].
Defined.

(** Minus one second, spelled out. *)
Lemma minus_one_second :
  _format_time (S754_finite true 4503599627370496 (-52)) = Ok (PyStr.lit "-1:59:59").
Proof. vm_compute. reflexivity. Qed.

End NegativeTimes.

Section GroupingErrors.
Import Postprocess Enrollment Spec Sample Behaviour.

Lemma py_float_raises (v : pyval) (e : exn) :
  py_float v = Raise e -> e = TypeError \/ e = ValueError \/ e = OverflowError.
Proof.
  destruct v as [|b|n|x|s|l|d]; cbn; try (intros H; inversion H; tauto).
  - unfold PyFloat.of_int. destruct (binary_normalize _ _ _ _ _);
      intros H; inversion H; tauto.
  - destruct (float_of_str s); intros H; inversion H; tauto.
Qed.

(** X6. Grouping reads the times of a segment only after it has found
    a speaker: a segment with no speaker, or an empty one, cannot make
    [enroll_speakers] fail, whatever its times. A failing grouping was
    given a segment with a speaker and a start or end that [float()]
    rejects; what it raises is a [TypeError], [ValueError] or
    [OverflowError], never an [EnrollmentError]. *)
Theorem grouping_errors (segments : list SegmentDict)
    (grouped : list (str * list window)) :
  (forall e, group_loop segments grouped = Raise e ->
     (e = TypeError \/ e = ValueError \/ e = OverflowError)
     /\ Exists (fun segment =>
                  (exists c speaker, d_speaker segment = Some (c :: speaker))
                  /\ (py_float (default (PFloat PyFloat.zero) (d_start segment)) = Raise e
                      \/ py_float (default (PFloat PyFloat.zero) (d_end segment)) = Raise e))
          segments)
  /\ (Forall (fun segment => d_speaker segment = None \/ d_speaker segment = Some [])
        segments ->
      group_loop segments grouped = Ok grouped).
Proof.
  split.
  - revert grouped. induction segments as [|segment rest IH]; intros grouped e;
      cbn [group_loop]; [discriminate|].
    destruct (d_speaker segment) as [[|c sp]|] eqn:Hsp.
    + intros H. destruct (IH _ _ H) as [He Hex]. split; [exact He | apply Exists_cons_tl; exact Hex].
    + destruct (py_float (default (PFloat PyFloat.zero) (d_start segment)))
        as [a|ea] eqn:Ha; cbn [mbind result_bind].
      * destruct (py_float (default (PFloat PyFloat.zero) (d_end segment)))
          as [b|eb] eqn:Hb; cbn [mbind result_bind].
        -- intros H.
           assert (H' : exists g, group_loop rest g = Raise e).
           { destruct (PyFloat.ltb _ PyFloat.two); eexists; exact H. }
           destruct H' as [g H']. destruct (IH _ _ H') as [He Hex].
           split; [exact He | apply Exists_cons_tl; exact Hex].
        -- intros H. inversion H; subst. split; [now apply py_float_raises in Hb|].
           left. split; [now exists c, sp | now right].
      * intros H. inversion H; subst. split; [now apply py_float_raises in Ha|].
        left. split; [now exists c, sp | now left].
    + intros H. destruct (IH _ _ H) as [He Hex]. split; [exact He | apply Exists_cons_tl; exact Hex].
  - intros H. induction H as [|segment rest Hs _ IH]; [reflexivity|].
    cbn [group_loop]. now destruct Hs as [-> | ->].
Qed.

End GroupingErrors.

(* ===================================================================== *)
(** * More about enrollment *)
(* ===================================================================== *)

Section EnrollmentTrace.
Import Postprocess Enrollment Spec Sample Behaviour.

(** A call that gets past the model and the grouping: the output
    directory, the temporary directory, the loop, the removal. *)
Lemma enroll_speakers_shape (w : World) (audio : path) (segments : list SegmentDict)
    (speaker_map : gmap str str) (output_dir : path) (cap : Z)
    (grouped : list (str * list window)) :
  model_available w = true ->
  group_loop segments [] = Ok grouped ->
  let loop := enroll_loop w audio speaker_map output_dir cap grouped [] in
  enroll_speakers w audio segments speaker_map output_dir cap
  = (Mkdir output_dir :: Mkdir (temp_dir w) :: trace loop ++ [RemoveTree (temp_dir w)],
     outcome loop).
Proof.
  intros Hm Hg loop. unfold enroll_speakers, _load_embedding_model.
  rewrite Hm, Hg. cbn [mbind io_bind mret io_ret raise emit lift app].
  unfold with_temporary_directory. fold loop. now destruct loop.
Qed.

(** Where an event of a cut comes from. *)
Lemma cut_wav_events (w : World) (audio : path) (start end_ : float) (dest : path)
    (ev : event) :
  In ev (trace (_cut_wav w audio start end_ dest)) ->
  ev = CallCutWav audio start end_ dest
  \/ (ev = RunFfmpeg audio start (PyFloat.max PyFloat.zero (PyFloat.sub end_ start)) dest
      /\ PyFloat.leb (PyFloat.max PyFloat.zero (PyFloat.sub end_ start)) PyFloat.zero
         = false).
Proof.
  rewrite cut_wav_cases. cbv zeta.
  destruct (PyFloat.leb _ PyFloat.zero) eqn:Hd.
  - cbn. intros [<-|[]]. now left.
  - destruct (_ =? 0); cbn; (intros [<-|[<-|[]]]; [now left | now right]).
Qed.

Lemma cut_wav_first (w : World) (audio : path) (start end_ : float) (dest : path) :
  In (CallCutWav audio start end_ dest) (trace (_cut_wav w audio start end_ dest)).
Proof.
  rewrite cut_wav_cases. cbv zeta.
  destruct (PyFloat.leb _ PyFloat.zero); [|destruct (_ =? 0)]; now left.
Qed.

Lemma from_cut_incl (audio : path) (t t' : list event) (ev : event) :
  (forall x, In x t -> In x t') -> from_cut audio t ev -> from_cut audio t' ev.
Proof.
  intros Hi (s & e & d & Hin & H). exists s, e, d. split; [now apply Hi | exact H].
Qed.

(** The events of the inner loop are cuts, runs of [ffmpeg] that follow
    a cut of a positive duration, and embeddings. *)
Lemma embed_loop_events (w : World) (audio : path) (code : str)
    (selected : list window) :
  forall idx acc ev,
    In ev (trace (embed_loop w audio code idx selected acc)) ->
    from_cut audio (trace (embed_loop w audio code idx selected acc)) ev
    \/ exists wav, ev = Embed wav.
Proof.
  induction selected as [|[start end_] rest IH]; intros idx acc ev.
  - cbn. contradiction.
  - rewrite embed_loop_step. cbv zeta.
    set (wav := temp_dir w // wav_name code idx).
    assert (Hcut : forall t, (forall x, In x (trace (_cut_wav w audio start end_ wav)) -> In x t) ->
                     In ev (trace (_cut_wav w audio start end_ wav)) -> from_cut audio t ev).
    { intros t Hi Hin. exists start, end_, wav.
      split; [apply Hi, cut_wav_first | now apply cut_wav_events in Hin]. }
    destruct (outcome (_cut_wav w audio start end_ wav)) as [[]|e].
    2: { cbn [trace fst]. intros Hin. left. now apply Hcut. }
    destruct (embedder w wav) as [v|e]; cbn [trace fst].
    + intros Hin. apply List.in_app_or in Hin. destruct Hin as [Hin | [<- | Hin]].
      * left. apply Hcut; [|exact Hin]. intros x Hx. apply List.in_or_app. now left.
      * right. now eexists.
      * destruct (IH _ _ _ Hin) as [Hf | He]; [left | now right].
        eapply from_cut_incl; [|exact Hf].
        intros x Hx. apply List.in_or_app. right. now right.
    + intros Hin. apply List.in_app_or in Hin. destruct Hin as [Hin | [<- | []]].
      * left. apply Hcut; [|exact Hin]. intros x Hx. apply List.in_or_app. now left.
      * right. now eexists.
Qed.




(** A window that reaches the cut step passed the filter. *)
Lemma cut_call_filtered (w : World) (audio : path) (segments : list SegmentDict)
    (speaker_map : gmap str str) (output_dir : path) (cap : Z)
    (a : path) (start end_ : float) (dest : path) :
  In (CallCutWav a start end_ dest)
     (trace (enroll_speakers w audio segments speaker_map output_dir cap)) ->
  PyFloat.ltb (PyFloat.sub end_ start) PyFloat.two = false
  /\ exists grouped code windows,
       group_loop segments [] = Ok grouped
       /\ In (code, windows) grouped /\ In (start, end_) windows.
Proof.
  intros Hin. apply cut_calls_In in Hin.
  destruct (enroll_speakers_calls _ _ _ _ _ _ _ Hin)
    as (grouped & code & ws & Hg & Hgin & Hsel).
  apply select_In in Hsel.
  pose proof (windows_for_long_enough code segments) as Hlong.
  rewrite <- (group_loop_windows _ _ _ _ Hg Hgin) in Hlong.
  rewrite List.Forall_forall in Hlong. specialize (Hlong _ Hsel).
  split; [exact Hlong|]. now exists grouped, code, ws.
Qed.



End EnrollmentTrace.

Section EnrollmentFiles.
Import Postprocess Enrollment Spec Sample Behaviour.

Lemma saves_app (t1 t2 : list event) : saves (t1 ++ t2) = saves t1 ++ saves t2.
Proof. apply omap_app. Qed.

Lemma saves_none (t : list event) :
  (forall ev, In ev t -> saved ev = None) -> saves t = [].
Proof.
  induction t as [|ev t IH]; intros H; [reflexivity|].
  unfold saves. cbn [omap list_omap]. rewrite (H ev) by now left.
  apply IH. intros x Hx. apply H. now right.
Qed.

(** The inner loop saves nothing. *)
Lemma embed_loop_saves (w : World) (audio : path) (code : str)
    (selected : list window) (idx : nat) (acc : list (list float)) :
  saves (trace (embed_loop w audio code idx selected acc)) = [].
Proof.
  apply saves_none. intros ev Hin.
  destruct (embed_loop_events _ _ _ _ _ _ _ Hin) as [(s & e & d & _ & [-> | [-> _]]) | [p ->]];
    reflexivity.
Qed.

Lemma enroll_one_saves (w : World) (audio : path) (speaker_map : gmap str str)
    (output_dir : path) (cap : Z) (code : str) (windows : list window)
    (created result : list path) :
  let one := enroll_one w audio speaker_map output_dir cap code windows created in
  outcome one = Ok result ->
  result = created ++ saves (trace one)
  /\ Forall (fun p => p = output_dir // npy_name (default code (speaker_map !! code)))
       (saves (trace one)).
Proof.
  cbv zeta. rewrite enroll_one_step. cbv zeta.
  pose proof (embed_loop_saves w audio code (select windows cap) 0 []) as Hs.
  destruct (outcome (embed_loop w audio code 0 (select windows cap) []))
    as [[|v vs]|e]; cbn [outcome snd trace fst]; try discriminate.
  - intros H. inversion H. rewrite Hs, app_nil_r. split; [reflexivity | constructor].
  - destruct (Numpy.mean_axis0 _ _); cbn [outcome snd trace fst]; [|discriminate].
    intros H. inversion H. rewrite saves_app, Hs. cbn.
    split; [reflexivity | now repeat constructor].
Qed.

Lemma enroll_loop_saves (w : World) (audio : path) (speaker_map : gmap str str)
    (output_dir : path) (cap : Z) (grouped : list (str * list window)) :
  forall created result,
    let loop := enroll_loop w audio speaker_map output_dir cap grouped created in
    outcome loop = Ok result ->
    result = created ++ saves (trace loop)
    /\ Forall (fun p => exists code,
                 In code (map fst grouped)
                 /\ p = output_dir // npy_name (default code (speaker_map !! code)))
         (saves (trace loop)).
Proof.
  induction grouped as [|[code windows] rest IH]; intros created result; cbv zeta;
    cbn [enroll_loop].
  - cbn. intros H. inversion H. rewrite app_nil_r. split; [reflexivity | constructor].
  - rewrite io_bind_outcome, io_bind_trace.
    pose proof (enroll_one_saves w audio speaker_map output_dir cap code windows created)
      as Hone. cbv zeta in Hone.
    destruct (outcome (enroll_one w audio speaker_map output_dir cap code windows created))
      as [created'|e]; [|discriminate].
    destruct (Hone _ eq_refl) as [-> Hp]. intros H.
    destruct (IH _ _ H) as [-> Hq]. rewrite saves_app, app_assoc.
    split; [reflexivity|]. apply Forall_app. split.
    + eapply List.Forall_impl; [|exact Hp]. intros p ->. exists code.
      split; [now left | reflexivity].
    + eapply List.Forall_impl; [|exact Hq]. intros p (c & Hc & ->). exists c.
      split; [now right | reflexivity].
Qed.

(** X8. A call of [enroll_speakers] that returns reports exactly the
    files it saved, in the order it saved them; each is
    [output_dir / "<name>.npy"] for a speaker code of the grouping,
    [name] being the code's display name or the code itself. *)
Theorem enroll_speakers_reports_saved (w : World) (audio : path)
    (segments : list SegmentDict) (speaker_map : gmap str str) (output_dir : path)
    (cap : Z) (created : list path) :
  let call := enroll_speakers w audio segments speaker_map output_dir cap in
  outcome call = Ok created ->
  created = saves (trace call)
  /\ exists grouped,
       group_loop segments [] = Ok grouped
       /\ Forall (fun p => exists code,
                    In code (map fst grouped)
                    /\ p = output_dir // npy_name (default code (speaker_map !! code)))
            created.
Proof.
  cbv zeta. destruct (model_available w) eqn:Hm.
  2: { unfold enroll_speakers, _load_embedding_model. rewrite Hm. discriminate. }
  destruct (group_loop segments []) as [grouped|e] eqn:Hg.
  2: { unfold enroll_speakers, _load_embedding_model. rewrite Hm, Hg. discriminate. }
  rewrite (enroll_speakers_shape _ _ _ _ _ _ _ Hm Hg). cbv zeta.
  cbn [outcome snd trace fst]. intros H.
  destruct (enroll_loop_saves _ _ _ _ _ _ _ _ H) as [Hc Hp]. cbn [app] in Hc.
  change (saves (Mkdir output_dir :: Mkdir (temp_dir w) :: ?l)) with (saves l).
  rewrite saves_app. cbn. rewrite app_nil_r.
  split; [exact Hc|]. exists grouped. split; [reflexivity|]. now rewrite Hc.
Qed.

Lemma enroll_speakers_reports_saved_witness :
  [db_dir // PyStr.lit "Alice.npy"]
  = saves (trace (enroll_speakers averaging_world audio_file two_segments alice_map
                    db_dir 5))
  /\ exists grouped,
       group_loop two_segments [] = Ok grouped
       /\ Forall (fun p => exists code,
                    In code (map fst grouped)
                    /\ p = db_dir // npy_name (default code (alice_map !! code)))
            [db_dir // PyStr.lit "Alice.npy"].
Proof.
  apply (enroll_speakers_reports_saved averaging_world audio_file two_segments
           alice_map db_dir 5 [db_dir // PyStr.lit "Alice.npy"]).
  vm_compute. reflexivity.
Defined.

(** ** A call with nothing to cut *)

Lemma select_zero (windows : list window) : select windows 0 = [].
Proof. reflexivity. Qed.

Lemma enroll_loop_idle (w : World) (audio : path) (speaker_map : gmap str str)
    (output_dir : path) (cap : Z) (grouped : list (str * list window)) :
  Forall (fun g => select (snd g) cap = []) grouped ->
  forall created,
    enroll_loop w audio speaker_map output_dir cap grouped created = ([], Ok created).
Proof.
  induction 1 as [|[code windows] rest Hs _ IH]; intros created; [reflexivity|].
  cbn [enroll_loop]. unfold enroll_one. cbn [snd] in Hs. rewrite Hs.
  cbn. now rewrite IH.
Qed.

(** X9. With a cap of 0, or when no segment has a speaker and lasts two
    seconds, [enroll_speakers] makes the two directories, removes the
    temporary one and returns the empty list: no cut, no embedding, no
    file, and no error from averaging nothing. *)
Theorem enroll_speakers_nothing_to_do (w : World) (audio : path)
    (segments : list SegmentDict) (speaker_map : gmap str str) (output_dir : path)
    (cap : Z) (grouped : list (str * list window)) :
  model_available w = true ->
  group_loop segments [] = Ok grouped ->
  cap = 0 \/ grouped = [] ->
  enroll_speakers w audio segments speaker_map output_dir cap
  = ([Mkdir output_dir; Mkdir (temp_dir w); RemoveTree (temp_dir w)], Ok []).
Proof.
  intros Hm Hg Hc. rewrite (enroll_speakers_shape _ _ _ _ _ _ _ Hm Hg). cbv zeta.
  rewrite enroll_loop_idle; [reflexivity|].
  destruct Hc as [-> | ->]; [|constructor].
  apply List.Forall_forall. intros g _. apply select_zero.
Qed.

Lemma enroll_speakers_nothing_to_do_witness :
  enroll_speakers quiet_world audio_file nine_segments alice_map db_dir 0
  = ([Mkdir db_dir; Mkdir (temp_dir quiet_world); RemoveTree (temp_dir quiet_world)],
     Ok []).
Proof.
  refine (enroll_speakers_nothing_to_do quiet_world audio_file nine_segments alice_map
            db_dir 0 _ eq_refl nine_segments_grouped (or_introl eq_refl)).
Defined.

End EnrollmentFiles.

Section EnrollmentDirectories.
Import Postprocess Enrollment Spec Sample Behaviour.


(** ** The names of the clips *)

Lemma digits_fuel_digits (fuel : nat) :
  forall n acc, 0 <= n ->
    Forall (fun c => is_digit c = true) acc ->
    Forall (fun c => is_digit c = true) (PyStr.digits_fuel fuel n acc).
Proof.
  induction fuel as [|fuel IH]; intros n acc Hn Hacc; cbn [PyStr.digits_fuel];
    [exact Hacc|].
  assert (Hd : is_digit (PyStr.digit (n mod 10)) = true).
  { pose proof (Z.mod_pos_bound n 10). unfold is_digit, PyStr.digit.
    apply andb_true_iff. split; apply N.leb_le; lia. }
  destruct (n <? 10); [now constructor|].
  apply IH; [apply Z.div_pos; lia | now constructor].
Qed.











End EnrollmentDirectories.

(* ===================================================================== *)
(** * More about the orchestrator *)
(* ===================================================================== *)

Section Orchestrator.
Import Postprocess Enrollment Pipeline Spec Sample Behaviour Cases.

(** [process] up to the transcript, for a run whose earlier steps end
    well. *)
Lemma process_step (config : PipelineConfig) (r : Run) :
  let run_dir := output_root config // run_timestamp r in
  let audio := run_dir // audio_name r in
  let text_path := run_dir // PyStr.lit "meeting_diarized.txt" in
  let result :=
    mkResult audio run_dir text_path
      (run_dir // PyStr.lit "whisperx" // (audio_stem r ++ PyStr.lit ".json")) in
  acquired r = true -> recognised r = true -> json_exists r = true ->
  process config r
  = match load_segments (json_data r) with
    | Raise e => ([Mkdir run_dir], Raise e)
    | Ok segments =>
        match segments_to_text (apply_speaker_map segments (speaker_map config)) with
        | Raise e => ([Mkdir run_dir; Mkdir run_dir], Raise e)
        | Ok content =>
            let written := [Mkdir run_dir; Mkdir run_dir; WriteText text_path content] in
            if map_nonempty (speaker_map config) then
              match except_enrollment_error
                      (enroll_speakers (world r) audio (map as_dict segments)
                         (speaker_map config) (speaker_db config) DEFAULT_MAX_SEGMENTS)
              with
              | (t, Ok _) => (written ++ t, Ok result)
              | (t, Raise e) => (written ++ t, Raise e)
              end
            else (written, Ok result)
        end
    end.
Proof.
  intros run_dir audio text_path result Ha Hr Hj.
  unfold process, write_segments. rewrite Ha, Hr, Hj.
  cbn [mbind io_bind mret io_ret emit lift raise app].
  destruct (load_segments (json_data r)) as [segments|e]; [|reflexivity].
  cbn [mbind io_bind mret io_ret emit lift raise app].
  fold run_dir. fold text_path.
  replace (removelast text_path) with run_dir
    by (unfold text_path, path_join; now rewrite List.removelast_last).
  destruct (segments_to_text _) as [content|e]; [|reflexivity].
  cbn [mbind io_bind mret io_ret emit lift raise app].
  fold audio. destruct (map_nonempty (speaker_map config)); [|reflexivity].
  destruct (except_enrollment_error _) as [t [[]|e]]; cbn; [|reflexivity].
  now rewrite app_nil_r.
Qed.

(** X12. A transcript that does not load, or that has a time that
    cannot be rendered, stops [process] before the transcript is
    written: the error leaves [process], and of the steps from loading
    on only the making of the run directory has happened. No transcript
    with the good lines is written, enrollment does not start and
    nothing is logged. *)
Theorem process_stops_before_writing (config : PipelineConfig) (r : Run) (e : exn) :
  let run_dir := output_root config // run_timestamp r in
  acquired r = true -> recognised r = true -> json_exists r = true ->
  (segments ← load_segments (json_data r);
   segments_to_text (apply_speaker_map segments (speaker_map config))) = Raise e ->
  outcome (process config r) = Raise e
  /\ Forall (fun ev => ev = Mkdir run_dir) (trace (process config r)).
Proof.
  intros run_dir Ha Hr Hj H. rewrite (process_step config r Ha Hr Hj). cbv zeta.
  fold run_dir.
  destruct (load_segments (json_data r)) as [segments|e1]; cbn [mbind result_bind] in H.
  - rewrite H. cbn. split; [reflexivity | now repeat constructor].
  - inversion H; subst. cbn. split; [reflexivity | now repeat constructor].
Qed.

Lemma process_stops_before_writing_witness :
  outcome (process sample_config endless_run) = Raise OverflowError
  /\ Forall (fun ev => ev = Mkdir (output_root sample_config // run_timestamp endless_run))
       (trace (process sample_config endless_run)).
Proof.
  apply (process_stops_before_writing sample_config endless_run OverflowError);
    reflexivity.
Defined.

(** X13. With an empty speaker map [process] writes the transcript
    with the labels as loaded and returns: enrollment is not called, so
    nothing is cut, embedded, saved or logged. *)
Theorem process_without_map (config : PipelineConfig) (r : Run)
    (segments : list Segment) (content : str) :
  let run_dir := output_root config // run_timestamp r in
  let text_path := run_dir // PyStr.lit "meeting_diarized.txt" in
  speaker_map config = ∅ ->
  acquired r = true -> recognised r = true -> json_exists r = true ->
  load_segments (json_data r) = Ok segments ->
  segments_to_text segments = Ok content ->
  process config r
  = ([Mkdir run_dir; Mkdir run_dir; WriteText text_path content],
     Ok (mkResult (run_dir // audio_name r) run_dir text_path
           (run_dir // PyStr.lit "whisperx" // (audio_stem r ++ PyStr.lit ".json")))).
Proof.
  intros run_dir text_path Hm Ha Hr Hj Hl Ht.
  rewrite (process_step config r Ha Hr Hj). cbv zeta. rewrite Hl, Hm.
  rewrite (apply_speaker_map_absent segments ∅)
    by (apply List.Forall_forall; intros s _; apply lookup_empty).
  rewrite Ht. reflexivity.
Qed.

Lemma process_without_map_witness :
  exists content,
    process plain_config failing_run
    = ([Mkdir [PyStr.lit "out"; PyStr.lit "20250101_000000"];
        Mkdir [PyStr.lit "out"; PyStr.lit "20250101_000000"];
        WriteText [PyStr.lit "out"; PyStr.lit "20250101_000000";
                   PyStr.lit "meeting_diarized.txt"] content],
       Ok (mkResult [PyStr.lit "out"; PyStr.lit "20250101_000000"; PyStr.lit "a.mp3"]
             [PyStr.lit "out"; PyStr.lit "20250101_000000"]
             [PyStr.lit "out"; PyStr.lit "20250101_000000";
              PyStr.lit "meeting_diarized.txt"]
             [PyStr.lit "out"; PyStr.lit "20250101_000000"; PyStr.lit "whisperx";
              PyStr.lit "a.json"])).
Proof.
  eexists.
  refine (process_without_map plain_config failing_run three_loaded _
            eq_refl eq_refl eq_refl eq_refl three_records_load _).
  vm_compute. reflexivity.
Defined.

(** X14. Only [EnrollmentError] is caught. Any other exception that
    enrollment raises, from the embedding network or from stacking
    vectors of different lengths, leaves [process]: the transcript has
    been written, but no result is returned and nothing is logged. *)
Theorem process_other_errors_escape (config : PipelineConfig) (r : Run)
    (segments : list Segment) (content : str) (e : exn) :
  let run_dir := output_root config // run_timestamp r in
  let text_path := run_dir // PyStr.lit "meeting_diarized.txt" in
  let enrollment :=
    enroll_speakers (world r) (run_dir // audio_name r) (map as_dict segments)
      (speaker_map config) (speaker_db config) DEFAULT_MAX_SEGMENTS in
  acquired r = true -> recognised r = true -> json_exists r = true ->
  load_segments (json_data r) = Ok segments ->
  segments_to_text (apply_speaker_map segments (speaker_map config)) = Ok content ->
  map_nonempty (speaker_map config) = true ->
  outcome enrollment = Raise e ->
  (forall why, e <> EnrollmentError why) ->
  process config r
  = ([Mkdir run_dir; Mkdir run_dir; WriteText text_path content] ++ trace enrollment,
     Raise e).
Proof.
  intros run_dir text_path enrollment Ha Hr Hj Hl Ht Hm He Hne.
  rewrite (process_step config r Ha Hr Hj). cbv zeta. rewrite Hl, Ht, Hm.
  fold run_dir. fold enrollment.
  destruct enrollment as [t o]. cbn [outcome snd trace fst] in *. subst o.
  destruct e; try reflexivity. now destruct (Hne why).
Qed.

Lemma process_other_errors_escape_witness :
  exists content t,
    process sample_config deaf_run
    = ([Mkdir [PyStr.lit "out"; PyStr.lit "20250101_000000"];
        Mkdir [PyStr.lit "out"; PyStr.lit "20250101_000000"];
        WriteText [PyStr.lit "out"; PyStr.lit "20250101_000000";
                   PyStr.lit "meeting_diarized.txt"] content] ++ t,
       Raise RuntimeError).
Proof.
  eexists. eexists.
  refine (process_other_errors_escape sample_config deaf_run three_loaded _ RuntimeError
            eq_refl eq_refl eq_refl three_records_load _ eq_refl _ _).
  - vm_compute. reflexivity.
  - vm_compute. reflexivity.
  - discriminate.
Defined.

End Orchestrator.

Section RenderedTimes.
Import Postprocess Enrollment Pipeline Spec Sample Behaviour Cases.

(** The dicts that [process] builds hold floats: grouping them cannot
    raise. *)
Lemma group_loop_as_dict (segments : list Segment) :
  forall grouped0, exists grouped,
    group_loop (map as_dict segments) grouped0 = Ok grouped.
Proof.
  induction segments as [|segment rest IH]; intros g0; cbn [map group_loop].
  - now eexists.
  - cbn [as_dict d_speaker d_start d_end]. cbn.
    destruct (speaker segment); [apply IH|].
    destruct (PyFloat.ltb _ PyFloat.two); apply IH.
Qed.

(** A window that comes from those dicts is the start and end of a
    segment. *)
Lemma windows_for_as_dict (code : str) (segments : list Segment) (x : window) :
  In x (windows_for code (map as_dict segments)) ->
  exists segment, In segment segments /\ x = (start segment, end_ segment).
Proof.
  unfold windows_for. intros Hin.
  apply List.in_map_iff in Hin. destruct Hin as ([k w'] & <- & Hin).
  apply List.filter_In in Hin. destruct Hin as [Hin _].
  apply list_elem_of_In in Hin. apply list_elem_of_omap in Hin.
  destruct Hin as (d & Hd & He). apply list_elem_of_In in Hd.
  apply List.in_map_iff in Hd. destruct Hd as (segment & <- & Hs).
  exists segment. split; [exact Hs|].
  unfold eligible in He. cbn [as_dict d_speaker d_start d_end] in He. cbn in He.
  destruct (speaker segment); [discriminate|].
  destruct (PyFloat.ltb _ PyFloat.two); [discriminate|]. now inversion He.
Qed.

Lemma mean_axis0_raises (dt : dtype) (rows : list (list float)) (e : exn) :
  Numpy.mean_axis0 dt rows = Raise e -> e = ValueError.
Proof.
  unfold Numpy.mean_axis0. destruct rows as [|r rs]; [congruence|].
  destruct (forallb _ rs); congruence.
Qed.

(** Where a non-positive duration is raised, a cut has found one. *)
Lemma embed_loop_nonpositive (w : World) (audio : path) (code : str)
    (selected : list window) :
  foreign_errors w ->
  forall idx acc,
    outcome (embed_loop w audio code idx selected acc)
    = Raise (EnrollmentError NonPositiveDuration) ->
    exists start end_,
      In (start, end_) selected
      /\ PyFloat.leb (PyFloat.max PyFloat.zero (PyFloat.sub end_ start)) PyFloat.zero
         = true.
Proof.
  intros Hw. induction selected as [|[start end_] rest IH]; intros idx acc.
  - cbn. discriminate.
  - rewrite embed_loop_step. cbv zeta. rewrite cut_wav_cases. cbv zeta.
    destruct (PyFloat.leb _ PyFloat.zero) eqn:Hd.
    + intros _. exists start, end_. split; [now left | exact Hd].
    + destruct (_ =? 0); cbn [outcome snd trace fst].
      * destruct (embedder w _) as [v|e] eqn:He; cbn [outcome snd].
        -- intros H. destruct (IH _ _ H) as (s & e & Hin & Hle).
           exists s, e. split; [now right | exact Hle].
        -- intros H. inversion H; subst. now destruct (Hw _ _ He).
      * discriminate.
Qed.

Lemma enroll_loop_nonpositive (w : World) (audio : path) (speaker_map : gmap str str)
    (output_dir : path) (cap : Z) (grouped : list (str * list window)) :
  foreign_errors w ->
  forall created,
    outcome (enroll_loop w audio speaker_map output_dir cap grouped created)
    = Raise (EnrollmentError NonPositiveDuration) ->
    exists code windows start end_,
      In (code, windows) grouped /\ In (start, end_) windows
      /\ PyFloat.leb (PyFloat.max PyFloat.zero (PyFloat.sub end_ start)) PyFloat.zero
         = true.
Proof.
  intros Hw. induction grouped as [|[code windows] rest IH]; intros created;
    cbn [enroll_loop].
  - discriminate.
  - rewrite io_bind_outcome, enroll_one_step. cbv zeta.
    pose proof (embed_loop_nonpositive w audio code (select windows cap) Hw 0 []) as Hin.
    destruct (outcome (embed_loop w audio code 0 (select windows cap) []))
      as [[|v vs]|e]; cbn [outcome snd].
    + intros H. destruct (IH _ H) as (c & ws & s & e & Hg & Hx & Hle).
      exists c, ws, s, e. split; [now right | now split].
    + destruct (Numpy.mean_axis0 _ _) as [mean|e] eqn:Hmean; cbn [outcome snd].
      * intros H. destruct (IH _ H) as (c & ws & s & e & Hg & Hx & Hle).
        exists c, ws, s, e. split; [now right | now split].
      * intros H. apply mean_axis0_raises in Hmean. congruence.
    + intros H. cbn in H. inversion H; subst.
      destruct (Hin eq_refl) as (s & e' & Hx & Hle).
      exists code, windows, s, e'. split; [now left|].
      split; [now apply select_In in Hx | exact Hle].
Qed.

(** A window whose ends are numbers and that passed the filter has a
    positive duration. *)
Lemma filtered_finite_positive (start end_ : float) :
  finite start = true -> finite end_ = true ->
  PyFloat.ltb (PyFloat.sub end_ start) PyFloat.two = false ->
  PyFloat.leb PyFloat.two (PyFloat.sub end_ start) = true
  /\ PyFloat.leb (PyFloat.max PyFloat.zero (PyFloat.sub end_ start)) PyFloat.zero
     = false.
Proof.
  intros Hs He Hlt. pose proof (sub_finite_number end_ start He Hs) as Hn.
  assert (H2 : PyFloat.leb PyFloat.two (PyFloat.sub end_ start) = true)
    by (now apply ltb_false_leb).
  split; [exact H2 | now apply leb_two_positive].
Qed.

(** X15. Once [process] has rendered the transcript, enrollment cannot
    fail on a duration: every window it cuts lasts at least two seconds,
    and, the embedder raising no [EnrollmentError] of its own, the call
    does not end in "Segment duration must be positive". The times that
    would make a NaN duration are those rendering has already refused. *)
Theorem rendered_windows_are_positive (w : World) (audio : path)
    (segments : list Segment) (speaker_map : gmap str str) (output_dir : path)
    (cap : Z) :
  let enrollment :=
    enroll_speakers w audio (map as_dict segments) speaker_map output_dir cap in
  is_ok (segments_to_text (apply_speaker_map segments speaker_map)) = true ->
  (forall a start end_ dest,
     In (CallCutWav a start end_ dest) (trace enrollment) ->
     PyFloat.leb PyFloat.two (PyFloat.sub end_ start) = true)
  /\ (foreign_errors w ->
      outcome enrollment <> Raise (EnrollmentError NonPositiveDuration)).
Proof.
  cbv zeta. intros Hok.
  apply segments_to_text_finite in Hok. rewrite apply_speaker_map_map in Hok.
  assert (Hfin : forall code x,
             In x (windows_for code (map as_dict segments)) ->
             finite (fst x) = true /\ finite (snd x) = true).
  { intros code x Hx. destruct (windows_for_as_dict _ _ _ Hx) as (segment & Hs & ->).
    rewrite List.Forall_forall in Hok.
    apply (Hok (remap speaker_map segment)). apply List.in_map_iff. now exists segment. }
  destruct (group_loop_as_dict segments []) as [grouped Hg].
  split.
  - intros a start end_ dest Hin.
    destruct (cut_call_filtered _ _ _ _ _ _ _ _ _ _ Hin)
      as (Hlt & g & code & windows & Hg' & Hgin & Hx).
    rewrite (group_loop_windows _ _ _ _ Hg' Hgin) in Hx.
    destruct (Hfin _ _ Hx) as [Hs He]. now apply filtered_finite_positive.
  - intros Hw H. destruct (model_available w) eqn:Hm.
    2: { unfold enroll_speakers, _load_embedding_model in H. rewrite Hm in H.
         discriminate. }
    rewrite (enroll_speakers_shape _ _ _ _ _ _ _ Hm Hg) in H. cbv zeta in H.
    cbn [outcome snd] in H.
    destruct (enroll_loop_nonpositive _ _ _ _ _ _ Hw _ H)
      as (code & windows & s & e & Hgin & Hx & Hle).
    pose proof (windows_for_long_enough code (map as_dict segments)) as Hlong.
    rewrite <- (group_loop_windows _ _ _ _ Hg Hgin) in Hlong.
    rewrite List.Forall_forall in Hlong. specialize (Hlong _ Hx).
    rewrite (group_loop_windows _ _ _ _ Hg Hgin) in Hx.
    destruct (Hfin _ _ Hx) as [Hs He].
    destruct (filtered_finite_positive s e Hs He Hlong) as [_ Hpos]. congruence.
Qed.

Lemma quiet_world_foreign : foreign_errors quiet_world.
Proof. intros wav why. discriminate. Qed.

Lemma rendered_windows_are_positive_witness :
  let enrollment :=
    enroll_speakers quiet_world audio_file (map as_dict three_loaded) alice_map db_dir 5 in
  (forall a start end_ dest,
     In (CallCutWav a start end_ dest) (trace enrollment) ->
     PyFloat.leb PyFloat.two (PyFloat.sub end_ start) = true)
  /\ outcome enrollment <> Raise (EnrollmentError NonPositiveDuration).
Proof.
  destruct (rendered_windows_are_positive quiet_world audio_file three_loaded alice_map
              db_dir 5 eq_refl) as [Hcut Hend].
  split; [exact Hcut | exact (Hend quiet_world_foreign)].
Defined.

End RenderedTimes.

(* ===================================================================== *)
(** * More about the selection and about failing calls *)
(* ===================================================================== *)

Section Ties.
Import Postprocess Enrollment Spec Sample Behaviour Cases.

Lemma filter_take_prefix {A} (f : A -> bool) (n : nat) (l : list A) :
  List.filter f (take n l) `prefix_of` List.filter f l.
Proof.
  exists (List.filter f (drop n l)).
  now rewrite <- List.filter_app, take_drop.
Qed.

(** X16. Ties go to the earlier segments: for a cap that is not
    negative and windows whose durations are numbers, sorting keeps
    windows of equal duration in the order of the transcript, so of the
    windows of one duration the ones selected are the first so many. *)
Theorem select_prefers_earlier (windows : list window) (cap : Z) (k : float) :
  0 <= cap ->
  Forall numeric windows ->
  let same := fun x : window => SFeqb (duration x) k in
  List.filter same (sort_desc windows) = List.filter same windows
  /\ List.filter same (select windows cap) `prefix_of` List.filter same windows.
Proof.
  intros Hc _. cbv zeta. split; [apply sort_desc_stable|].
  rewrite <- (sort_desc_stable k windows), (select_take windows cap Hc).
  apply filter_take_prefix.
Qed.

Lemma tied_windows_numeric : Forall numeric tied_windows.
Proof. repeat constructor. Qed.

Lemma select_prefers_earlier_witness :
  let same := fun x : window => SFeqb (duration x) (duration (win 0 3)) in
  List.filter same (sort_desc tied_windows) = List.filter same tied_windows
  /\ List.filter same (select tied_windows 3) `prefix_of` List.filter same tied_windows.
Proof.
  apply (select_prefers_earlier tied_windows 3 (duration (win 0 3)));
    [lia | exact tied_windows_numeric].
Defined.

(** Of three windows of three seconds and one of nine, a cap of three
    takes the long one and the first two of the others. *)
Lemma tied_windows_selected :
  select tied_windows 3 = [ win 30 39; win 0 3; win 10 13 ].
Proof. vm_compute. reflexivity. Qed.

End Ties.

Section PartialResults.
Import Postprocess Enrollment Spec Sample Behaviour Cases.

(** X17. Nothing is rolled back: when the clips of one speaker make a
    call of [enroll_speakers] raise, the exception leaves the call, the
    files of the speakers handled before stay saved, and they are all
    that was saved. *)
Theorem enroll_speakers_keeps_earlier_files (w : World) (audio : path)
    (segments : list SegmentDict) (speaker_map : gmap str str) (output_dir : path)
    (cap : Z) (before after : list (str * list window)) (code : str)
    (windows : list window) (created : list path) (e : exn) :
  let call := enroll_speakers w audio segments speaker_map output_dir cap in
  model_available w = true ->
  group_loop segments [] = Ok (before ++ (code, windows) :: after) ->
  outcome (enroll_loop w audio speaker_map output_dir cap before []) = Ok created ->
  outcome (embed_loop w audio code 0 (select windows cap) []) = Raise e ->
  outcome call = Raise e /\ saves (trace call) = created.
Proof.
  intros call Hm Hg Hb He. subst call.
  rewrite (enroll_speakers_shape _ _ _ _ _ _ _ Hm Hg). cbv zeta.
  cbn [outcome snd trace fst].
  change (saves (Mkdir output_dir :: Mkdir (temp_dir w) :: ?l)) with (saves l).
  rewrite saves_app. cbn [saves omap list_omap saved app]. rewrite app_nil_r.
  rewrite enroll_loop_app, io_bind_outcome, io_bind_trace, Hb, saves_app.
  destruct (enroll_loop_saves _ _ _ _ _ _ _ _ Hb) as [Hc _]. cbn [app] in Hc.
  rewrite <- Hc. cbn [enroll_loop].
  rewrite io_bind_outcome, io_bind_trace, enroll_one_step. cbv zeta. rewrite He.
  cbn [outcome snd trace fst]. rewrite !app_nil_r, embed_loop_saves, app_nil_r.
  now split.
Qed.

Lemma enroll_speakers_keeps_earlier_files_witness :
  outcome (enroll_speakers half_world audio_file two_speakers alice_map db_dir 5)
  = Raise (EnrollmentError (FfmpegFailed 1))
  /\ saves (trace (enroll_speakers half_world audio_file two_speakers alice_map db_dir 5))
     = [db_dir // PyStr.lit "A.npy"].
Proof.
  apply (enroll_speakers_keeps_earlier_files half_world audio_file two_speakers
           alice_map db_dir 5 [(PyStr.lit "A", [win 0 3])] [] (PyStr.lit "B")
           [win 10 13] [db_dir // PyStr.lit "A.npy"] (EnrollmentError (FfmpegFailed 1)));
    vm_compute; reflexivity.
Defined.

End PartialResults.

Section OneFilePerSpeaker.
Import Postprocess Enrollment Spec Sample Behaviour Cases.

Lemma keys_setdefault_append (grouped : list (str * list window)) (code : str)
    (item : window) :
  map fst (setdefault_append grouped code item) = add_new (map fst grouped) code.
Proof.
  unfold add_new. induction grouped as [|[k ws] rest IH]; cbn [setdefault_append map fst].
  - rewrite bool_decide_eq_false_2; [reflexivity|].
    intros H. now apply list_elem_of_In in H.
  - unfold PyStr.eqb. destruct (bool_decide_reflect (k = code)) as [->|Hne]; cbn [map fst].
    + rewrite bool_decide_eq_true_2; [reflexivity|]. apply list_elem_of_In. now left.
    + rewrite IH. destruct (bool_decide_reflect (code ∈ map fst rest)) as [Hin|Hnin].
      * rewrite bool_decide_eq_true_2; [reflexivity|].
        apply list_elem_of_In. right. now apply list_elem_of_In.
      * rewrite bool_decide_eq_false_2; [reflexivity|].
        intros Hin. apply list_elem_of_In in Hin. destruct Hin as [Hk | Hin];
          [congruence | now apply Hnin, list_elem_of_In].
Qed.

(** The keys of the grouping, in order: the speakers as they first
    have a segment that counts. *)
Lemma group_loop_keys (segments : list SegmentDict) :
  forall grouped0 grouped,
    group_loop segments grouped0 = Ok grouped ->
    map fst grouped
    = fold_left add_new (map fst (omap eligible segments)) (map fst grouped0).
Proof.
  induction segments as [|segment rest IH]; intros g0 g H; cbn in H.
  - now inversion H.
  - cbn [omap list_omap]. unfold eligible at 1.
    destruct (d_speaker segment) as [[|c sp]|] eqn:Hsp; cbn; try exact (IH _ _ H).
    destruct (py_float (default (PFloat PyFloat.zero) (d_start segment))) as [a|] eqn:Ha;
      cbn in H |- *; [|discriminate].
    destruct (py_float (default (PFloat PyFloat.zero) (d_end segment))) as [b|] eqn:Hb;
      cbn in H |- *; [|discriminate].
    destruct (PyFloat.ltb (PyFloat.sub b a) PyFloat.two) eqn:Hlt; cbn;
      [exact (IH _ _ H) |].
    rewrite (IH _ _ H). now rewrite keys_setdefault_append.
Qed.

(** No key is filed without a window. *)
Lemma setdefault_append_nonempty (grouped : list (str * list window)) (code : str)
    (item : window) :
  Forall (fun g => snd g <> []) grouped ->
  Forall (fun g => snd g <> []) (setdefault_append grouped code item).
Proof.
  induction 1 as [|[k ws] rest Hk Hrest IH]; cbn [setdefault_append].
  - now repeat constructor.
  - destruct (PyStr.eqb k code).
    + constructor; [|exact Hrest]. cbn [snd]. now destruct ws.
    + constructor; [exact Hk | exact IH].
Qed.

Lemma group_loop_nonempty (segments : list SegmentDict) :
  forall grouped0 grouped,
    group_loop segments grouped0 = Ok grouped ->
    Forall (fun g => snd g <> []) grouped0 ->
    Forall (fun g => snd g <> []) grouped.
Proof.
  induction segments as [|segment rest IH]; intros g0 g H Hg0; cbn in H.
  - now inversion H; subst.
  - destruct (d_speaker segment) as [[|c sp]|]; try exact (IH _ _ H Hg0).
    destruct (py_float (default (PFloat PyFloat.zero) (d_start segment))) as [a|];
      cbn in H; [|discriminate].
    destruct (py_float (default (PFloat PyFloat.zero) (d_end segment))) as [b|];
      cbn in H; [|discriminate].
    destruct (PyFloat.ltb (PyFloat.sub b a) PyFloat.two); [exact (IH _ _ H Hg0)|].
    apply (IH _ _ H). now apply setdefault_append_nonempty.
Qed.

Lemma select_nonempty (windows : list window) (cap : Z) :
  1 <= cap -> windows <> [] -> select windows cap <> [].
Proof.
  intros Hc Hw. rewrite select_take by lia.
  pose proof (Permutation_length (sort_desc_perm windows)) as Hl.
  destruct (sort_desc windows) as [|x l].
  - destruct windows; [congruence | discriminate].
  - destruct (Z.to_nat cap) eqn:E; [lia | discriminate].
Qed.

(** An inner loop that returns has one vector for every window. *)
Lemma embed_loop_length (w : World) (audio : path) (code : str)
    (selected : list window) :
  forall idx acc embeddings,
    outcome (embed_loop w audio code idx selected acc) = Ok embeddings ->
    length embeddings = (length acc + length selected)%nat.
Proof.
  induction selected as [|[start end_] rest IH]; intros idx acc embeddings.
  - cbn. intros H. inversion H. lia.
  - rewrite embed_loop_step. cbv zeta.
    destruct (outcome (_cut_wav w audio start end_ _)) as [[]|e]; [|discriminate].
    destruct (embedder w _) as [v|e]; cbn [outcome snd]; [|discriminate].
    intros H. rewrite (IH _ _ _ H), length_app. cbn. lia.
Qed.

Lemma enroll_one_file (w : World) (audio : path) (speaker_map : gmap str str)
    (output_dir : path) (cap : Z) (code : str) (windows : list window)
    (created result : list path) :
  select windows cap <> [] ->
  outcome (enroll_one w audio speaker_map output_dir cap code windows created)
  = Ok result ->
  result = created ++ [speaker_file speaker_map output_dir code].
Proof.
  intros Hs. rewrite enroll_one_step. cbv zeta.
  pose proof (embed_loop_length w audio code (select windows cap) 0 []) as Hl.
  destruct (outcome (embed_loop w audio code 0 (select windows cap) []))
    as [[|v vs]|e]; cbn [outcome snd]; try discriminate.
  - specialize (Hl [] eq_refl). destruct (select windows cap); [congruence | discriminate].
  - destruct (Numpy.mean_axis0 _ _); cbn [outcome snd]; [|discriminate].
    intros H. now inversion H.
Qed.

Lemma enroll_loop_files (w : World) (audio : path) (speaker_map : gmap str str)
    (output_dir : path) (cap : Z) (grouped : list (str * list window)) :
  Forall (fun g => select (snd g) cap <> []) grouped ->
  forall created result,
    outcome (enroll_loop w audio speaker_map output_dir cap grouped created) = Ok result ->
    result = created ++ map (speaker_file speaker_map output_dir) (map fst grouped).
Proof.
  induction 1 as [|[code windows] rest Hs _ IH]; intros created result;
    cbn [enroll_loop].
  - cbn. intros H. inversion H. now rewrite app_nil_r.
  - rewrite io_bind_outcome.
    destruct (outcome (enroll_one w audio speaker_map output_dir cap code windows created))
      as [created'|e] eqn:Hone; [|discriminate].
    intros H. rewrite (IH _ _ H), (enroll_one_file _ _ _ _ _ _ _ _ _ Hs Hone).
    now rewrite <- app_assoc.
Qed.

(** X18. With a cap of at least one, a call of [enroll_speakers] that
    returns has saved one file for every speaker code that has a
    segment lasting two seconds, and returns their paths in the order
    in which those speakers first have such a segment in the input. *)
Theorem enroll_speakers_one_file_per_speaker (w : World) (audio : path)
    (segments : list SegmentDict) (speaker_map : gmap str str) (output_dir : path)
    (cap : Z) (created : list path) :
  1 <= cap ->
  outcome (enroll_speakers w audio segments speaker_map output_dir cap) = Ok created ->
  created = map (speaker_file speaker_map output_dir) (speakers segments).
Proof.
  intros Hc. destruct (model_available w) eqn:Hm.
  2: { unfold enroll_speakers, _load_embedding_model. rewrite Hm. discriminate. }
  destruct (group_loop segments []) as [grouped|e] eqn:Hg.
  2: { unfold enroll_speakers, _load_embedding_model. rewrite Hm, Hg. discriminate. }
  rewrite (enroll_speakers_shape _ _ _ _ _ _ _ Hm Hg). cbv zeta. cbn [outcome snd].
  intros H. apply enroll_loop_files in H.
  - rewrite H. cbn [app]. unfold speakers. now rewrite (group_loop_keys _ _ _ Hg).
  - pose proof (group_loop_nonempty _ _ _ Hg (List.Forall_nil _)) as Hne.
    eapply List.Forall_impl; [|exact Hne]. intros g. now apply select_nonempty.
Qed.

Lemma enroll_speakers_one_file_per_speaker_witness :
  [db_dir // PyStr.lit "Alice.npy"]
  = map (speaker_file alice_map db_dir) (speakers two_segments).
Proof.
  apply (enroll_speakers_one_file_per_speaker averaging_world audio_file two_segments
           alice_map db_dir 5); [lia | vm_compute; reflexivity].
Defined.

End OneFilePerSpeaker.

(* ===================================================================== *)
(** * Quoting and splitting *)
(* ===================================================================== *)

Section ShlexFacts.
Import Shlex.

Example split_examples :
  split (PyStr.lit "a  'b c' d\ e 'f'g") = Ok [PyStr.lit "a"; PyStr.lit "b c"; PyStr.lit "d e"; PyStr.lit "fg"]
  /\ split (PyStr.lit "'' x") = Ok [[]; PyStr.lit "x"]
  /\ split (PyStr.lit "'a") = Raise ValueError
  /\ split (PyStr.lit "  ") = Ok []
  /\ split (quote (PyStr.lit "it's")) = Ok [PyStr.lit "it's"].
Proof. vm_compute. repeat split. Qed.

(** A safe character is no blank, no quote and no backslash. *)
Lemma is_safe_plain (c : N) :
  is_safe c = true ->
  is_whitespace c = false /\ is_quote c = false /\ is_escape c = false.
Proof.
  intros Hs.
  assert (H : forall d, In d [32; 9; 13; 10; SQ; DQ; BACKSLASH]%N -> c <> d).
  { intros d Hd ->. cbn in Hd.
    repeat (destruct Hd as [<- | Hd]; [vm_compute in Hs; discriminate Hs|]).
    destruct Hd. }
  unfold is_whitespace, is_quote, is_escape.
  rewrite !orb_false_iff, !N.eqb_neq.
  repeat split; apply H; cbn; tauto.
Qed.

Lemma lex_word_safe (w : str) :
  forall r e t q,
    forallb is_safe w = true ->
    lex (w ++ r) Word e t q = lex r Word e (t ++ w) q.
Proof.
  induction w as [|c w IH]; intros r e t q Hw.
  - now rewrite app_nil_r.
  - cbn in Hw. apply andb_true_iff in Hw as [Hc Hw].
    destruct (is_safe_plain c Hc) as (Hws & Hq & He).
    cbn [app lex]. rewrite Hws, Hq, He.
    rewrite (IH r e (t ++ [c]) q Hw). now rewrite <- app_assoc.
Qed.

Lemma lex_quoted_body (s : str) :
  forall r e t,
    lex (escape_quotes s ++ r) (Quote SQ) e t true
    = lex r (Quote SQ) e (t ++ s) true.
Proof.
  induction s as [|c s IH]; intros r e t.
  - now rewrite app_nil_r.
  - cbn [escape_quotes]. destruct (N.eqb_spec c SQ) as [->|Hc].
    + rewrite <- app_assoc. cbn [app lex]. cbn.
      rewrite IH. now rewrite <- app_assoc.
    + rewrite <- app_assoc. cbn [app lex].
      apply N.eqb_neq in Hc. rewrite Hc. cbn [is_escape andb].
      replace (is_escape c && (SQ =? DQ)%N) with false by (now rewrite andb_false_r).
      rewrite IH. now rewrite <- app_assoc.
Qed.

(** Inside quotes [quoted] is set whatever it was. *)
Lemma lex_quote_flag (s : str) (q : N) (e : state) (t : str) :
  lex s (Quote q) e t false = lex s (Quote q) e t true.
Proof. destruct s; reflexivity. Qed.

(** From between two words, the quoted form of [a] is read back as [a],
    and the lexer is left inside a word that it will give out, empty or
    not. *)
Lemma lex_quote (a : str) (r : str) :
  exists q,
    lex (quote a ++ r) Space Space [] false = lex r Word Space a q
    /\ pending a q = true.
Proof.
  destruct a as [|c a].
  - exists true. split; reflexivity.
  - unfold quote. destruct (forallb is_safe (c :: a)) eqn:Hs.
    + exists false. split; [|reflexivity].
      cbn in Hs. apply andb_true_iff in Hs as [Hc Ha].
      destruct (is_safe_plain c Hc) as (Hws & Hq & He).
      cbn [app lex]. rewrite Hws, He, Hq.
      now rewrite (lex_word_safe a r Space [c] false Ha).
    + exists true. split; [|reflexivity].
      rewrite <- !app_assoc. cbn [app lex]. cbn [is_whitespace is_escape is_quote].
      change ((SQ =? 32) || (SQ =? 9) || (SQ =? 13) || (SQ =? 10))%N with false.
      change (SQ =? BACKSLASH)%N with false.
      change ((SQ =? SQ) || (SQ =? DQ))%N with true. cbn match.
      rewrite lex_quote_flag, lex_quoted_body. cbn [app lex]. now rewrite N.eqb_refl.
Qed.

(** [shlex.split] undoes [" ".join(shlex.quote(arg) for arg in args)]. *)
Lemma split_join_quote (args : list str) :
  split (PyStr.join (PyStr.lit " ") (map quote args)) = Ok args.
Proof.
  unfold split. change (PyStr.lit " ") with [32%N].
  induction args as [|a args IH]; [reflexivity|].
  destruct args as [|b args].
  - cbn [map PyStr.join]. rewrite <- (app_nil_r (quote a)).
    destruct (lex_quote a []) as (q & -> & Hq).
    cbn [lex]. now rewrite Hq.
  - change (PyStr.join [32%N] (map quote (a :: b :: args)))
      with (quote a ++ [32%N] ++ PyStr.join [32%N] (map quote (b :: args))).
    destruct (lex_quote a ([32%N] ++ PyStr.join [32%N] (map quote (b :: args))))
      as (q & -> & Hq).
    cbn [app lex]. change (is_whitespace 32) with true. cbn match. rewrite Hq.
    rewrite IH. reflexivity.
Qed.

End ShlexFacts.

(* ===================================================================== *)
(** * Command lines *)
(* ===================================================================== *)

Section CommandLines.
Import Behaviour Config WhisperxRunner.

Lemma join_cons (sep x : str) (rest : list str) :
  PyStr.join sep (x :: rest)
  = x ++ match rest with [] => [] | _ => sep ++ PyStr.join sep rest end.
Proof. destruct rest; cbn [PyStr.join]; [now rewrite app_nil_r | reflexivity]. Qed.

Lemma join_app_cons (sep : str) (front : list str) (x : str) (rest : list str) :
  front <> [] ->
  PyStr.join sep (front ++ x :: rest)
  = PyStr.join sep front ++ sep ++ PyStr.join sep (x :: rest).
Proof.
  induction front as [|a front IH]; [congruence|]. intros _.
  destruct front as [|b front]; [reflexivity|].
  change (PyStr.join sep ((a :: b :: front) ++ x :: rest))
    with (a ++ sep ++ PyStr.join sep ((b :: front) ++ x :: rest)).
  rewrite IH by discriminate.
  change (PyStr.join sep (a :: b :: front)) with (a ++ sep ++ PyStr.join sep (b :: front)).
  now rewrite <- !app_assoc.
Qed.

Lemma run_whisperx_trace (h : Host) (config : WhisperXConfig)
    (audio_path output_dir : str) (env : option (gmap str str))
    (additional_args : option (list str)) :
  let args := base_args h config audio_path output_dir additional_args in
  let command := build_command h config audio_path output_dir additional_args in
  exists logged,
    run_whisperx h config audio_path output_dir env additional_args
    = (MakeDirs output_dir :: Log INFO (PyStr.lit "Running WhisperX: " ++ command)
         :: Run args None :: logged,
       if returncode (program h args) =? 0 then inr (program h args)
       else inl (WhisperXRuntimeError (returncode (program h args))))
    /\ Forall (fun a => exists l m, a = Log l m) logged.
Proof.
  cbv zeta. unfold run_whisperx, build_command. rewrite split_join_quote.
  destruct (returncode _ =? 0); cbn [negb app]; eexists; (split; [reflexivity|]);
    repeat constructor; now do 2 eexists.
Qed.

(** X19. [run_whisperx] starts the program with exactly the arguments
    that [build_command] put together, whatever characters the paths,
    the model name or the token contain: splitting the quoted command
    gives back the list it was joined from, and never fails. The program
    is started once, after the output directory is made; the child is
    given no environment of its own, so the [env] argument changes
    nothing; and a status other than zero raises
    [WhisperXRuntimeError]. *)
Theorem run_whisperx_arguments (h : Host) (config : WhisperXConfig)
    (audio_path output_dir : str) (env : option (gmap str str))
    (additional_args : option (list str)) :
  let args := base_args h config audio_path output_dir additional_args in
  let command := build_command h config audio_path output_dir additional_args in
  Shlex.split command = Ok args
  /\ exists logged,
       run_whisperx h config audio_path output_dir env additional_args
       = (MakeDirs output_dir :: Log INFO (PyStr.lit "Running WhisperX: " ++ command)
            :: Run args None :: logged,
          if returncode (program h args) =? 0 then inr (program h args)
          else inl (WhisperXRuntimeError (returncode (program h args))))
       /\ Forall (fun a => exists l m, a = Log l m) logged.
Proof.
  cbv zeta. split; [apply split_join_quote | apply run_whisperx_trace].
Qed.

(** With a token, the arguments have [--hf_token] and the token after
    the sixteen that are always there. *)
Lemma base_args_token (h : Host) (config : WhisperXConfig)
    (audio_path output_dir : str) (additional_args : option (list str)) :
  str_true (hf_token config) || str_true (environ h !! HF_TOKEN) = true ->
  exists front rest,
    front <> []
    /\ base_args h config audio_path output_dir additional_args
       = front ++ PyStr.lit "--hf_token"
           :: str_or (hf_token config) (default [] (environ h !! HF_TOKEN)) :: rest.
Proof.
  intros Ht. unfold base_args. rewrite Ht.
  exists [ PyStr.lit "whisperx"; audio_path;
           PyStr.lit "--device"; fst (_detect_device_and_precision h);
           PyStr.lit "--model"; model config;
           PyStr.lit "--language"; language config;
           PyStr.lit "--batch_size"; PyStr.of_int (batch_size config);
           PyStr.lit "--compute_type";
           str_or (compute_type config) (snd (_detect_device_and_precision h));
           PyStr.lit "--output_dir"; output_dir;
           PyStr.lit "--output_format"; PyStr.lit "all" ].
  destruct (diarize config), (enable_alignment config),
    additional_args as [[|a more]|];
    eexists; (split; [discriminate|]);
    rewrite <- ?app_assoc; cbn [app]; reflexivity.
Qed.

(** X20. A Hugging Face token, from the configuration or else from the
    environment, is put on the command line after [--hf_token], and the
    command line is written to the log at INFO level before the program
    starts: the token can be read in the log and among the arguments of
    the child, as it is when it has only letters, digits and
    underscores, quoted otherwise. *)
Theorem token_is_logged (h : Host) (config : WhisperXConfig)
    (audio_path output_dir : str) (env : option (gmap str str))
    (additional_args : option (list str)) :
  let token := str_or (hf_token config) (default [] (environ h !! HF_TOKEN)) in
  let command := build_command h config audio_path output_dir additional_args in
  str_true (hf_token config) || str_true (environ h !! HF_TOKEN) = true ->
  token <> []
  /\ (forallb Shlex.is_safe token = true -> Shlex.quote token = token)
  /\ (exists before after,
        command = before ++ PyStr.lit " --hf_token " ++ Shlex.quote token ++ after)
  /\ In (Log INFO (PyStr.lit "Running WhisperX: " ++ command))
        (fst (run_whisperx h config audio_path output_dir env additional_args))
  /\ In token (base_args h config audio_path output_dir additional_args).
Proof.
  cbv zeta. intros Ht.
  destruct (base_args_token h config audio_path output_dir additional_args Ht)
    as (front & rest & Hne & Hargs).
  assert (Htoken : str_or (hf_token config) (default [] (environ h !! HF_TOKEN)) <> []).
  { clear Hargs. unfold str_true, str_or in *.
    destruct (hf_token config) as [[|c s]|]; try discriminate;
      destruct (environ h !! HF_TOKEN) as [[|c' s']|]; cbn in *; discriminate. }
  split; [exact Htoken|]. split; [|split; [|split]].
  - intros Hs. unfold Shlex.quote. rewrite Hs.
    now destruct (str_or _ _).
  - unfold build_command. rewrite Hargs, map_app. cbn [map].
    rewrite join_app_cons by (destruct front; [congruence | discriminate]).
    rewrite join_cons. cbn match. rewrite join_cons.
    change (Shlex.quote (PyStr.lit "--hf_token")) with (PyStr.lit "--hf_token").
    exists (PyStr.join (PyStr.lit " ") (map Shlex.quote front)),
      (match map Shlex.quote rest with
       | [] => []
       | _ => PyStr.lit " " ++ PyStr.join (PyStr.lit " ") (map Shlex.quote rest)
       end).
    change (PyStr.lit " --hf_token ")
      with (PyStr.lit " " ++ PyStr.lit "--hf_token" ++ PyStr.lit " ").
    rewrite <- !app_assoc. reflexivity.
  - destruct (run_whisperx_trace h config audio_path output_dir env additional_args)
      as (logged & -> & _).
    right. now left.
  - rewrite Hargs. apply List.in_or_app. right. right. now left.
Qed.

Lemma token_is_logged_witness :
  let config :=
    mkWhisperX (PyStr.lit "medium") (PyStr.lit "ru") 8 None true
      (PyStr.lit "align") true (Some (PyStr.lit "hf_secret")) in
  let h := mkHost None ∅ (fun _ => mkCompleted 0 [] []) in
  let command := build_command h config (PyStr.lit "a.mp3") (PyStr.lit "out") None in
  PyStr.lit "hf_secret" <> []
  /\ (forallb Shlex.is_safe (PyStr.lit "hf_secret") = true ->
      Shlex.quote (PyStr.lit "hf_secret") = PyStr.lit "hf_secret")
  /\ (exists before after,
        command = before ++ PyStr.lit " --hf_token "
                    ++ Shlex.quote (PyStr.lit "hf_secret") ++ after)
  /\ In (Log INFO (PyStr.lit "Running WhisperX: " ++ command))
        (fst (run_whisperx h config (PyStr.lit "a.mp3") (PyStr.lit "out") None None))
  /\ In (PyStr.lit "hf_secret")
        (base_args h config (PyStr.lit "a.mp3") (PyStr.lit "out") None).
Proof.
  exact (token_is_logged (mkHost None ∅ (fun _ => mkCompleted 0 [] []))
           (mkWhisperX (PyStr.lit "medium") (PyStr.lit "ru") 8 None true
              (PyStr.lit "align") true (Some (PyStr.lit "hf_secret")))
           (PyStr.lit "a.mp3") (PyStr.lit "out") None None eq_refl).
Defined.

Lemma digit_safe (d : Z) : 0 <= d < 10 -> Shlex.is_safe (PyStr.digit d) = true.
Proof.
  intros Hd. unfold Shlex.is_safe, PyStr.digit.
  assert (H : ((48 <=? 48 + Z.to_N d) && (48 + Z.to_N d <=? 57))%N = true).
  { apply andb_true_iff. split; apply N.leb_le; lia. }
  now rewrite H.
Qed.

Lemma is_digit_safe (c : N) : is_digit c = true -> Shlex.is_safe c = true.
Proof. unfold is_digit, Shlex.is_safe. now intros ->. Qed.

Lemma round_half_even_nonneg (num den : Z) :
  0 <= num -> 0 < den -> 0 <= PyFormat.round_half_even num den.
Proof.
  intros Hn Hd. unfold PyFormat.round_half_even.
  assert (0 <= num / den) by (apply Z.div_pos; lia).
  destruct (2 * (num mod den) ?= den); [destruct (Z.even _)| |]; lia.
Qed.

(** What [.3f] writes is never empty and needs no quoting. *)
Lemma format_3f_safe (x : float) :
  PyFormat.format_3f x <> [] /\ forallb Shlex.is_safe (PyFormat.format_3f x) = true.
Proof.
  destruct x as [s|s| |s m e]; cbn [PyFormat.format_3f].
  - destruct s; split; (discriminate || reflexivity).
  - destruct s; split; (discriminate || reflexivity).
  - split; [discriminate | reflexivity].
  - set (t := if 0 <=? e then _ else _).
    assert (Ht : 0 <= t).
    { subst t. destruct (0 <=? e) eqn:He.
      - apply Z.leb_le in He. assert (0 < 2 ^ e) by (apply Z.pow_pos_nonneg; lia). nia.
      - apply Z.leb_gt in He. apply round_half_even_nonneg; [lia|].
        apply Z.pow_pos_nonneg; lia. }
    assert (Hd : forallb Shlex.is_safe (PyStr.digits (t / 1000)) = true).
    { apply forallb_forall. intros c Hc. apply is_digit_safe.
      assert (H : Forall (fun c => is_digit c = true) (PyStr.digits (t / 1000))).
      { apply digits_fuel_digits; [apply Z.div_pos; lia | constructor]. }
      rewrite List.Forall_forall in H. now apply H. }
    assert (Hp : forallb Shlex.is_safe (PyFormat.pad3 (t mod 1000)) = true).
    { pose proof (Z.mod_pos_bound t 1000). unfold PyFormat.pad3. cbn [forallb].
      rewrite !digit_safe; [reflexivity | | |].
      - pose proof (Z.mod_pos_bound (t mod 1000) 10). lia.
      - pose proof (Z.mod_pos_bound (t mod 1000 / 10) 10). lia.
      - split; [apply Z.div_pos; lia | apply Z.div_lt_upper_bound; lia]. }
    split.
    + intros H. apply (f_equal (@length N)) in H. rewrite !length_app in H.
      cbn in H. lia.
    + rewrite !forallb_app, Hd, Hp. now destruct s.
Qed.

Lemma quote_format_3f (x : float) :
  Shlex.quote (PyFormat.format_3f x) = PyFormat.format_3f x.
Proof.
  destruct (format_3f_safe x) as [Hne Hs]. unfold Shlex.quote.
  destruct (PyFormat.format_3f x); [congruence | now rewrite Hs].
Qed.

(** X21. [ffmpeg] is started with exactly these eighteen arguments: the
    audio file and the destination reach it as one argument each,
    unchanged, whatever characters their names contain, and the start
    and the duration as decimals with three places. Splitting the
    command never fails. *)
Theorem cut_command_arguments (audio : str) (start duration : float)
    (destination : str) :
  CutCommand.argv audio start duration destination
  = Ok [ PyStr.lit "ffmpeg"; PyStr.lit "-y"; PyStr.lit "-nostdin";
         PyStr.lit "-loglevel"; PyStr.lit "error";
         PyStr.lit "-ss"; PyFormat.format_3f start;
         PyStr.lit "-t"; PyFormat.format_3f duration;
         PyStr.lit "-i"; audio;
         PyStr.lit "-ar"; PyStr.lit "16000"; PyStr.lit "-ac"; PyStr.lit "1";
         PyStr.lit "-f"; PyStr.lit "wav"; destination ].
Proof.
  unfold CutCommand.argv.
  rewrite <- split_join_quote. f_equal.
  unfold CutCommand.command. cbn [map PyStr.join].
  rewrite !quote_format_3f.
  repeat match goal with
         | |- context [Shlex.quote (PyStr.lit ?s)] =>
             change (Shlex.quote (PyStr.lit s)) with (PyStr.lit s)
         end.
  unfold PyStr.lit. cbn [list_ascii_of_string map N_of_ascii N_of_digits app].
  rewrite <- ?app_assoc. reflexivity.
Qed.

End CommandLines.

Section Decimals.
Import Behaviour.

Lemma span_digits_app (ds r : str) :
  Forall (fun c => is_digit c = true) ds ->
  match r with [] => True | c :: _ => is_digit c = false end ->
  span_digits (ds ++ r) = (ds, r).
Proof.
  intros Hd Hr. induction Hd as [|c ds Hc _ IH]; cbn [app span_digits].
  - destruct r as [|c r]; [reflexivity|]. cbn. now rewrite Hr.
  - now rewrite Hc, IH.
Qed.

Lemma digits_fuel_nonempty (fuel : nat) :
  forall n acc, acc <> [] -> PyStr.digits_fuel fuel n acc <> [].
Proof.
  induction fuel as [|fuel IH]; intros n acc Hacc; cbn [PyStr.digits_fuel];
    [exact Hacc|].
  destruct (n <? 10); [discriminate | now apply IH].
Qed.

Lemma digits_nonempty (n : Z) : PyStr.digits n <> [].
Proof.
  unfold PyStr.digits. cbn [PyStr.digits_fuel].
  destruct (n <? 10); [discriminate | now apply digits_fuel_nonempty].
Qed.

Lemma pad3_value (k : Z) : 0 <= k < 1000 -> digits_value (PyFormat.pad3 k) = k.
Proof.
  intros Hk. unfold digits_value, PyFormat.pad3. cbn [fold_left].
  rewrite !digit_value.
  - pose proof (Z.div_mod k 10). pose proof (Z.div_mod (k / 10) 10).
    pose proof (Z.div_div k 10 10). change (10 * 10) with 100 in *.
    pose proof (Z.mod_small (k / 100) 10). nia || lia.
  - pose proof (Z.mod_pos_bound k 10). lia.
  - pose proof (Z.mod_pos_bound (k / 10) 10). lia.
  - apply Z.div_pos; lia.
Qed.

Lemma round_half_even_close (num den : Z) :
  0 < den ->
  Z.abs (2 * (PyFormat.round_half_even num den * den - num)) <= den.
Proof.
  intros Hd. unfold PyFormat.round_half_even.
  pose proof (Z.div_mod num den ltac:(lia)) as Hdm.
  pose proof (Z.mod_pos_bound num den Hd) as Hr.
  destruct (Z.compare_spec (2 * (num mod den)) den) as [He|Hl|Hg].
  - destruct (Z.even (num / den)); nia.
  - nia.
  - nia.
Qed.

(** What [.3f] shows for a number: its thousandths, read back. *)
Lemma format_3f_shown (s : bool) (t : Z) :
  0 <= t ->
  thousandths_shown
    (PyFormat.sign s ++ PyStr.digits (t / 1000) ++ PyStr.lit "."
       ++ PyFormat.pad3 (t mod 1000))
  = Some (cond_Zopp s t).
Proof.
  intros Ht. unfold thousandths_shown.
  assert (Hd : Forall (fun c => is_digit c = true) (PyStr.digits (t / 1000))).
  { apply digits_fuel_digits; [apply Z.div_pos; lia | constructor]. }
  assert (Hbody : span_digits (PyStr.digits (t / 1000) ++ PyStr.lit "."
                                 ++ PyFormat.pad3 (t mod 1000))
                  = (PyStr.digits (t / 1000),
                     PyStr.lit "." ++ PyFormat.pad3 (t mod 1000))).
  { now apply span_digits_app. }
  pose proof (Z.mod_pos_bound t 1000 ltac:(lia)) as Hm.
  pose proof (digits_nonempty (t / 1000)) as Hne0.
  assert (Hneg : match PyFormat.sign s ++ PyStr.digits (t / 1000) ++ PyStr.lit "."
                         ++ PyFormat.pad3 (t mod 1000) with
                 | c :: _ => (c =? 45)%N
                 | [] => false
                 end = s).
  { destruct s; [reflexivity|]. cbn [PyFormat.sign app].
    destruct (PyStr.digits (t / 1000)) as [|c ds]; [congruence|].
    inversion Hd as [|? ? Hc _]; subst. cbn [app].
    apply N.eqb_neq. intros ->. discriminate Hc. }
  rewrite Hneg.
  assert (Hb : (if s then tail (PyFormat.sign s ++ PyStr.digits (t / 1000) ++ PyStr.lit "."
                                  ++ PyFormat.pad3 (t mod 1000))
                else PyFormat.sign s ++ PyStr.digits (t / 1000) ++ PyStr.lit "."
                       ++ PyFormat.pad3 (t mod 1000))
               = PyStr.digits (t / 1000) ++ PyStr.lit "." ++ PyFormat.pad3 (t mod 1000))
    by (now destruct s).
  rewrite Hb, Hbody.
  pose proof (digits_nonempty (t / 1000)) as Hne.
  destruct (PyStr.digits (t / 1000)) as [|c whole] eqn:E; [congruence|].
  change (PyStr.lit "." ++ PyFormat.pad3 (t mod 1000))
    with [46%N; PyStr.digit (t mod 1000 / 100); PyStr.digit (t mod 1000 / 10 mod 10);
          PyStr.digit (t mod 1000 mod 10)].
  assert (Hdig : forall d, 0 <= d < 10 -> is_digit (PyStr.digit d) = true).
  { intros d Hdd. unfold is_digit, PyStr.digit. apply andb_true_iff.
    split; apply N.leb_le; lia. }
  cbv beta iota zeta. rewrite !Hdig.
  - cbn [andb]. f_equal. f_equal. rewrite <- E, digits_value_digits by (apply Z.div_pos; lia).
    change [PyStr.digit (t mod 1000 / 100); PyStr.digit (t mod 1000 / 10 mod 10);
            PyStr.digit (t mod 1000 mod 10)] with (PyFormat.pad3 (t mod 1000)).
    rewrite pad3_value by lia. pose proof (Z.div_mod t 1000). lia.
  - pose proof (Z.mod_pos_bound (t mod 1000) 10). lia.
  - pose proof (Z.mod_pos_bound (t mod 1000 / 10) 10). lia.
  - split; [apply Z.div_pos; lia | apply Z.div_lt_upper_bound; lia].
Qed.

Lemma thousandths_close (m : positive) (e T : Z) :
  T = (if 0 <=? e then Zpos m * 2 ^ e * 1000
       else PyFormat.round_half_even (Zpos m * 1000) (2 ^ (- e))) ->
  (Qabs ((T # 1000) - PyFloat.to_Q (S754_finite false m e)) <= (1 # 2000))%Q.
Proof.
  intros HT. unfold PyFloat.to_Q. destruct (Z.leb_spec 0 e) as [He|He].
  - subst T. unfold Qle, Qabs, Qminus, Qplus, Qopp, inject_Z. cbn [Qnum Qden Z.abs].
    replace (Z.pos m * 2 ^ e * 1000 * 1 + - (Z.pos m * 2 ^ e) * 1000) with 0 by ring.
    cbn. lia.
  - assert (HD : 0 < 2 ^ (- e)) by (apply Z.pow_pos_nonneg; lia).
    pose proof (round_half_even_close (Z.pos m * 1000) (2 ^ (- e)) HD) as Hc.
    rewrite <- HT in Hc.
    unfold Qle, Qabs, Qminus, Qplus, Qopp. cbn [Qnum Qden].
    rewrite Pos2Z.inj_mul, Z2Pos.id by exact HD.
    change (Z.pos 1000) with 1000. change (Z.pos 2000) with 2000. lia.
Qed.

(** X22. For a number, what [.3f] writes reads back as a multiple of a
    thousandth that is within half a thousandth of the number: the start
    and the duration given to [ffmpeg] are those of the window to half a
    millisecond. *)
Theorem format_3f_accurate (x : float) :
  finite x = true ->
  exists t,
    thousandths_shown (PyFormat.format_3f x) = Some t
    /\ (Qabs ((t # 1000) - PyFloat.to_Q x) <= (1 # 2000))%Q.
Proof.
  destruct x as [s|s| |s m e]; cbn [finite]; try discriminate; intros _.
  - exists 0. split; [now destruct s | vm_compute; discriminate].
  - cbn [PyFormat.format_3f].
    set (T := if 0 <=? e then _ else _).
    assert (HT : 0 <= T).
    { subst T. destruct (Z.leb_spec 0 e).
      - assert (0 < 2 ^ e) by (apply Z.pow_pos_nonneg; lia). nia.
      - apply round_half_even_nonneg; [lia | apply Z.pow_pos_nonneg; lia]. }
    exists (cond_Zopp s T). split; [now apply format_3f_shown|].
    pose proof (thousandths_close m e T eq_refl) as Hc.
    destruct s; cbn [cond_Zopp]; [|exact Hc].
    rewrite <- Qabs_opp.
    assert (Heq : (- (((- T) # 1000) - PyFloat.to_Q (S754_finite true m e))
                   == (T # 1000) - PyFloat.to_Q (S754_finite false m e))%Q).
    { unfold PyFloat.to_Q. destruct (0 <=? e); unfold Qeq, Qminus, Qplus, Qopp, inject_Z;
        cbn [Qnum Qden]; ring. }
    now rewrite Heq.
Qed.

Lemma format_3f_accurate_witness :
  exists t,
    thousandths_shown (PyFormat.format_3f (PyFloat.of_ratio false 652 10)) = Some t
    /\ (Qabs ((t # 1000) - PyFloat.to_Q (PyFloat.of_ratio false 652 10)) <= (1 # 2000))%Q.
Proof. apply (format_3f_accurate (PyFloat.of_ratio false 652 10)). reflexivity. Defined.

(** 65.2 is written 65.200. *)
Lemma format_3f_example :
  PyFormat.format_3f (PyFloat.of_ratio false 652 10) = PyStr.lit "65.200"
  /\ thousandths_shown (PyStr.lit "65.200") = Some 65200.
Proof. vm_compute. split; reflexivity. Qed.

End Decimals.

(* ===================================================================== *)
(** * The configuration *)
(* ===================================================================== *)

Section Overrides.
Import Behaviour Config.

Lemma dict_or_either (a b : option (gmap str str)) (m : gmap str str) :
  dict_or a (dict_or b m) = dict_or (either_dict a b) m.
Proof.
  destruct a as [x|]; cbn; [|reflexivity].
  destruct (bool_decide_reflect (x = ∅)) as [->|Hx]; cbn; [reflexivity|].
  now rewrite bool_decide_eq_false_2.
Qed.

Lemma path_or_either (a b : option path) (p : path) :
  path_or a (path_or b p) = path_or (either_path a b) p.
Proof. now destruct a. Qed.

(** X23. [with_overrides] keeps what it is not given: with no argument
    the copy equals the original, the WhisperX options are always kept,
    and an empty speaker map counts as not given, so the map cannot be
    emptied this way. Two rounds of overrides are one round in which,
    field by field, the later value wins where there is one. *)
Theorem with_overrides_laws (self : PipelineConfig)
    (root1 root2 db1 db2 : option path) (map1 map2 : option (gmap str str)) :
  with_overrides self None None None = self
  /\ whisperx (with_overrides self root1 map1 db1) = whisperx self
  /\ speaker_map (with_overrides self root1 (Some ∅) db1) = speaker_map self
  /\ (forall m, m <> ∅ ->
        speaker_map (with_overrides self root1 (Some m) db1) = m)
  /\ with_overrides (with_overrides self root1 map1 db1) root2 map2 db2
     = with_overrides self (either_path root2 root1) (either_dict map2 map1)
         (either_path db2 db1).
Proof.
  split; [now destruct self|]. split; [reflexivity|]. split; [reflexivity|]. split.
  - intros m Hm. cbn. now rewrite bool_decide_eq_false_2.
  - unfold with_overrides. cbn [whisperx output_root speaker_map speaker_db].
    now rewrite !path_or_either, dict_or_either.
Qed.

End Overrides.
